(** * youtube-unofficial: the [YouTube] client class

    A shallow embedding of [youtube_unofficial/__init__.py].  Python values
    that come out of the site's JSON are modelled by [json]; the methods of
    the class are computations in a state-and-exception monad over the client
    object and a transcript of everything the client did on the network.

    The helper modules the class imports ([download], [ytcfg], [initial],
    [util], [community], [login]) are not part of the modelled sources: their
    functions are parameters (class [Helpers]) or answers of the environment
    (record [backend]). *)

From Stdlib Require Import String Ascii List ZArith Bool Lia Arith DecimalString.
Import ListNotations.
Set Warnings "-register-all".
Local Open Scope string_scope.
Local Open Scope Z_scope.

(* ================================================================== *)
(** ** [hashlib.sha1]

    The digest used by [_authorization_sapisidhash_header], on bytes given as
    a [string] (a Rocq string is a sequence of bytes; Python's
    [str.encode()] is UTF-8 and is the identity on such a sequence). *)

Module Sha1.

Definition mask32 : Z := 4294967295.
Definition w32 (x : Z) : Z := Z.land x mask32.
Definition add32 (x y : Z) : Z := w32 (x + y).
Definition rotl (n x : Z) : Z :=
  w32 (Z.lor (Z.shiftl x n) (Z.shiftr x (32 - n))).
Definition not32 (x : Z) : Z := Z.lxor x mask32.

Definition bytes_of_string (s : string) : list Z :=
  map (fun c => Z.of_N (N_of_ascii c)) (list_ascii_of_string s).

(** Big-endian bytes of a [k]-byte unsigned number. *)
Fixpoint be_bytes (k : nat) (x : Z) : list Z :=
  match k with
  | O => []
  | S k' => Z.land (Z.shiftr x (8 * Z.of_nat k')) 255 :: be_bytes k' x
  end.

(** Message padding: a 1 bit, zeros up to 56 mod 64, the bit length on 64
    bits. *)
Definition pad (msg : list Z) : list Z :=
  let len := Z.of_nat (length msg) in
  let zeros := Z.to_nat ((55 - len) mod 64) in
  msg ++ 128 :: repeat 0 zeros ++ be_bytes 8 (8 * len).

Fixpoint words_of (k : nat) (bs : list Z) : list Z :=
  match k, bs with
  | S k', b0 :: b1 :: b2 :: b3 :: rest =>
      (b0 * 16777216 + b1 * 65536 + b2 * 256 + b3) :: words_of k' rest
  | _, _ => []
  end.

(** The message schedule, newest word first: [rev_w] holds w(t-1), w(t-2),
    ... *)
Fixpoint extend (k : nat) (rev_w : list Z) : list Z :=
  match k with
  | O => rev_w
  | S k' =>
      let w := rotl 1 (Z.lxor (Z.lxor (nth 2 rev_w 0) (nth 7 rev_w 0))
                              (Z.lxor (nth 13 rev_w 0) (nth 15 rev_w 0))) in
      extend k' (w :: rev_w)
  end.

Definition schedule (block : list Z) : list Z :=
  rev (extend 64 (rev (words_of 16 block))).

Definition hstate : Type := (Z * Z * Z * Z * Z)%type.

Definition h_init : hstate :=
  (1732584193, 4023233417, 2562383102, 271733878, 3285377520).

Definition round_fk (t : nat) (b c d : Z) : Z * Z :=
  if (t <? 20)%nat then
    (Z.lor (Z.land b c) (Z.land (not32 b) d), 1518500249)
  else if (t <? 40)%nat then
    (Z.lxor (Z.lxor b c) d, 1859775393)
  else if (t <? 60)%nat then
    (Z.lor (Z.lor (Z.land b c) (Z.land b d)) (Z.land c d), 2400959708)
  else
    (Z.lxor (Z.lxor b c) d, 3395469782).

Fixpoint rounds (t : nat) (ws : list Z) (s : hstate) : hstate :=
  match ws with
  | [] => s
  | w :: ws' =>
      let '(a, b, c, d, e) := s in
      let '(f, k) := round_fk t b c d in
      let tmp := add32 (add32 (add32 (add32 (rotl 5 a) f) e) k) w in
      rounds (S t) ws' (tmp, a, rotl 30 b, c, d)
  end.

Definition compress (h : hstate) (block : list Z) : hstate :=
  let '(h0, h1, h2, h3, h4) := h in
  let '(a, b, c, d, e) := rounds 0 (schedule block) h in
  (add32 h0 a, add32 h1 b, add32 h2 c, add32 h3 d, add32 h4 e).

Fixpoint blocks (n : nat) (bs : list Z) (h : hstate) : hstate :=
  match n with
  | O => h
  | S n' => blocks n' (skipn 64 bs) (compress h (firstn 64 bs))
  end.

Definition digest (msg : list Z) : list Z :=
  let p := pad msg in
  let '(h0, h1, h2, h3, h4) := blocks (length p / 64) p h_init in
  be_bytes 4 h0 ++ be_bytes 4 h1 ++ be_bytes 4 h2 ++ be_bytes 4 h3
    ++ be_bytes 4 h4.

Definition hex_digit (x : Z) : ascii :=
  if x <? 10 then ascii_of_N (Z.to_N (48 + x))
  else ascii_of_N (Z.to_N (87 + x)).

Fixpoint hex_of_bytes (bs : list Z) : string :=
  match bs with
  | [] => EmptyString
  | b :: bs' =>
      String (hex_digit (Z.shiftr b 4))
        (String (hex_digit (Z.land b 15)) (hex_of_bytes bs'))
  end.

(** [hashlib.sha1(); m.update(s); m.hexdigest()] *)
Definition hexdigest (s : string) : string :=
  hex_of_bytes (digest (bytes_of_string s)).

End Sha1.

Example sha1_empty :
  Sha1.hexdigest EmptyString = "da39a3ee5e6b4b0d3255bfef95601890afd80709".
Proof. vm_compute. reflexivity. Qed.

Example sha1_abc :
  Sha1.hexdigest "abc" = "a9993e364706816aba3e25717850c26c9cd0d89d".
Proof. vm_compute. reflexivity. Qed.

Example sha1_two_blocks :
  Sha1.hexdigest "abcdbcdecdefdefgefghfghighijhijkijkljklmklmnlmnomnopnopq"
  = "84983e441c3bd26ebaae4aa1f95129e5e54670f1".
Proof. vm_compute. reflexivity. Qed.

(** [str(n)] / [f'{n}'] of a Python [int]. *)
Definition str_of_int (n : Z) : string :=
  NilZero.string_of_int (Z.to_int n).

Example str_of_int_samples :
  str_of_int 0 = "0" /\ str_of_int 1700000000 = "1700000000"
  /\ str_of_int (-42) = "-42".
Proof. vm_compute. repeat split. Qed.

(* ================================================================== *)
(** ** Python values and exceptions *)

(** What [json.loads] produces.  A dict is an association list in insertion
    order; on a repeated key the first binding is the one that counts. *)
Inductive json : Type :=
| JNull
| JBool (b : bool)
| JNum (n : Z)
| JStr (s : string)
| JList (l : list json)
| JDict (d : list (string * json)).

Definition pydict : Type := list (string * json).

(** The exceptions the class raises, catches or lets through. *)
Inductive exn : Type :=
| AuthenticationError
| KeyError (arg : json)
| TypeError
| IndexError
| AssertionError
| HTTPError (status : Z)
| OtherError (name : string).

Inductive result (A : Type) : Type :=
| Ok (a : A)
| Err (e : exn).
Arguments Ok {A} a.
Arguments Err {A} e.

Definition rbind {A B} (r : result A) (k : A -> result B) : result B :=
  match r with
  | Ok a => k a
  | Err e => Err e
  end.

Fixpoint assoc {A} (k : string) (d : list (string * A)) : option A :=
  match d with
  | [] => None
  | (k', v) :: d' => if String.eqb k k' then Some v else assoc k d'
  end.

(** [d[k] = v] on a dict: overwrite in place, or append. *)
Fixpoint dict_set (k : string) (v : json) (d : pydict) : pydict :=
  match d with
  | [] => [(k, v)]
  | (k', v') :: d' =>
      if String.eqb k k' then (k, v) :: d' else (k', v') :: dict_set k v d'
  end.

Fixpoint first_occurrences (seen ks : list string) : list string :=
  match ks with
  | [] => []
  | k :: ks' =>
      if existsb (String.eqb k) seen then first_occurrences seen ks'
      else k :: first_occurrences (k :: seen) ks'
  end.

Definition dict_keys (d : pydict) : list string :=
  first_occurrences [] (map fst d).

Fixpoint is_substring (p s : string) : bool :=
  String.prefix p s
  || match s with
     | EmptyString => false
     | String _ s' => is_substring p s'
     end.

Definition chars_of (s : string) : list string :=
  map (fun c => String c EmptyString) (list_ascii_of_string s).

(** [v == 'lit'] for a string literal. *)
Definition eq_str (v : json) (lit : string) : bool :=
  match v with
  | JStr s => String.eqb s lit
  | _ => false
  end.

(** A subscript: [o['k']] or [o[i]]. *)
Inductive key : Type :=
| K (k : string)
| At (i : Z).

Definition list_index {A} (l : list A) (i : Z) : result A :=
  let n := Z.of_nat (length l) in
  let j := if i <? 0 then n + i else i in
  if (j <? 0) || (n <=? j) then Err IndexError
  else match nth_error l (Z.to_nat j) with
       | Some x => Ok x
       | None => Err IndexError
       end.

(** [o[k]] *)
Definition getitem (o : json) (k : key) : result json :=
  match o, k with
  | JDict d, K s =>
      match assoc s d with
      | Some v => Ok v
      | None => Err (KeyError (JStr s))
      end
  | JDict _, At i => Err (KeyError (JNum i))
  | JList l, At i => list_index l i
  | JStr s, At i => rbind (list_index (chars_of s) i) (fun c => Ok (JStr c))
  | _, _ => Err TypeError
  end.

(** [o[k1][k2]...], left to right, stopping at the first exception. *)
Fixpoint walk (o : json) (path : list key) : result json :=
  match path with
  | [] => Ok o
  | k :: path' => rbind (getitem o k) (fun o' => walk o' path')
  end.

(** ['k' in o] *)
Definition contains (k : string) (o : json) : result bool :=
  match o with
  | JDict d =>
      Ok (match assoc k d with Some _ => true | None => false end)
  | JList l => Ok (existsb (fun x => eq_str x k) l)
  | JStr s => Ok (is_substring k s)
  | _ => Err TypeError
  end.

(** [bool(o)] *)
Definition truthy (o : json) : bool :=
  match o with
  | JNull => false
  | JBool b => b
  | JNum n => negb (n =? 0)
  | JStr s => negb (String.eqb s EmptyString)
  | JList l => match l with [] => false | _ => true end
  | JDict d => match d with [] => false | _ => true end
  end.

(** [o is None] *)
Definition is_none (o : json) : bool :=
  match o with
  | JNull => true
  | _ => false
  end.

(** The items [for x in o] goes through. *)
Definition py_iter (o : json) : result (list json) :=
  match o with
  | JList l => Ok l
  | JDict d => Ok (map JStr (dict_keys d))
  | JStr s => Ok (map JStr (chars_of s))
  | _ => Err TypeError
  end.

Example getitem_samples :
  getitem (JList [JNum 1; JNum 2; JNum 3]) (At (-1)) = Ok (JNum 3)
  /\ getitem (JList []) (At (-1)) = Err IndexError
  /\ getitem (JList [JNum 1]) (K "a") = Err TypeError
  /\ getitem (JDict [("a", JNull)]) (K "b") = Err (KeyError (JStr "b"))
  /\ getitem (JDict [("a", JNull)]) (At 0) = Err (KeyError (JNum 0))
  /\ contains "ab" (JStr "cabd") = Ok true
  /\ contains "a" JNull = Err TypeError.
Proof. repeat split. Qed.

(* ================================================================== *)
(** ** [constants.py] *)

Definition BROWSE_AJAX_URL : string := "https://www.youtube.com/browse_ajax".
Definition HISTORY_URL : string := "https://www.youtube.com/feed/history".
Definition SERVICE_AJAX_URL : string := "https://www.youtube.com/service_ajax".
Definition WATCH_LATER_URL : string :=
  "https://www.youtube.com/playlist?list=WL".

(* ================================================================== *)
(** ** The client object, the network and the monad *)

(** A parsed page, as returned by [_download_page_soup]: the document
    text. *)
Definition soup : Type := string.

(** The arguments of one [_download_page] call. *)
Record request : Type := {
  rq_url : string;
  rq_method : option string;
  rq_params : pydict;
  rq_headers : pydict;
  rq_data : option pydict;
  rq_json : option json
}.

(** An [http.cookiejar.Cookie]: its value is a string or [None]. *)
Record cookie : Type := {
  cookie_name : string;
  cookie_value : option string
}.

(** What [remove_video_id_from_playlist] keeps in [self._rsvi_cache]. *)
Record cache : Type := {
  cache_soup : soup;
  cache_ytcfg : json;
  cache_headers : pydict
}.

(** Everything the client does that can be seen from outside, in order. *)
Inductive event : Type :=
| EvPage (url : string) (reply : result soup)
| EvRequest (rq : request) (reply : result json)
| EvLogin (reply : result (list cookie))
| EvSleep (seconds : Z)
| EvYield (item : json)
| EvLog (level message : string).

(** The environment.  [_download_page] and [_download_page_soup] (module
    [download]) are not part of the modelled sources: one call is one
    request, and the answer to the [n]-th request of the session is given
    here, as a value or as the exception the call raises. *)
Record backend : Type := {
  page_reply : nat -> result soup;
  json_reply : nat -> result json;
  login_reply : nat -> result (list cookie);
  clock : nat -> Z
}.

(** The fields of [self] the methods read or write, the number of requests
    sent so far and the transcript. *)
Record client : Type := {
  logged_in : bool;
  cj : list cookie;
  rsvi_cache : option cache;
  sent : nat;
  transcript : list event
}.

(** [YouTube.__init__]: the cookie jar as loaded, nothing sent, no cache. *)
Definition init (jar : list cookie) (logged : bool) : client :=
  {| logged_in := logged; cj := jar; rsvi_cache := None;
     sent := 0; transcript := [] |}.

(** How a method call or an iteration ends: with a value, with an exception
    of its own, because the consumer of a generator raised at a [yield]
    (the generator is abandoned there and none of its handlers runs), or
    because the model ran out of loop iterations. *)
Inductive outcome (A : Type) : Type :=
| Done (a : A)
| Raised (e : exn)
| Stopped (e : exn)
| NoFuel.
Arguments Done {A} a.
Arguments Raised {A} e.
Arguments Stopped {A} e.
Arguments NoFuel {A}.

Definition M (A : Type) : Type := client -> outcome A * client.

Definition ret {A} (a : A) : M A := fun st => (Done a, st).

Definition bind {A B} (m : M A) (k : A -> M B) : M B :=
  fun st =>
    match m st with
    | (Done a, st') => k a st'
    | (Raised e, st') => (Raised e, st')
    | (Stopped e, st') => (Stopped e, st')
    | (NoFuel, st') => (NoFuel, st')
    end.

Notation "x <- m ;; k" := (bind m (fun x => k))
  (at level 61, m at next level, right associativity).
Notation "' pat <- m ;; k" := (bind m (fun x => match x with pat => k end))
  (at level 61, pat pattern, m at next level, right associativity).
Notation "m ;; k" := (bind m (fun _ => k))
  (at level 61, right associativity).

Definition raise {A} (e : exn) : M A := fun st => (Raised e, st).

Definition lift {A} (r : result A) : M A :=
  match r with
  | Ok a => ret a
  | Err e => raise e
  end.

Definition no_fuel {A} : M A := fun st => (NoFuel, st).

(** [try: m except <handled>: h]; only exceptions of the body itself are
    offered to the handler. *)
Definition try_except {A} (m : M A) (h : exn -> option (M A)) : M A :=
  fun st =>
    match m st with
    | (Raised e, st') =>
        match h e with
        | Some m' => m' st'
        | None => (Raised e, st')
        end
    | r => r
    end.

Definition record (ev : event) : M unit :=
  fun st =>
    (Done tt,
     {| logged_in := logged_in st; cj := cj st; rsvi_cache := rsvi_cache st;
        sent := sent st; transcript := transcript st ++ [ev] |}).

Definition count_request : M nat :=
  fun st =>
    (Done (sent st),
     {| logged_in := logged_in st; cj := cj st; rsvi_cache := rsvi_cache st;
        sent := S (sent st); transcript := transcript st |}).

Definition get_client : M client := fun st => (Done st, st).

Definition set_rsvi_cache (c : option cache) : M unit :=
  fun st =>
    (Done tt,
     {| logged_in := logged_in st; cj := cj st; rsvi_cache := c;
        sent := sent st; transcript := transcript st |}).

Definition log (level message : string) : M unit :=
  record (EvLog level message).

(** [time.sleep] *)
Definition sleep (seconds : Z) : M unit := record (EvSleep seconds).

(** Loop bodies say how they leave: falling through to the next round, or
    [break]. *)
Inductive ctl (S : Type) : Type :=
| Next (s : S)
| Break (s : S).
Arguments Next {S} s.
Arguments Break {S} s.

(** [for x in l: body], with the variables the body assigns threaded
    through. *)
Fixpoint for_each {S} (l : list json) (s : S) (body : json -> S -> M (ctl S))
  : M S :=
  match l with
  | [] => ret s
  | x :: l' =>
      c <- body x s ;;
      match c with
      | Next s' => for_each l' s' body
      | Break s' => ret s'
      end
  end.

(** [while cond: body], for at most [fuel] rounds; [while True] is the case
    of a condition that always holds. *)
Fixpoint while_loop {S} (fuel : nat) (cond : S -> bool) (s : S)
  (body : S -> M (ctl S)) : M S :=
  if cond s then
    match fuel with
    | O => no_fuel
    | Datatypes.S fuel' =>
        c <- body s ;;
        match c with
        | Next s' => while_loop fuel' cond s' body
        | Break s' => ret s'
        end
    end
  else ret s.

(** Runs [m] and hands its exception, if it raised one, to the code that
    follows ([try: ... except ... as e]). *)
Definition attempt {A} (m : M A) : M (result A) :=
  fun st =>
    match m st with
    | (Done a, st') => (Done (Ok a), st')
    | (Raised e, st') => (Done (Err e), st')
    | (Stopped e, st') => (Stopped e, st')
    | (NoFuel, st') => (NoFuel, st')
    end.

Definition stop {A} (e : exn) : M A := fun st => (Stopped e, st).

(** [if not self.logged_in: raise AuthenticationError(...)] *)
Definition require_login : M unit :=
  st <- get_client ;;
  if logged_in st then ret tt else raise AuthenticationError.

(** [assert v is not None] *)
Definition assert_not_none (v : json) : M unit :=
  if is_none v then raise AssertionError else ret tt.

(** A generator function returns at once with a generator object: its body,
    not yet started.  Iterating runs the body; [on_yield] is what the
    consumer does with each item before it asks for the next one, and
    [fuel] bounds the rounds of the body's [while] loops. *)
Definition generator : Type := nat -> (json -> result unit) -> M unit.

Definition yield_ (on_yield : json -> result unit) (item : json) : M unit :=
  record (EvYield item) ;;
  match on_yield item with
  | Ok _ => ret tt
  | Err e => stop e
  end.

(** [yield from v] *)
Definition yield_from (on_yield : json -> result unit) (v : json) : M unit :=
  items <- lift (py_iter v) ;;
  for_each items tt (fun x _ => yield_ on_yield x ;; ret (Next tt)).

Definition yields (tr : list event) : list json :=
  flat_map (fun ev => match ev with EvYield x => [x] | _ => [] end) tr.

(** A consumer that drains a generator ([list(...)], a comprehension):
    [check] is what it evaluates on each item; an exception there ends the
    consumer's statement like one of the generator itself.  The result is
    the list of the items yielded. *)
Definition consume {B} (g : generator) (fuel : nat) (check : json -> result B)
  : M (list json) :=
  fun st =>
    match g fuel (fun x => rbind (check x) (fun _ => Ok tt)) st with
    | (Done _, st') =>
        (Done (yields (skipn (length (transcript st)) (transcript st'))), st')
    | (Raised e, st') => (Raised e, st')
    | (Stopped e, st') => (Raised e, st')
    | (NoFuel, st') => (NoFuel, st')
    end.

(** The helper functions and constants the class imports from modules that
    are not part of the modelled sources, and the two library functions
    that only format values. *)
Class Helpers : Type := {
  (** [ytcfg.find_ytcfg], [ytcfg.ytcfg_headers], [initial.initial_data] *)
  find_ytcfg : soup -> result json;
  ytcfg_headers : json -> result pydict;
  initial_data : soup -> result json;
  (** [util.path], [util.context_client_body] *)
  at_path : string -> json -> result json;
  context_client_body : json -> result json;
  (** [community.make_community_history_entry] *)
  make_community_history_entry : json -> string -> result json;
  (** [json.dumps] and [str()] as used by an f-string *)
  json_dumps : json -> string;
  format_str : json -> string;
  (** constants imported from [constants] that the file does not define *)
  COMMUNITY_HISTORY_URL : string;
  SEARCH_HISTORY_URL : string;
  WATCH_HISTORY_URL : string
}.

(* ================================================================== *)
(** ** The methods of [YouTube] *)

Section Methods.

Context {H : Helpers} (b : backend).

(** One page fetch: the request is counted, the exchange goes into the
    transcript, the answer is returned or raised. *)
Definition _download_page_soup (url : string) : M soup :=
  n <- count_request ;;
  record (EvPage url (page_reply b n)) ;;
  lift (page_reply b n).

(** One [_download_page(..., return_json=True)] call. *)
Definition _download_page (rq : request) : M json :=
  n <- count_request ;;
  record (EvRequest rq (json_reply b n)) ;;
  lift (json_reply b n).

(** [int(datetime.now().timestamp())] *)
Definition now : M Z :=
  st <- get_client ;;
  ret (clock b (sent st)).

(** Modelled from the spec: [login] hands over to the login helper
    ([self._login_handler.login()], module [login], which is not part of
    the modelled sources).  The spec has it "authenticating a user
    session"; the helper was given the session and the cookie jar only, so
    that is all it can change: one exchange with the site that, when it
    succeeds, leaves the session's cookies in the jar and the client logged
    in. *)
Definition login : M unit :=
  n <- count_request ;;
  record (EvLogin (login_reply b n)) ;;
  jar <- lift (login_reply b n) ;;
  fun st =>
    (Done tt,
     {| logged_in := true; cj := jar; rsvi_cache := rsvi_cache st;
        sent := sent st; transcript := transcript st |}).

(* ---------------------------------------------------------------- *)
(** *** [_authorization_sapisidhash_header] *)

Definition is_sapisid_name (name : string) : bool :=
  String.eqb name "SAPISID" || String.eqb name "__Secure-3PAPISID".

(** The [for cookie in self._cj] loop: the value of [sapisid] after it. *)
Fixpoint find_sapisid (jar : list cookie) : option string :=
  match jar with
  | [] => None
  | c :: jar' =>
      if is_sapisid_name (cookie_name c) then cookie_value c
      else find_sapisid jar'
  end.

Definition sapisidhash (timestamp : Z) (sapisid : string) : string :=
  "SAPISIDHASH " ++ str_of_int timestamp ++ "_"
  ++ Sha1.hexdigest
       (str_of_int timestamp ++ " " ++ sapisid ++ " https://www.youtube.com").

Definition _authorization_sapisidhash_header : M string :=
  t <- now ;;
  st <- get_client ;;
  match find_sapisid (cj st) with
  | None => raise AssertionError
  | Some sapisid => ret (sapisidhash t sapisid)
  end.

(* ---------------------------------------------------------------- *)
(** *** [remove_video_id_from_playlist] *)

Definition remove_video_id_from_playlist
  (playlist_id : string) (video_id : json) (cache_values : bool) : M bool :=
  require_login ;;
  st <- get_client ;;
  '(page, ytcfg, headers) <-
    match (if cache_values then rsvi_cache st else None) with
    | Some c => ret (cache_soup c, cache_ytcfg c, cache_headers c)
    | None =>
        page <- _download_page_soup WATCH_LATER_URL ;;
        ytcfg <- lift (find_ytcfg page) ;;
        headers <- lift (ytcfg_headers ytcfg) ;;
        ret (page, ytcfg, headers)
    end ;;
  (if cache_values then
     set_rsvi_cache (Some {| cache_soup := page; cache_ytcfg := ytcfg;
                             cache_headers := headers |})
   else ret tt) ;;
  let action :=
    JDict [("removedVideoId", video_id);
           ("action", JStr "ACTION_REMOVE_VIDEO_BY_VIDEO_ID")] in
  api_key <- lift (getitem ytcfg (K "INNERTUBE_API_KEY")) ;;
  authorization <- _authorization_sapisidhash_header ;;
  client_body <- lift (context_client_body ytcfg) ;;
  resp <- _download_page
    {| rq_url := "https://www.youtube.com/youtubei/v1/browse/edit_playlist";
       rq_method := Some "post";
       rq_params := [("key", api_key)];
       rq_headers := [("Authorization", JStr authorization);
                      ("x-goog-authuser", JStr "0");
                      ("x-origin", JStr "https://www.youtube.com")];
       rq_data := None;
       rq_json := Some (JDict
         [("actions", JList [action]);
          ("playlistId", JStr playlist_id);
          ("params", JStr "CAFAAQ%3D%3D");
          ("context", JDict
             [("client", client_body);
              ("request", JDict [("consistencyTokenJars", JList []);
                                 ("internalExperimentFlags", JList [])])])])
    |} ;;
  status <- lift (at_path "status" resp) ;;
  ret (eq_str status "STATUS_SUCCEEDED").

(* ---------------------------------------------------------------- *)
(** *** [clear_watch_history] *)

Definition clear_watch_history : M unit :=
  require_login ;;
  content <- _download_page_soup HISTORY_URL ;;
  ytcfg <- lift (find_ytcfg content) ;;
  headers <- lift (ytcfg_headers ytcfg) ;;
  let headers := dict_set "x-spf-previous" (JStr HISTORY_URL) headers in
  let headers := dict_set "x-spf-referer" (JStr HISTORY_URL) headers in
  init_data <- lift (initial_data content) ;;
  let params := [("name", JStr "feedbackEndpoint")] in
  let data :=
    rbind (walk init_data
             [K "contents"; K "twoColumnBrowseResultsRenderer";
              K "secondaryContents"; K "browseFeedActionsRenderer";
              K "contents"; At 2; K "buttonRenderer"; K "navigationEndpoint";
              K "confirmDialogEndpoint"; K "content";
              K "confirmDialogRenderer"; K "confirmButton";
              K "buttonRenderer"; K "serviceEndpoint"]) (fun sej =>
    rbind (getitem ytcfg (K "EVENT_ID")) (fun csn =>
    rbind (getitem ytcfg (K "XSRF_TOKEN")) (fun session_token =>
    Ok [("sej", JStr (json_dumps sej)); ("csn", csn);
        ("session_token", session_token)]))) in
  match data with
  | Err (KeyError _) =>
      log "debug" "Clear button is likely disabled. History is likely empty"
  | Err e => raise e
  | Ok data =>
      _download_page
        {| rq_url := SERVICE_AJAX_URL; rq_method := Some "post";
           rq_params := params; rq_headers := headers;
           rq_data := Some data; rq_json := None |} ;;
      log "info" "Successfully cleared history"
  end.

(* ---------------------------------------------------------------- *)
(** *** [get_playlist_info] *)

(** The block
    [try: endpoint = video_list_renderer['contents'][-1]
    ['continuationItemRenderer']['continuationEndpoint'];
    continuation = endpoint['continuationCommand']['token'];
    itct = endpoint['clickTrackingParams'] except KeyError: pass],
    which the method has twice, both times on [video_list_renderer]: before
    the loop and inside it.  [cur] is [(continuation, itct)] before the
    block, the result is the pair after it. *)
Definition read_continuation_endpoint
  (video_list_renderer : json) (cur : json * json) : result (json * json) :=
  match walk video_list_renderer
          [K "contents"; At (-1); K "continuationItemRenderer";
           K "continuationEndpoint"] with
  | Err (KeyError _) => Ok cur
  | Err e => Err e
  | Ok endpoint =>
      match walk endpoint [K "continuationCommand"; K "token"] with
      | Err (KeyError _) => Ok cur
      | Err e => Err e
      | Ok continuation =>
          match getitem endpoint (K "clickTrackingParams") with
          | Err (KeyError _) => Ok (continuation, snd cur)
          | Err e => Err e
          | Ok itct => Ok (continuation, itct)
          end
      end
  end.

(** The items of the page that came with the document. *)
Definition playlist_first_items
  (on_yield : json -> result unit) (video_list_renderer : json) : M unit :=
  try_except
    (contents <- lift (getitem video_list_renderer (K "contents")) ;;
     items <- lift (py_iter contents) ;;
     for_each items tt (fun item _ =>
       is_video <- lift (contains "playlistVideoRenderer" item) ;;
       if is_video then yield_ on_yield item ;; ret (Next tt)
       else
         is_cont <- lift (contains "continuationItemRenderer" item) ;;
         if is_cont then ret (Break tt) else ret (Next tt)))
    (fun e => match e with
              | KeyError _ => Some (ret tt)
              | _ => None
              end).

Definition playlist_request (headers : pydict) (continuation itct : json)
  : request :=
  {| rq_url := BROWSE_AJAX_URL; rq_method := None;
     rq_params := [("ctoken", continuation); ("continuation", continuation);
                   ("itct", itct)];
     rq_headers := headers; rq_data := None; rq_json := None |}.

(** One round of the [while True] loop; the loop's variables are
    [(continuation, itct)]. *)
Definition playlist_round
  (on_yield : json -> result unit) (headers : pydict)
  (video_list_renderer : json) (s : json * json) : M (ctl (json * json)) :=
  contents <- _download_page (playlist_request headers (fst s) (snd s)) ;;
  response <- lift (walk contents [At 1; K "response"]) ;;
  items <- lift (walk response
                   [K "onResponseReceivedActions"; At 0;
                    K "appendContinuationItemsAction";
                    K "continuationItems"]) ;;
  item_list <- lift (py_iter items) ;;
  s' <- for_each item_list s (fun item s =>
          is_video <- lift (contains "playlistVideoRenderer" item) ;;
          if is_video then yield_ on_yield item ;; ret (Next s)
          else
            is_cont <- lift (contains "continuationItemRenderer" item) ;;
            if is_cont then
              s' <- lift (read_continuation_endpoint video_list_renderer s) ;;
              ret (Break s')
            else ret (Next s)) ;;
  last <- lift (getitem items (At (-1))) ;;
  has_cont <- lift (contains "continuationItemRenderer" last) ;;
  if negb has_cont then ret (Break s') else ret (Next s').

Definition get_playlist_info (playlist_id : string) : generator :=
  fun fuel on_yield =>
  require_login ;;
  let url := "https://www.youtube.com/playlist?list=" ++ playlist_id in
  content <- _download_page_soup url ;;
  ytcfg <- lift (find_ytcfg content) ;;
  headers <- lift (ytcfg_headers ytcfg) ;;
  yt_init_data <- lift (initial_data content) ;;
  video_list_renderer <-
    try_except
      (lift (walk yt_init_data
               [K "contents"; K "twoColumnBrowseResultsRenderer"; K "tabs";
                At 0; K "tabRenderer"; K "content"; K "sectionListRenderer";
                K "contents"; At 0; K "itemSectionRenderer"; K "contents";
                At 0; K "playlistVideoListRenderer"]))
      (fun e => match e with
                | KeyError arg =>
                    Some (if eq_str arg "playlistVideoListRenderer"
                          then raise (KeyError
                                        (JStr "This playlist might be empty."))
                          else raise e)
                | _ => None
                end) ;;
  assert_not_none video_list_renderer ;;
  playlist_first_items on_yield video_list_renderer ;;
  s <- lift (read_continuation_endpoint video_list_renderer (JNull, JNull)) ;;
  if truthy (fst s) && truthy (snd s) then
    while_loop fuel (fun _ => true) s
      (playlist_round on_yield headers video_list_renderer) ;;
    ret tt
  else ret tt.

(* ---------------------------------------------------------------- *)
(** *** [clear_playlist], [clear_watch_later] *)

Definition video_id_of (x : json) : result json :=
  walk x [K "playlistVideoRenderer"; K "videoId"].

(** The values of [f] on the items, once each is known to have one. *)
Definition map_ok {B} (f : json -> result B) (items : list json) : list B :=
  flat_map (fun x => match f x with Ok v => [v] | Err _ => [] end) items.

Definition clear_playlist (fuel : nat) (playlist_id : string) : M unit :=
  require_login ;;
  let playlist_info := get_playlist_info playlist_id in
  r <- attempt (consume playlist_info fuel video_id_of) ;;
  match r with
  | Err (KeyError _) =>
      log "info" "Caught KeyError. This probably means the playlist is empty."
  | Err e => raise e
  | Ok items =>
      for_each (map_ok video_id_of items) tt (fun video_id _ =>
        log "debug" "Deleting from playlist: video_id = %s" ;;
        remove_video_id_from_playlist playlist_id video_id false ;;
        ret (Next tt))
  end.

Definition clear_watch_later (fuel : nat) : M unit :=
  clear_playlist fuel "WL".

(* ---------------------------------------------------------------- *)
(** *** [get_history_info] *)

(** [section_list['continuationItemRenderer']['continuationEndpoint']
    ['continuationCommand']['token']] and [... ['continuationEndpoint']
    ['clickTrackingParams']], in this order. *)
Definition continuation_of_item (section_list : json) : result (json * json) :=
  rbind (walk section_list
           [K "continuationItemRenderer"; K "continuationEndpoint";
            K "continuationCommand"; K "token"]) (fun token =>
  rbind (walk section_list
           [K "continuationItemRenderer"; K "continuationEndpoint";
            K "clickTrackingParams"]) (fun click_tracking_params =>
  Ok (token, click_tracking_params))).

Definition history_request (headers : pydict) (xsrf : json) (params : pydict)
  : request :=
  {| rq_url := BROWSE_AJAX_URL; rq_method := Some "post";
     rq_params := params; rq_headers := headers;
     rq_data := Some [("session_token", xsrf)]; rq_json := None |}.

(** The inner loop [while tries < 5]: the variables are [tries], [time],
    [last_exception] and [resp]; [left] bounds the rounds (five are
    enough).  It returns [last_exception] and [resp]. *)
Fixpoint history_fetch (left : nat) (rq : request) (tries time : Z)
  (last_exception : option exn) (resp : json) : M (option exn * json) :=
  if tries <? 5 then
    match left with
    | O => no_fuel
    | S left' =>
        (if negb (time =? 0) then sleep time else ret tt) ;;
        r <- attempt (_download_page rq) ;;
        match r with
        | Ok v => ret (last_exception, v)
        | Err (HTTPError status) =>
            history_fetch left' rq (tries + 1) (2 ^ (tries + 1))
              (Some (HTTPError status)) resp
        | Err e => raise e
        end
    end
  else ret (last_exception, resp).

(** The loop over the sections of the document's own page; the variable is
    [next_continuation]. *)
Definition history_first_sections
  (on_yield : json -> result unit) (sections : list json) : M json :=
  for_each sections JNull (fun section_list next_continuation =>
    match walk section_list [K "itemSectionRenderer"; K "contents"] with
    | Ok entries =>
        yield_from on_yield entries ;;
        ret (Next next_continuation)
    | Err (KeyError _) =>
        has_cont <- lift (contains "continuationItemRenderer" section_list) ;;
        if has_cont then
          '(token, click_tracking_params) <-
            lift (continuation_of_item section_list) ;;
          ret (Break (JDict [("continuation", token);
                             ("clickTrackingParams", click_tracking_params)]))
        else ret (Next next_continuation)
    | Err e => raise e
    end).

(** The loop over the sections of a continuation page; the variable is
    [continuations]. *)
Definition history_next_sections
  (on_yield : json -> result unit) (sections : list json) : M json :=
  for_each sections JNull (fun section_list continuations =>
    match walk section_list [K "itemSectionRenderer"; K "contents"] with
    | Ok entries =>
        yield_from on_yield entries ;;
        ret (Next continuations)
    | Err (KeyError arg) =>
        has_cont <- lift (contains "continuationItemRenderer" section_list) ;;
        if has_cont then
          '(token, click_tracking_params) <-
            lift (continuation_of_item section_list) ;;
          ret (Break (JList [JDict [("nextContinuationData", JDict
                  [("continuation", token);
                   ("clickTrackingParams", click_tracking_params)])]]))
        else raise (KeyError arg)
    | Err e => raise e
    end).

(** One round of the outer [while True] loop; the variables are [params],
    [xsrf] and [resp]. *)
Definition history_round
  (on_yield : json -> result unit) (headers : pydict)
  (s : pydict * json * json) : M (ctl (pydict * json * json)) :=
  let '(params, xsrf, resp0) := s in
  '(last_exception, resp) <-
    history_fetch 5 (history_request headers xsrf params) 0 0 None resp0 ;;
  match last_exception with
  | Some _ =>
      log "debug" "Caught HTTP error: %s, text: %s" ;;
      ret (Break (params, xsrf, resp))
  | None =>
      assert_not_none resp ;;
      contents <- lift (walk resp [At 1; K "response"]) ;;
      match walk contents [K "onResponseReceivedActions"; At 0;
                           K "appendContinuationItemsAction";
                           K "continuationItems"] with
      | Err (KeyError _) =>
          log "debug" "Caught KeyError: %s. Possible keys: %s" ;;
          ret (Break (params, xsrf, resp))
      | Err e => raise e
      | Ok section_list_renderer =>
          sections <- lift (py_iter section_list_renderer) ;;
          continuations <- history_next_sections on_yield sections ;;
          found <-
            (if negb (truthy continuations) then
               match getitem section_list_renderer (K "continuations") with
               | Ok c => ret (Some c)
               | Err (KeyError _) =>
                   log "debug" "Caught KeyError: %s. Possible keys: %s" ;;
                   ret None
               | Err TypeError =>
                   log "debug"
                     "Caught TypeError evaluating section_list_renderer['continuations']: %s" ;;
                   ret None
               | Err e => raise e
               end
             else ret (Some continuations)) ;;
          match found with
          | None => ret (Break (params, xsrf, resp))
          | Some continuations =>
              xsrf' <- lift (walk resp [At 1; K "xsrf_token"]) ;;
              assert_not_none continuations ;;
              next_cont <- lift (walk continuations
                                   [At 0; K "nextContinuationData"]) ;;
              itct <- lift (getitem next_cont (K "clickTrackingParams")) ;;
              ctoken <- lift (getitem next_cont (K "continuation")) ;;
              continuation <- lift (getitem next_cont (K "continuation")) ;;
              ret (Next (dict_set "continuation" continuation
                           (dict_set "ctoken" ctoken
                              (dict_set "itct" itct params)),
                         xsrf', resp))
          end
      end
  end.

Definition get_history_info : generator :=
  fun fuel on_yield =>
  require_login ;;
  content <- _download_page_soup HISTORY_URL ;;
  init_data <- lift (initial_data content) ;;
  ytcfg <- lift (find_ytcfg content) ;;
  headers <- lift (ytcfg_headers ytcfg) ;;
  section_list_renderer <-
    lift (walk init_data
            [K "contents"; K "twoColumnBrowseResultsRenderer"; K "tabs";
             At 0; K "tabRenderer"; K "content"; K "sectionListRenderer"]) ;;
  contents <- lift (getitem section_list_renderer (K "contents")) ;;
  sections <- lift (py_iter contents) ;;
  next_continuation <- history_first_sections on_yield sections ;;
  found <-
    (if negb (truthy next_continuation) then
       match walk section_list_renderer
               [K "continuations"; At 0; K "nextContinuationData"] with
       | Ok c => ret (Some c)
       | Err (KeyError _) => ret None
       | Err e => raise e
       end
     else ret (Some next_continuation)) ;;
  match found with
  | None => ret tt
  | Some next_continuation =>
      assert_not_none next_continuation ;;
      continuation <- lift (getitem next_continuation (K "continuation")) ;;
      ctoken <- lift (getitem next_continuation (K "continuation")) ;;
      itct <- lift (getitem next_continuation (K "clickTrackingParams")) ;;
      let params := [("continuation", continuation); ("ctoken", ctoken);
                     ("itct", itct)] in
      xsrf <- lift (getitem ytcfg (K "XSRF_TOKEN")) ;;
      while_loop fuel (fun _ => true) (params, xsrf, JNull)
        (history_round on_yield headers) ;;
      ret tt
  end.

(* ---------------------------------------------------------------- *)
(** *** [remove_video_ids_from_history] *)

(** [x['videoRenderer']['videoId'] in video_ids] *)
Definition in_video_ids (video_ids : list string) (x : json) : result bool :=
  rbind (walk x [K "videoRenderer"; K "videoId"]) (fun v =>
  Ok (existsb (eq_str v) video_ids)).

Definition selected (video_ids : list string) (x : json) : bool :=
  match in_video_ids video_ids x with
  | Ok true => true
  | _ => false
  end.

Definition deletion_request (headers : pydict) (sej csn session_token : json)
  : request :=
  {| rq_url := SERVICE_AJAX_URL; rq_method := Some "post";
     rq_params := [("name", JStr "feedbackEndpoint")];
     rq_headers := headers;
     rq_data := Some [("sej", JStr (json_dumps sej)); ("csn", csn);
                      ("session_token", session_token)];
     rq_json := None |}.

(** The body of [for entry in entries]; the variable is [codes]. *)
Definition delete_entry (ytcfg : json) (headers : pydict)
  (entry : json) (codes : list bool) : M (ctl (list bool)) :=
  sej <- lift (walk entry
                 [K "videoRenderer"; K "menu"; K "menuRenderer";
                  K "topLevelButtons"; At 0; K "buttonRenderer";
                  K "serviceEndpoint"]) ;;
  csn <- lift (getitem ytcfg (K "EVENT_ID")) ;;
  session_token <- lift (getitem ytcfg (K "XSRF_TOKEN")) ;;
  resp <- _download_page (deletion_request headers sej csn session_token) ;;
  code <- lift (getitem resp (K "code")) ;;
  ret (Next (codes ++ [eq_str code "SUCCESS"])%list).

Definition remove_video_ids_from_history
  (fuel : nat) (video_ids : list string) : M bool :=
  require_login ;;
  match video_ids with
  | [] => ret false
  | _ :: _ =>
      let history_info := get_history_info in
      content <- _download_page_soup HISTORY_URL ;;
      ytcfg <- lift (find_ytcfg content) ;;
      headers <- lift (ytcfg_headers ytcfg) ;;
      items <- consume history_info fuel (in_video_ids video_ids) ;;
      let entries := filter (selected video_ids) items in
      match entries with
      | [] => ret false
      | _ :: _ =>
          codes <- for_each entries [] (delete_entry ytcfg headers) ;;
          ret (forallb (fun c => c) codes)
      end
  end.

(* ---------------------------------------------------------------- *)
(** *** [_single_feedback_api_call], [_toggle_history] and the toggles *)

Definition _single_feedback_api_call
  (ytcfg feedback_token click_tracking_params api_url : json) : M json :=
  let url := "https://www.youtube.com" ++ format_str api_url in
  api_key <- lift (getitem ytcfg (K "INNERTUBE_API_KEY")) ;;
  authorization <- _authorization_sapisidhash_header ;;
  client_body <- lift (context_client_body ytcfg) ;;
  resp <- _download_page
    {| rq_url := url; rq_method := Some "post";
       rq_params := [("key", api_key)];
       rq_headers := [("Authority", JStr "www.youtube.com");
                      ("Authorization", JStr authorization);
                      ("x-goog-authuser", JStr "0");
                      ("x-origin", JStr "https://www.youtube.com")];
       rq_data := None;
       rq_json := Some (JDict
         [("context", JDict
             [("clickTracking",
               JDict [("clickTrackingParams", click_tracking_params)]);
              ("client", client_body);
              ("request", JDict [("consistencyTokenJars", JList []);
                                 ("internalExperimentFlags", JList [])]);
              ("user", JDict [("lockedSafetyMode", JBool false)])]);
          ("feedbackTokens", JList [feedback_token]);
          ("isFeedbackTokenUnencrypted", JBool false);
          ("shouldMerge", JBool false)]) |} ;;
  lift (walk resp [K "feedbackResponses"; At 0; K "isProcessed"]).

Definition _toggle_history (page_url : string) (contents_index : Z) : M json :=
  require_login ;;
  content <- _download_page_soup page_url ;;
  ytcfg <- lift (find_ytcfg content) ;;
  init_data <- lift (initial_data content) ;;
  info <- lift (at_path
    ("contents.twoColumnBrowseResultsRenderer."
     ++ "secondaryContents.browseFeedActionsRenderer.contents."
     ++ str_of_int contents_index ++ ".buttonRenderer.navigationEndpoint."
     ++ "confirmDialogEndpoint.content.confirmDialogRenderer."
     ++ "confirmEndpoint") init_data) ;;
  feedback_token <- lift (walk info [K "feedbackEndpoint"; K "feedbackToken"]) ;;
  click_tracking_params <- lift (getitem info (K "clickTrackingParams")) ;;
  api_url <- lift (walk info [K "commandMetadata"; K "webCommandMetadata";
                              K "apiUrl"]) ;;
  _single_feedback_api_call ytcfg feedback_token click_tracking_params api_url.

Definition toggle_search_history : M json :=
  _toggle_history SEARCH_HISTORY_URL 2.

Definition toggle_watch_history : M json :=
  _toggle_history WATCH_HISTORY_URL 3.

(* ---------------------------------------------------------------- *)
(** *** [_community_history], [community_history] *)

Definition delete_action_path : string :=
  "actionMenu.menuRenderer.items.0.menuNavigationItemRenderer."
  ++ "navigationEndpoint.confirmDialogEndpoint.content."
  ++ "confirmDialogRenderer.confirmButton.buttonRenderer."
  ++ "serviceEndpoint.performCommentActionEndpoint.action".

(** [for api_entry in (x['commentHistoryEntryRenderer'] for x in info):
    yield make_community_history_entry(api_entry, delete_action_path)] *)
Definition community_entries
  (on_yield : json -> result unit) (info : json) : M unit :=
  items <- lift (py_iter info) ;;
  for_each items tt (fun x _ =>
    api_entry <- lift (getitem x (K "commentHistoryEntryRenderer")) ;;
    entry <- lift (make_community_history_entry api_entry delete_action_path) ;;
    yield_ on_yield entry ;;
    ret (Next tt)).

Definition community_request (headers : pydict)
  (ctoken continuation itct session_token : json) : request :=
  {| rq_url := BROWSE_AJAX_URL; rq_method := Some "post";
     rq_params := [("ctoken", ctoken); ("continuation", continuation);
                   ("itct", itct)];
     rq_headers := headers;
     rq_data := Some [("session_token", session_token)];
     rq_json := None |}.

(** The body of [for cont in item_section['continuations']]; the variables
    are [item_section] and [has_continuations]. *)
Definition community_fetch
  (on_yield : json -> result unit) (ytcfg : json) (headers : pydict)
  (cont : json) (s : json * json) : M (ctl (json * json)) :=
  ctoken <- lift (walk cont [K "nextContinuationData"; K "continuation"]) ;;
  continuation <-
    lift (walk cont [K "nextContinuationData"; K "continuation"]) ;;
  itct <- lift (walk cont [K "nextContinuationData";
                           K "clickTrackingParams"]) ;;
  session_token <- lift (getitem ytcfg (K "XSRF_TOKEN")) ;;
  data <- _download_page
            (community_request headers ctoken continuation itct
               session_token) ;;
  item_section <- lift (walk data [At 1; K "response";
                                   K "continuationContents";
                                   K "itemSectionContinuation"]) ;;
  contents <- lift (getitem item_section (K "contents")) ;;
  community_entries on_yield contents ;;
  has <- lift (contains "continuations" item_section) ;;
  has_continuations <-
    (if has then lift (getitem item_section (K "continuations"))
     else ret (JBool false)) ;;
  ret (Next (item_section, has_continuations)).

(** One round of [while has_continuations]. *)
Definition community_round
  (on_yield : json -> result unit) (ytcfg : json) (headers : pydict)
  (s : json * json) : M (ctl (json * json)) :=
  continuations <- lift (getitem (fst s) (K "continuations")) ;;
  conts <- lift (py_iter continuations) ;;
  s' <- for_each conts s (community_fetch on_yield ytcfg headers) ;;
  ret (Next s').

Definition _community_history (only_first_page : bool) : generator :=
  fun fuel on_yield =>
  require_login ;;
  content <- _download_page_soup COMMUNITY_HISTORY_URL ;;
  ytcfg <- lift (find_ytcfg content) ;;
  headers <- lift (ytcfg_headers ytcfg) ;;
  let headers :=
    dict_set "x-spf-previous" (JStr COMMUNITY_HISTORY_URL) headers in
  let headers :=
    dict_set "x-spf-referer" (JStr COMMUNITY_HISTORY_URL) headers in
  init_data <- lift (initial_data content) ;;
  item_section <- lift (at_path
    ("contents.twoColumnBrowseResultsRenderer.tabs."
     ++ "0.tabRenderer.content.sectionListRenderer.contents.0."
     ++ "itemSectionRenderer") init_data) ;;
  info <- lift (getitem item_section (K "contents")) ;;
  community_entries on_yield info ;;
  done <-
    (if only_first_page then ret true
     else
       has <- lift (contains "continuations" item_section) ;;
       if negb has then ret true
       else
         continuations <- lift (getitem item_section (K "continuations")) ;;
         ret (negb (truthy continuations))) ;;
  if (done : bool) then ret tt
  else
    while_loop fuel (fun s => truthy (snd s)) (item_section, JBool true)
      (community_round on_yield ytcfg headers) ;;
    ret tt.

(** [yield from self._community_history(only_first_page)] *)
Definition community_history (only_first_page : bool) : generator :=
  fun fuel on_yield => _community_history only_first_page fuel on_yield.

(* ---------------------------------------------------------------- *)
(** *** [delete_community_entry], [clear_search_history] *)

Definition delete_community_entry (action : json) (api_url : string)
  (ytcfg : json) : M bool :=
  require_login ;;
  ytcfg <-
    (if negb (truthy ytcfg) then
       content <- _download_page_soup COMMUNITY_HISTORY_URL ;;
       lift (find_ytcfg content)
     else ret ytcfg) ;;
  api_key <- lift (getitem ytcfg (K "INNERTUBE_API_KEY")) ;;
  authorization <- _authorization_sapisidhash_header ;;
  client_body <- lift (context_client_body ytcfg) ;;
  delegated <- lift (getitem ytcfg (K "DELEGATED_SESSION_ID")) ;;
  resp <- _download_page
    {| rq_url := "https://www.youtube.com" ++ api_url;
       rq_method := Some "post";
       rq_params := [("key", api_key)];
       rq_headers := [("Authority", JStr "www.youtube.com");
                      ("Authorization", JStr authorization);
                      ("x-goog-authuser", JStr "0");
                      ("x-origin", JStr "https://www.youtube.com")];
       rq_data := None;
       rq_json := Some (JDict
         [("actions", JList [action]);
          ("context", JDict
             [("clickTracking",
               JDict [("clickTrackingParams", JStr EmptyString)]);
              ("client", client_body);
              ("request", JDict [("consistencyTokenJars", JList []);
                                 ("internalExperimentFlags", JList [])]);
              ("user", JDict [("onBehalfOfUser", delegated)])])]) |} ;;
  status <- lift (at_path "actionResults.0.status" resp) ;;
  ret (eq_str status "STATUS_SUCCEEDED").

Definition clear_search_history : M json :=
  require_login ;;
  content <- _download_page_soup SEARCH_HISTORY_URL ;;
  ytcfg <- lift (find_ytcfg content) ;;
  init_data <- lift (initial_data content) ;;
  feedback_token <- lift (at_path
    ("contents.twoColumnBrowseResultsRenderer."
     ++ "secondaryContents.browseFeedActionsRenderer."
     ++ "contents.1.buttonRenderer.navigationEndpoint."
     ++ "confirmDialogEndpoint.content.confirmDialogRenderer."
     ++ "confirmEndpoint.feedbackEndpoint.feedbackToken") init_data) ;;
  _single_feedback_api_call ytcfg feedback_token (JStr EmptyString)
    (JStr "/youtubei/v1/feedback").

(* ---------------------------------------------------------------- *)
(** *** The public interface *)

(** A call of a public method, with its arguments. *)
Inductive operation : Type :=
| OpLogin
| OpRemoveVideoIdFromPlaylist
    (playlist_id video_id : string) (cache_values : bool)
| OpClearWatchHistory
| OpGetPlaylistInfo (playlist_id : string)
| OpClearPlaylist (playlist_id : string)
| OpClearWatchLater
| OpGetHistoryInfo
| OpRemoveVideoIdsFromHistory (video_ids : list string)
| OpToggleSearchHistory
| OpToggleWatchHistory
| OpCommunityHistory (only_first_page : bool)
| OpDeleteCommunityEntry (action api_url : string) (ytcfg : json)
| OpClearSearchHistory.

(** What a call hands back: nothing, a value, or a generator object. *)
Inductive retval : Type :=
| RNone
| RBool (v : bool)
| RValue (v : json)
| RIter (g : generator).

(** The call itself.  [fuel] bounds the loops of the generators a method
    drains on its own. *)
Definition call (fuel : nat) (op : operation) : M retval :=
  match op with
  | OpLogin => login ;; ret RNone
  | OpRemoveVideoIdFromPlaylist playlist_id video_id cache_values =>
      v <- remove_video_id_from_playlist playlist_id (JStr video_id)
             cache_values ;;
      ret (RBool v)
  | OpClearWatchHistory => clear_watch_history ;; ret RNone
  | OpGetPlaylistInfo playlist_id => ret (RIter (get_playlist_info playlist_id))
  | OpClearPlaylist playlist_id => clear_playlist fuel playlist_id ;; ret RNone
  | OpClearWatchLater => clear_watch_later fuel ;; ret RNone
  | OpGetHistoryInfo => ret (RIter get_history_info)
  | OpRemoveVideoIdsFromHistory video_ids =>
      v <- remove_video_ids_from_history fuel video_ids ;;
      ret (RBool v)
  | OpToggleSearchHistory => v <- toggle_search_history ;; ret (RValue v)
  | OpToggleWatchHistory => v <- toggle_watch_history ;; ret (RValue v)
  | OpCommunityHistory only_first_page =>
      ret (RIter (community_history only_first_page))
  | OpDeleteCommunityEntry action api_url ytcfg =>
      v <- delete_community_entry (JStr action) api_url ytcfg ;;
      ret (RBool v)
  | OpClearSearchHistory => v <- clear_search_history ;; ret (RValue v)
  end.

(** The call, and the iteration of what it returned when that is a
    generator, by a consumer that does [on_yield] with each item. *)
Definition perform (fuel : nat) (on_yield : json -> result unit)
  (op : operation) : M unit :=
  v <- call fuel op ;;
  match v with
  | RIter g => g fuel on_yield
  | _ => ret tt
  end.

End Methods.

Definition is_generator_call (op : operation) : bool :=
  match op with
  | OpGetPlaylistInfo _ | OpGetHistoryInfo | OpCommunityHistory _ => true
  | _ => false
  end.


(* ================================================================== *)
(** ** Vocabulary of the statements *)

(** A cookie that [_authorization_sapisidhash_header] accepts as the
    session secret, by its name. *)
Definition named_sapisid (c : cookie) : bool :=
  is_sapisid_name (cookie_name c).

(** The jar holds [s] under one of the two names. *)
Definition holds_secret (jar : list cookie) (s : string) : Prop :=
  exists c, In c jar /\ named_sapisid c = true /\ cookie_value c = Some s.

(** [s] is the value of the first cookie of the jar, in iteration order,
    that has one of the two names. *)
Definition first_secret (jar : list cookie) (s : string) : Prop :=
  exists c, find named_sapisid jar = Some c /\ cookie_value c = Some s.

(** The events of a transcript that are exchanges with the site. *)
Definition is_request (ev : event) : bool :=
  match ev with
  | EvRequest _ _ => true
  | _ => false
  end.

Definition is_page (ev : event) : bool :=
  match ev with
  | EvPage _ _ => true
  | _ => false
  end.

(** The calls that are made to work from page data they already have:
    [remove_video_id_from_playlist] with [cache_values] on a filled cache,
    [delete_community_entry] with a [ytcfg] that counts as true. *)
Definition skips_page_fetch (op : operation) (st : client) : bool :=
  match op with
  | OpRemoveVideoIdFromPlaylist _ _ true =>
      match rsvi_cache st with
      | Some _ => true
      | None => false
      end
  | OpDeleteCommunityEntry _ _ ytcfg => truthy ytcfg
  | _ => false
  end.

(** The requests of a transcript, in order. *)
Definition requests_of (tr : list event) : list request :=
  flat_map (fun ev => match ev with EvRequest rq _ => [rq] | _ => [] end) tr.

Definition sleeps_of (tr : list event) : list Z :=
  flat_map (fun ev => match ev with EvSleep n => [n] | _ => [] end) tr.

(** What attempts at [rq] that got these replies look like in the
    transcript when a sleep of [2 ^ k] seconds comes before attempt number
    [k], for every attempt but attempt 0. *)
Fixpoint attempts_transcript (rq : request) (replies : list (result json))
  (attempt : Z) : list event :=
  match replies with
  | [] => []
  | r :: replies' =>
      ((if attempt =? 0 then [] else [EvSleep (2 ^ attempt)])
       ++ EvRequest rq r :: attempts_transcript rq replies' (attempt + 1))%list
  end.

(** The requests of a transcript that went to [service_ajax], each with
    its reply. *)
Definition service_posts (tr : list event) : list (request * result json) :=
  flat_map (fun ev =>
              match ev with
              | EvRequest rq reply =>
                  if String.eqb (rq_url rq) SERVICE_AJAX_URL
                  then [(rq, reply)] else []
              | _ => []
              end) tr.

(** The reply is an answer whose ['code'] is ['SUCCESS']. *)
Definition reply_success (reply : result json) : bool :=
  match reply with
  | Ok resp =>
      match getitem resp (K "code") with
      | Ok code => eq_str code "SUCCESS"
      | Err _ => false
      end
  | Err _ => false
  end.

(** Events that are not requests, or are requests to [browse_ajax]. *)
Definition browse_only (ev : event) : Prop :=
  match ev with
  | EvRequest rq _ => rq_url rq = BROWSE_AJAX_URL
  | _ => True
  end.

(** The calls whose every request carries the authorization header. *)
Definition signed_call (op : operation) : bool :=
  match op with
  | OpRemoveVideoIdFromPlaylist _ _ _ | OpToggleSearchHistory
  | OpToggleWatchHistory | OpDeleteCommunityEntry _ _ _
  | OpClearSearchHistory => true
  | _ => false
  end.

(** The calls that go through the retry loop of [get_history_info]. *)
Definition walks_history (op : operation) : bool :=
  match op with
  | OpGetHistoryInfo | OpRemoveVideoIdsFromHistory _ => true
  | _ => false
  end.

(** Events that are not requests, or are the request [rq0]. *)
Definition only_request (rq0 : request) (ev : event) : Prop :=
  match ev with
  | EvRequest rq _ => rq = rq0
  | _ => True
  end.

(** The loop variables a round hands on, whether the loop goes on or not. *)
Definition ctl_state {S} (c : ctl S) : S :=
  match c with
  | Next s => s
  | Break s => s
  end.

(** Events other than a sleep. *)
Definition no_sleep (ev : event) : Prop :=
  match ev with
  | EvSleep _ => False
  | _ => True
  end.

(** The answer to a continuation request of a playlist ends with an item
    that holds a 'continuationItemRenderer'. *)
Definition playlist_page_continues (page : json) : bool :=
  match rbind (walk page
                 [At 1; K "response"; K "onResponseReceivedActions"; At 0;
                  K "appendContinuationItemsAction"; K "continuationItems";
                  At (-1)])
          (contains "continuationItemRenderer") with
  | Ok true => true
  | _ => false
  end.

(** Request number [i] was answered, by a page that ends with such an
    item. *)
Definition playlist_continued (b : backend) (i : nat) : Prop :=
  exists page,
    json_reply b i = Ok page /\ playlist_page_continues page = true.

(** The answer to a continuation request of the history holds a
    continuation: one of its sections holds a 'continuationItemRenderer',
    or the list of the sections has a 'continuations' entry. *)
Definition history_page_continues (page : json) : bool :=
  match walk page
          [At 1; K "response"; K "onResponseReceivedActions"; At 0;
           K "appendContinuationItemsAction"; K "continuationItems"] with
  | Ok sections =>
      match py_iter sections with
      | Ok l =>
          existsb (fun section =>
                     match contains "continuationItemRenderer" section with
                     | Ok true => true
                     | _ => false
                     end) l
      | Err _ => false
      end
      || match getitem sections (K "continuations") with
         | Ok _ => true
         | Err _ => false
         end
  | Err _ => false
  end.

(** The section of the answer to a continuation request of the community
    history has a 'continuations' entry that is not empty. *)
Definition community_page_continues (page : json) : bool :=
  match walk page
          [At 1; K "response"; K "continuationContents";
           K "itemSectionContinuation"] with
  | Ok section =>
      match contains "continuations" section with
      | Ok true =>
          match getitem section (K "continuations") with
          | Ok c => truthy c
          | Err _ => false
          end
      | _ => false
      end
  | Err _ => false
  end.

(** Request number [j] was answered, by a page that holds no
    continuation. *)
Definition tokenless (continues : json -> bool) (b : backend) (j : nat)
  : Prop :=
  exists page, json_reply b j = Ok page /\ continues page = false.

(** A request that failed with an HTTP error. *)
Definition http_failure (ev : event) : bool :=
  match ev with
  | EvRequest _ (Err (HTTPError _)) => true
  | _ => false
  end.

(** What follows a failed request: waiting, the same request again, the
    debug log; no item goes to the consumer. *)
Definition retry_event (rq : request) (ev : event) : Prop :=
  match ev with
  | EvSleep _ => True
  | EvLog _ _ => True
  | EvRequest rq' _ => rq' = rq
  | _ => False
  end.

(** No request of the transcript failed with an HTTP error. *)
Definition unfailed (tr : list event) : Prop :=
  Forall (fun ev => http_failure ev = false) tr.

(** A request of the transcript failed with an HTTP error, and from the
    first one that did only retries follow. *)
Definition failed_once (tr : list event) : Prop :=
  exists tr1 rq c tr2,
    tr = (tr1 ++ EvRequest rq (Err (HTTPError c)) :: tr2)%list
    /\ unfailed tr1 /\ Forall (retry_event rq) tr2.

(** Events other than the fetch of a document. *)
Definition no_page (ev : event) : Prop := is_page ev = false.

(** The calls that neither list nor loop: one document and one request
    are all they need. *)
Definition single_exchange (op : operation) : bool :=
  match op with
  | OpClearWatchHistory => true
  | _ => signed_call op
  end.

(** Events other than the yield of an item that is not a video of a
    playlist. *)
Definition video_yield (ev : event) : Prop :=
  match ev with
  | EvYield x => contains "playlistVideoRenderer" x = Ok true
  | _ => True
  end.

(** What a request to the [edit_playlist] end point asks for: the playlist
    and the video to take out of it. *)
Definition removal_of (rq : request) : list (json * json) :=
  if String.eqb (rq_url rq)
       "https://www.youtube.com/youtubei/v1/browse/edit_playlist"
  then
    match rq_json rq with
    | Some body =>
        match getitem body (K "playlistId"),
              walk body [K "actions"; At 0; K "removedVideoId"] with
        | Ok p, Ok v => [(p, v)]
        | _, _ => []
        end
    | None => []
    end
  else [].

(** The removals a transcript asked for, in order. *)
Definition removals (tr : list event) : list (json * json) :=
  flat_map (fun ev => match ev with
                      | EvRequest rq _ => removal_of rq
                      | _ => []
                      end) tr.

(** The request that asks for the page a continuation of the community
    history names: a POST to [browse_ajax] with the token of the
    continuation as 'ctoken' and 'continuation', its click-tracking
    parameters as 'itct', and the XSRF token of the configuration as the
    session token. *)
Definition continuation_post (ytcfg : json) (headers : pydict) (cont : json)
  : option request :=
  match walk cont [K "nextContinuationData"; K "continuation"],
        walk cont [K "nextContinuationData"; K "clickTrackingParams"],
        getitem ytcfg (K "XSRF_TOKEN") with
  | Ok token, Ok itct, Ok session_token =>
      Some {| rq_url := "https://www.youtube.com/browse_ajax";
              rq_method := Some "post";
              rq_params := [("ctoken", token); ("continuation", token);
                            ("itct", itct)];
              rq_headers := headers;
              rq_data := Some [("session_token", session_token)];
              rq_json := None |}
  | _, _, _ => None
  end.

(** The request that asks for the removal of an entry from the history: a
    POST to [service_ajax], named 'feedbackEndpoint', that carries the
    service end point of the first button of the entry's menu and the event
    id and XSRF token of the configuration. *)
Definition deletion_post {H : Helpers} (ytcfg : json) (headers : pydict)
  (entry : json) : option request :=
  match walk entry [K "videoRenderer"; K "menu"; K "menuRenderer";
                    K "topLevelButtons"; At 0; K "buttonRenderer";
                    K "serviceEndpoint"],
        getitem ytcfg (K "EVENT_ID"),
        getitem ytcfg (K "XSRF_TOKEN") with
  | Ok sej, Ok csn, Ok session_token =>
      Some {| rq_url := "https://www.youtube.com/service_ajax";
              rq_method := Some "post";
              rq_params := [("name", JStr "feedbackEndpoint")];
              rq_headers := headers;
              rq_data := Some [("sej", JStr (json_dumps sej)); ("csn", csn);
                               ("session_token", session_token)];
              rq_json := None |}
  | _, _, _ => None
  end.

(** The one call that is made to keep page data on the client. *)
Definition stores_page_data (op : operation) : bool :=
  match op with
  | OpRemoveVideoIdFromPlaylist _ _ true => true
  | _ => false
  end.

(** The client with another cache in the place of its own. *)
Definition with_cache (c : option cache) (st : client) : client :=
  {| logged_in := logged_in st; cj := cj st; rsvi_cache := c;
     sent := sent st; transcript := transcript st |}.

(** The hard-coded key path that a call walks into the initial data of
    the document it has fetched; [remove_video_id_from_playlist] and
    [delete_community_entry] read no initial data. *)
Definition toggle_path (contents_index : Z) : string :=
  "contents.twoColumnBrowseResultsRenderer."
  ++ "secondaryContents.browseFeedActionsRenderer.contents."
  ++ str_of_int contents_index ++ ".buttonRenderer.navigationEndpoint."
  ++ "confirmDialogEndpoint.content.confirmDialogRenderer."
  ++ "confirmEndpoint".

Definition playlist_path : list key :=
  [K "contents"; K "twoColumnBrowseResultsRenderer"; K "tabs"; At 0;
   K "tabRenderer"; K "content"; K "sectionListRenderer"; K "contents";
   At 0; K "itemSectionRenderer"; K "contents"; At 0;
   K "playlistVideoListRenderer"].

Definition history_path : list key :=
  [K "contents"; K "twoColumnBrowseResultsRenderer"; K "tabs"; At 0;
   K "tabRenderer"; K "content"; K "sectionListRenderer"].

Definition clear_button_path : list key :=
  [K "contents"; K "twoColumnBrowseResultsRenderer"; K "secondaryContents";
   K "browseFeedActionsRenderer"; K "contents"; At 2; K "buttonRenderer";
   K "navigationEndpoint"; K "confirmDialogEndpoint"; K "content";
   K "confirmDialogRenderer"; K "confirmButton"; K "buttonRenderer";
   K "serviceEndpoint"].

Definition key_path {H : Helpers} (op : operation)
  : option (json -> result json) :=
  match op with
  | OpLogin => None
  | OpRemoveVideoIdFromPlaylist _ _ _ => None
  | OpDeleteCommunityEntry _ _ _ => None
  | OpClearWatchHistory => Some (fun data => walk data clear_button_path)
  | OpGetPlaylistInfo _ | OpClearPlaylist _ | OpClearWatchLater =>
      Some (fun data => walk data playlist_path)
  | OpGetHistoryInfo | OpRemoveVideoIdsFromHistory _ =>
      Some (fun data => walk data history_path)
  | OpToggleSearchHistory => Some (at_path (toggle_path 2))
  | OpToggleWatchHistory => Some (at_path (toggle_path 3))
  | OpCommunityHistory _ =>
      Some (at_path
              ("contents.twoColumnBrowseResultsRenderer.tabs."
               ++ "0.tabRenderer.content.sectionListRenderer.contents.0."
               ++ "itemSectionRenderer"))
  | OpClearSearchHistory =>
      Some (at_path
              ("contents.twoColumnBrowseResultsRenderer."
               ++ "secondaryContents.browseFeedActionsRenderer."
               ++ "contents.1.buttonRenderer.navigationEndpoint."
               ++ "confirmDialogEndpoint.content.confirmDialogRenderer."
               ++ "confirmEndpoint.feedbackEndpoint.feedbackToken"))
  end.

(** The configuration was extracted from the page and, when a key path
    goes with it, so was the initial data, and the path was walked into
    it. *)
Definition harvested_with {H : Helpers}
  (path : option (json -> result json)) (page : soup) : Prop :=
  (exists ytcfg, find_ytcfg page = Ok ytcfg)
  /\ match path with
     | None => True
     | Some walk_path =>
         exists data v, initial_data page = Ok data /\ walk_path data = Ok v
     end.

Definition harvested {H : Helpers} (op : operation) (page : soup) : Prop :=
  harvested_with (key_path op) page.

(** What a call added to the transcript. *)
Definition added (st st' : client) : list event :=
  skipn (length (transcript st)) (transcript st').

(* ================================================================== *)
(** ** Sample data *)

Module Demo.

Definition obj (k : string) (v : json) : json := JDict [(k, v)].

Fixpoint nest (path : list string) (v : json) : json :=
  match path with
  | [] => v
  | k :: path' => obj k (nest path' v)
  end.

Definition ytcfg : json :=
  JDict [("XSRF_TOKEN", JStr "xsrf-0"); ("EVENT_ID", JStr "event-0");
         ("INNERTUBE_API_KEY", JStr "key-0");
         ("DELEGATED_SESSION_ID", JStr "delegate-0")].

Definition playlist_video (id : string) : json :=
  nest ["playlistVideoRenderer"; "videoId"] (JStr id).

Definition continuation_item (token : string) : json :=
  nest ["continuationItemRenderer"; "continuationEndpoint"]
    (JDict [("continuationCommand", obj "token" (JStr token));
            ("clickTrackingParams", JStr ("click-" ++ token))]).

(** The initial data of a playlist document with these items. *)
Definition playlist_document (items : list json) : json :=
  nest ["contents"; "twoColumnBrowseResultsRenderer"; "tabs"] (JList [
    nest ["tabRenderer"; "content"; "sectionListRenderer"; "contents"] (JList [
      nest ["itemSectionRenderer"; "contents"] (JList [
        nest ["playlistVideoListRenderer"; "contents"] (JList items)])])]).

(** A [browse_ajax] answer that appends these items. *)
Definition continuation_page (items : list json) : json :=
  JList [JNull;
         JDict [("response",
                 nest ["onResponseReceivedActions"] (JList [
                   nest ["appendContinuationItemsAction"; "continuationItems"]
                     (JList items)]));
                ("xsrf_token", JStr "xsrf-1")]].

Definition history_video (id : string) : json :=
  nest ["videoRenderer"]
    (JDict [("videoId", JStr id);
            ("menu", nest ["menuRenderer"; "topLevelButtons"] (JList [
               nest ["buttonRenderer"; "serviceEndpoint"]
                 (obj "feedbackToken" (JStr ("remove-" ++ id)))]))]).

Definition history_section (videos : list json) : json :=
  nest ["itemSectionRenderer"; "contents"] (JList videos).

(** The initial data of the history document with these sections. *)
Definition history_document (sections : list json) : json :=
  nest ["contents"; "twoColumnBrowseResultsRenderer"; "tabs"] (JList [
    nest ["tabRenderer"; "content"; "sectionListRenderer"; "contents"]
      (JList sections)]).

Definition next_continuation (token : string) : json :=
  nest ["nextContinuationData"]
    (JDict [("continuation", JStr token);
            ("clickTrackingParams", JStr ("click-" ++ token))]).

Definition comment (id : string) : json :=
  nest ["commentHistoryEntryRenderer"; "id"] (JStr id).

(** The item section of a community page: comments and the continuations
    that follow. *)
Definition community_section (comments conts : list json) : json :=
  JDict [("contents", JList comments); ("continuations", JList conts)].

Definition community_page (comments conts : list json) : json :=
  JList [JNull;
         nest ["response"; "continuationContents"; "itemSectionContinuation"]
           (community_section comments conts)].

(** Helpers that read a document by its text: the configuration is the
    same everywhere, the initial data is the one of the document named. *)
#[local] Instance helpers : Helpers := {|
  find_ytcfg := fun _ => Ok ytcfg;
  ytcfg_headers := fun _ => Ok [("x-youtube-client-name", JStr "1")];
  initial_data := fun page =>
    if String.eqb page "playlist" then
      Ok (playlist_document [playlist_video "v1"; continuation_item "T0"])
    else if String.eqb page "history" then
      Ok (history_document [history_section [history_video "h1"];
                            continuation_item "H0"])
    else if String.eqb page "community" then
      Ok (community_section [comment "c0"]
            [next_continuation "C1"; next_continuation "C2"])
    else Ok (JDict []);
  at_path := fun path v =>
    if String.prefix "contents." path then Ok v
    else if String.eqb path "status" then getitem v (K "status")
    else walk v [K "actionResults"; At 0; K "status"];
  context_client_body := fun _ => Ok (JDict [("clientName", JStr "WEB")]);
  make_community_history_entry := fun entry _ => Ok entry;
  json_dumps := fun _ => "{...}";
  format_str := fun v => match v with JStr s => s | _ => "?" end;
  COMMUNITY_HISTORY_URL := "https://www.youtube.com/feed/history/community";
  SEARCH_HISTORY_URL := "https://www.youtube.com/feed/history/search_history";
  WATCH_HISTORY_URL := "https://www.youtube.com/feed/history/watch_history"
|}.

(** The same helpers on a site whose documents hold no initial data. *)
Definition blobless : Helpers := {|
  find_ytcfg := fun _ => Ok ytcfg;
  ytcfg_headers := fun _ => Ok [("x-youtube-client-name", JStr "1")];
  initial_data := fun _ => Err (KeyError (JStr "ytInitialData"));
  at_path := fun path v =>
    if String.prefix "contents." path then Ok v
    else if String.eqb path "status" then getitem v (K "status")
    else walk v [K "actionResults"; At 0; K "status"];
  context_client_body := fun _ => Ok (JDict [("clientName", JStr "WEB")]);
  make_community_history_entry := fun entry _ => Ok entry;
  json_dumps := fun _ => "{...}";
  format_str := fun v => match v with JStr s => s | _ => "?" end;
  COMMUNITY_HISTORY_URL := "https://www.youtube.com/feed/history/community";
  SEARCH_HISTORY_URL := "https://www.youtube.com/feed/history/search_history";
  WATCH_HISTORY_URL := "https://www.youtube.com/feed/history/watch_history"
|}.

Definition session_cookie : cookie :=
  {| cookie_name := "SAPISID"; cookie_value := Some "secret" |}.

(** A site that answers every request. *)
Definition site (document : soup) (answers : nat -> result json) : backend :=
  {| page_reply := fun _ => Ok document;
     json_reply := answers;
     login_reply := fun _ => Ok [session_cookie];
     clock := fun _ => 1700000000 |}.

Definition quiet : backend :=
  site "other" (fun _ => Ok (JDict [("status", JStr "STATUS_SUCCEEDED")])).

(** A playlist whose document page and first continuation page both end
    with a continuation item, with tokens T0 and T1. *)
Definition playlist_page_1 : json :=
  continuation_page [playlist_video "v2"; continuation_item "T1"].

Definition playlist_page_2 : json :=
  continuation_page [playlist_video "v3"].

Definition playlist_site : backend :=
  site "playlist" (fun n =>
    match n with
    | 1%nat => Ok playlist_page_1
    | _ => Ok playlist_page_2
    end).

(** A history of three entries on two pages, on a site that answers every
    deletion with SUCCESS. *)
Definition history_site : backend :=
  site "history" (fun n =>
    match n with
    | 2%nat =>
        Ok (continuation_page
              [history_section [history_video "h2"; history_video "h1"]])
    | _ => Ok (JDict [("code", JStr "SUCCESS")])
    end).

(** A site that answers the first [n] requests and fails from then on. *)
Definition down_after (n : nat) : backend :=
  {| page_reply := fun k =>
       if (k <? n)%nat then Ok "other" else Err (HTTPError 503);
     json_reply := fun k =>
       if (k <? n)%nat then Ok (JDict []) else Err (HTTPError 503);
     login_reply := fun _ => Ok [session_cookie];
     clock := fun _ => 1700000000 |}.

(** A history whose continuation requests all fail. *)
Definition failing_history_site : backend :=
  site "history" (fun _ => Err (HTTPError 503)).

(** A history whose first continuation request fails once and is then
    answered, with a page of one entry. *)
Definition retried_history_site : backend :=
  site "history" (fun n =>
    match n with
    | 1%nat => Err (HTTPError 503)
    | _ => Ok (continuation_page [history_section [history_video "h2"]])
    end).

(** A community history whose document lists two continuations; every
    continuation request is answered by a page that lists none. *)
Definition community_site : backend :=
  site "community" (fun _ => Ok (community_page [comment "c1"] [])).

(** The playlist of [playlist_site], on a site that answers every request
    after the listing with a success. *)
Definition clearable_site : backend :=
  site "playlist" (fun n =>
    match n with
    | 1%nat => Ok playlist_page_1
    | 2%nat => Ok playlist_page_2
    | _ => Ok (JDict [("status", JStr "STATUS_SUCCEEDED")])
    end).

Definition logged_in_client : client := init [session_cookie] true.
(** A client that has kept the data of a document it fetched earlier. *)
Definition cached_client : client :=
  {| logged_in := true; cj := [session_cookie];
     rsvi_cache := Some {| cache_soup := "other"; cache_ytcfg := ytcfg;
                           cache_headers := [] |};
     sent := 0; transcript := [] |}.

Definition logged_out_client : client := init [session_cookie] false.

(** A jar with two secrets, and one whose only candidate has no value. *)
Definition two_secrets : list cookie :=
  [ {| cookie_name := "SAPISID"; cookie_value := Some "a" |};
    {| cookie_name := "__Secure-3PAPISID"; cookie_value := Some "b" |} ].

Definition valueless : list cookie :=
  [ {| cookie_name := "SAPISID"; cookie_value := None |} ].

End Demo.
(* ================================================================== *)
(** ** Reasoning about runs *)

Definition run_state {A} (m : M A) (st : client) : client := snd (m st).
Definition run_outcome {A} (m : M A) (st : client) : outcome A := fst (m st).

Lemma bind_done {A B} (m : M A) (k : A -> M B) st a st1 :
  m st = (Done a, st1) -> bind m k st = k a st1.
Proof. intros E. unfold bind. rewrite E. reflexivity. Qed.

Lemma bind_raised {A B} (m : M A) (k : A -> M B) st e st1 :
  m st = (Raised e, st1) -> bind m k st = (Raised e, st1).
Proof. intros E. unfold bind. rewrite E. reflexivity. Qed.

Lemma bind_stopped {A B} (m : M A) (k : A -> M B) st e st1 :
  m st = (Stopped e, st1) -> bind m k st = (Stopped e, st1).
Proof. intros E. unfold bind. rewrite E. reflexivity. Qed.

Lemma bind_no_fuel {A B} (m : M A) (k : A -> M B) st st1 :
  m st = (NoFuel, st1) -> bind m k st = (NoFuel, st1).
Proof. intros E. unfold bind. rewrite E. reflexivity. Qed.

(** *** Relations between the state before and the state after

    [respects R m]: whatever way [m] ends, the state it leaves is related by
    [R] to the state it started from.  For a reflexive and transitive [R]
    this goes through every way the methods are put together; what [R] has
    to allow is what the primitive steps [m] is made of do. *)
Section Respects.

Variable R : client -> client -> Prop.
Hypothesis R_refl : forall st, R st st.
Hypothesis R_trans : forall st1 st2 st3, R st1 st2 -> R st2 st3 -> R st1 st3.

Definition respects {A} (m : M A) : Prop :=
  forall st, R st (run_state m st).

Lemma respects_ret {A} (a : A) : respects (ret a).
Proof. intros st. apply R_refl. Qed.

Lemma respects_raise {A} (e : exn) : respects (@raise A e).
Proof. intros st. apply R_refl. Qed.

Lemma respects_stop {A} (e : exn) : respects (@stop A e).
Proof. intros st. apply R_refl. Qed.

Lemma respects_no_fuel {A} : respects (@no_fuel A).
Proof. intros st. apply R_refl. Qed.

Lemma respects_get_client : respects get_client.
Proof. intros st. apply R_refl. Qed.

Lemma respects_lift {A} (r : result A) : respects (lift r).
Proof. destruct r; [apply respects_ret | apply respects_raise]. Qed.

Lemma respects_bind {A B} (m : M A) (k : A -> M B) :
  respects m -> (forall a, respects (k a)) -> respects (bind m k).
Proof.
  intros Hm Hk st. unfold run_state, bind.
  specialize (Hm st). unfold run_state in Hm.
  destruct (m st) as [[a | e | e | ] st1]; simpl in *; auto.
  eapply R_trans; [exact Hm | apply Hk].
Qed.

Lemma respects_try_except {A} (m : M A) (h : exn -> option (M A)) :
  respects m -> (forall e m', h e = Some m' -> respects m') ->
  respects (try_except m h).
Proof.
  intros Hm Hh st. unfold run_state, try_except.
  specialize (Hm st). unfold run_state in Hm.
  destruct (m st) as [[a | e | e | ] st1]; simpl in *; auto.
  destruct (h e) as [m' | ] eqn:E; simpl; auto.
  eapply R_trans; [exact Hm | eapply Hh; eauto].
Qed.

Lemma respects_attempt {A} (m : M A) : respects m -> respects (attempt m).
Proof.
  intros Hm st. unfold run_state, attempt.
  specialize (Hm st). unfold run_state in Hm.
  destruct (m st) as [[a | e | e | ] st1]; simpl in *; auto.
Qed.

Lemma respects_consume {B} (g : generator) fuel (check : json -> result B) :
  (forall on_yield, respects (g fuel on_yield)) ->
  respects (consume g fuel check).
Proof.
  intros Hg st. unfold run_state, consume.
  specialize (Hg (fun x => rbind (check x) (fun _ => Ok tt)) st).
  unfold run_state in Hg.
  destruct (g fuel _ st) as [[a | e | e | ] st1]; simpl in *; auto.
Qed.

Lemma respects_for_each {S} (l : list json) (body : json -> S -> M (ctl S)) :
  (forall x s, respects (body x s)) -> forall s, respects (for_each l s body).
Proof.
  intros Hb. induction l as [ | x l IH]; intros s; simpl.
  - apply respects_ret.
  - apply respects_bind; [apply Hb | ].
    intros [s' | s']; [apply IH | apply respects_ret].
Qed.

Lemma respects_while_loop {S} (cond : S -> bool) (body : S -> M (ctl S)) :
  (forall s, respects (body s)) ->
  forall fuel s, respects (while_loop fuel cond s body).
Proof.
  intros Hb. induction fuel as [ | fuel IH]; intros s; simpl.
  - destruct (cond s); [apply respects_no_fuel | apply respects_ret].
  - destruct (cond s); [ | apply respects_ret].
    apply respects_bind; [apply Hb | ].
    intros [s' | s']; [apply IH | apply respects_ret].
Qed.

Lemma respects_require_login : respects require_login.
Proof.
  unfold require_login. apply respects_bind; [apply respects_get_client | ].
  intros st. destruct (logged_in st); [apply respects_ret | apply respects_raise].
Qed.

Lemma respects_assert_not_none v : respects (assert_not_none v).
Proof.
  unfold assert_not_none.
  destruct (is_none v); [apply respects_raise | apply respects_ret].
Qed.

End Respects.

(** Side conditions are facts about the relation at hand: assumptions of
    the section below, or hints of the database [frame] for the relations
    defined later. *)
Create HintDb frame.

Ltac side := solve [eauto with frame].

Ltac resp_with tac :=
  repeat first
    [ assumption
    | match goal with
      | |- forall e m', _ = Some m' -> respects _ m' =>
          let e := fresh "e" in
          let E := fresh "E" in
          intros e ? E; destruct e; simpl in E; try discriminate E;
          injection E as <-
      end
    | progress intros
    | tac
    | lazymatch goal with
      | |- respects _ (ret _) => eapply respects_ret; side
      | |- respects _ (raise _) => eapply respects_raise; side
      | |- respects _ (stop _) => eapply respects_stop; side
      | |- respects _ no_fuel => eapply respects_no_fuel; side
      | |- respects _ get_client => eapply respects_get_client; side
      | |- respects _ (lift _) => eapply respects_lift; side
      | |- respects _ require_login => eapply respects_require_login; side
      | |- respects _ (assert_not_none _) =>
          eapply respects_assert_not_none; side
      | |- respects _ (bind _ _) => eapply respects_bind; [side | | ]
      | |- respects _ (try_except _ _) =>
          eapply respects_try_except; [side | | ]
      | |- respects _ (attempt _) => eapply respects_attempt
      | |- respects _ (for_each _ _ _) =>
          eapply respects_for_each; [side | side | ]
      | |- respects _ (while_loop _ _ _ _) =>
          eapply respects_while_loop; [side | side | ]
      | |- respects _ (consume _ _ _) => eapply respects_consume
      | |- respects _ (match ?x with _ => _ end) => destruct x
      end ].

Ltac resp := resp_with fail.

(** The same for the methods.  [ok] says which events the relation lets a
    method add to the transcript; each lemma below depends on the
    assumptions about the steps its method really takes, and on no
    other. *)
Section MethodsRespect.

Context {H : Helpers} (b : backend).

Variable R : client -> client -> Prop.
Hypothesis R_refl : forall st, R st st.
Hypothesis R_trans : forall st1 st2 st3, R st1 st2 -> R st2 st3 -> R st1 st3.

Variable ok : event -> Prop.
Hypothesis R_record : forall ev, ok ev -> respects R (record ev).
Hypothesis R_count : respects R count_request.
Hypothesis ok_page : forall url r, ok (EvPage url r).
Hypothesis ok_yield : forall x, ok (EvYield x).
Hypothesis ok_sleep : forall n, ok (EvSleep n).
Hypothesis ok_log : forall l m, ok (EvLog l m).
Hypothesis ok_browse :
  forall rq r, rq_url rq = BROWSE_AJAX_URL -> ok (EvRequest rq r).
Hypothesis ok_request : forall rq r, ok (EvRequest rq r).

Lemma respects_log level message : respects R (log level message).
Proof. apply R_record, ok_log. Qed.

Lemma respects_sleep n : respects R (sleep n).
Proof. apply R_record, ok_sleep. Qed.

Lemma respects_yield on_yield x : respects R (yield_ on_yield x).
Proof.
  unfold yield_. apply respects_bind; [assumption | apply R_record, ok_yield | ].
  intros _. destruct (on_yield x); resp.
Qed.

Lemma respects_yield_from on_yield v : respects R (yield_from on_yield v).
Proof. unfold yield_from. resp_with ltac:(apply respects_yield). Qed.

Lemma respects_download_page_soup url : respects R (_download_page_soup b url).
Proof.
  unfold _download_page_soup. resp_with ltac:(apply R_record, ok_page).
Qed.

Lemma respects_browse rq :
  rq_url rq = BROWSE_AJAX_URL -> respects R (_download_page b rq).
Proof.
  intros E. unfold _download_page.
  resp_with ltac:(apply R_record, ok_browse, E).
Qed.

Lemma respects_download_page rq : respects R (_download_page b rq).
Proof.
  unfold _download_page. resp_with ltac:(apply R_record, ok_request).
Qed.

Lemma respects_now : respects R (now b).
Proof. unfold now. resp. Qed.

Lemma respects_authorization :
  respects R (_authorization_sapisidhash_header b).
Proof.
  unfold _authorization_sapisidhash_header.
  resp_with ltac:(apply respects_now).
Qed.

Ltac gen_step :=
  idtac;
  lazymatch goal with
  | |- respects _ (yield_ _ _) => apply respects_yield
  | |- respects _ (yield_from _ _) => apply respects_yield_from
  | |- respects _ (_download_page_soup _ _) =>
      apply respects_download_page_soup
  | |- respects _ (_download_page _ _) => apply respects_browse; reflexivity
  | |- respects _ (log _ _) => apply respects_log
  | |- respects _ (sleep _) => apply respects_sleep
  end.

Lemma respects_playlist_first_items on_yield vlr :
  respects R (playlist_first_items on_yield vlr).
Proof. unfold playlist_first_items. resp_with gen_step. Qed.

Lemma respects_playlist_round on_yield headers vlr s :
  respects R (playlist_round b on_yield headers vlr s).
Proof. unfold playlist_round. resp_with gen_step. Qed.

Lemma respects_get_playlist_info playlist_id fuel on_yield :
  respects R (get_playlist_info b playlist_id fuel on_yield).
Proof.
  unfold get_playlist_info.
  resp_with ltac:(first [ gen_step | apply respects_playlist_first_items
                        | apply respects_playlist_round ]).
Qed.

Lemma respects_history_fetch left rq tries time last resp :
  rq_url rq = BROWSE_AJAX_URL ->
  respects R (history_fetch b left rq tries time last resp).
Proof.
  intros E. revert tries time last resp.
  induction left as [ | left IH]; intros tries time last resp; simpl.
  - destruct (tries <? 5); resp.
  - destruct (tries <? 5); [ | resp].
    resp_with ltac:(first [ apply respects_sleep | apply respects_browse, E
                          | apply IH ]).
Qed.

Lemma respects_history_first_sections on_yield sections :
  respects R (history_first_sections on_yield sections).
Proof. unfold history_first_sections. resp_with gen_step. Qed.

Lemma respects_history_next_sections on_yield sections :
  respects R (history_next_sections on_yield sections).
Proof. unfold history_next_sections. resp_with gen_step. Qed.

Lemma respects_history_round on_yield headers s :
  respects R (history_round b on_yield headers s).
Proof.
  unfold history_round. destruct s as [[params xsrf] resp0].
  resp_with ltac:(first [ gen_step
                        | apply respects_history_fetch; reflexivity
                        | apply respects_history_next_sections ]).
Qed.

Lemma respects_get_history_info fuel on_yield :
  respects R (get_history_info b fuel on_yield).
Proof.
  unfold get_history_info.
  resp_with ltac:(first [ gen_step | apply respects_history_first_sections
                        | apply respects_history_round ]).
Qed.

Lemma respects_community_entries on_yield info :
  respects R (community_entries on_yield info).
Proof. unfold community_entries. resp_with gen_step. Qed.

Lemma respects_community_fetch on_yield ytcfg headers cont s :
  respects R (community_fetch b on_yield ytcfg headers cont s).
Proof.
  unfold community_fetch.
  resp_with ltac:(first [ gen_step | apply respects_community_entries ]).
Qed.

Lemma respects_community_round on_yield ytcfg headers s :
  respects R (community_round b on_yield ytcfg headers s).
Proof.
  unfold community_round.
  resp_with ltac:(first [ gen_step | apply respects_community_fetch ]).
Qed.

Lemma respects_community_history only_first_page fuel on_yield :
  respects R (_community_history b only_first_page fuel on_yield).
Proof.
  unfold _community_history.
  resp_with ltac:(first [ gen_step | apply respects_community_entries
                        | apply respects_community_round ]).
Qed.

Ltac any_step :=
  idtac;
  lazymatch goal with
  | |- respects _ (_download_page _ _) => apply respects_download_page
  | |- respects _ (_authorization_sapisidhash_header _) =>
      apply respects_authorization
  | |- _ => gen_step
  end.

Lemma respects_remove_video_id_from_playlist playlist_id video_id :
  respects R (remove_video_id_from_playlist b playlist_id video_id false).
Proof. unfold remove_video_id_from_playlist. resp_with any_step. Qed.

Lemma respects_clear_watch_history : respects R (clear_watch_history b).
Proof. unfold clear_watch_history. resp_with any_step. Qed.

Lemma respects_clear_playlist fuel playlist_id :
  respects R (clear_playlist b fuel playlist_id).
Proof.
  unfold clear_playlist.
  resp_with ltac:(first [ any_step | apply respects_get_playlist_info
                        | apply respects_remove_video_id_from_playlist ]).
Qed.

Lemma respects_delete_entry ytcfg headers entry codes :
  respects R (delete_entry b ytcfg headers entry codes).
Proof. unfold delete_entry. resp_with any_step. Qed.

Lemma respects_remove_video_ids_from_history fuel video_ids :
  respects R (remove_video_ids_from_history b fuel video_ids).
Proof.
  unfold remove_video_ids_from_history.
  resp_with ltac:(first [ any_step | apply respects_get_history_info
                        | apply respects_delete_entry ]).
Qed.

Lemma respects_single_feedback_api_call ytcfg token ctp api_url :
  respects R (_single_feedback_api_call b ytcfg token ctp api_url).
Proof. unfold _single_feedback_api_call. resp_with any_step. Qed.

Lemma respects_toggle_history page_url contents_index :
  respects R (_toggle_history b page_url contents_index).
Proof.
  unfold _toggle_history.
  resp_with ltac:(first [ any_step
                        | apply respects_single_feedback_api_call ]).
Qed.

Lemma respects_delete_community_entry action api_url ytcfg :
  respects R (delete_community_entry b action api_url ytcfg).
Proof. unfold delete_community_entry. resp_with any_step. Qed.

Lemma respects_clear_search_history : respects R (clear_search_history b).
Proof.
  unfold clear_search_history.
  resp_with ltac:(first [ any_step
                        | apply respects_single_feedback_api_call ]).
Qed.

End MethodsRespect.

(** The steps of the methods, for a relation whose facts are hints. *)
(** *** The relations used below *)

Definition any_event (ev : event) : Prop := True.

(** The cache is what it was. *)
Definition same_cache (st st' : client) : Prop :=
  rsvi_cache st' = rsvi_cache st.

(** The transcript only grows, and by events that satisfy [P]. *)
Definition extends (P : event -> Prop) (st st' : client) : Prop :=
  exists tr, transcript st' = (transcript st ++ tr)%list /\ Forall P tr.

(** Nothing was sent. *)
Definition same_sent (st st' : client) : Prop := sent st' = sent st.

(** The count of requests only grows. *)
Definition sent_grows (st st' : client) : Prop := (sent st <= sent st')%nat.

Lemma any_event_holds ev : any_event ev.
Proof. exact I. Qed.

Lemma any_page url r : any_event (EvPage url r).
Proof. exact I. Qed.

Lemma any_request rq r : any_event (EvRequest rq r).
Proof. exact I. Qed.

Lemma any_yield x : any_event (EvYield x).
Proof. exact I. Qed.

Lemma any_sleep n : any_event (EvSleep n).
Proof. exact I. Qed.

Lemma any_log l m : any_event (EvLog l m).
Proof. exact I. Qed.

Lemma same_cache_refl st : same_cache st st.
Proof. reflexivity. Qed.

Lemma same_cache_trans st1 st2 st3 :
  same_cache st1 st2 -> same_cache st2 st3 -> same_cache st1 st3.
Proof. unfold same_cache. congruence. Qed.

Lemma same_cache_record ev : any_event ev -> respects same_cache (record ev).
Proof. intros _ st. reflexivity. Qed.

Lemma same_cache_count : respects same_cache count_request.
Proof. intros st. reflexivity. Qed.

Lemma extends_refl P st : extends P st st.
Proof. exists []. split; [symmetry; apply app_nil_r | constructor]. Qed.

Lemma extends_trans P st1 st2 st3 :
  extends P st1 st2 -> extends P st2 st3 -> extends P st1 st3.
Proof.
  intros [tr1 [E1 F1]] [tr2 [E2 F2]]. exists (tr1 ++ tr2)%list. split.
  - rewrite E2, E1. symmetry. apply app_assoc.
  - apply Forall_app. split; assumption.
Qed.

Lemma extends_record P ev : P ev -> respects (extends P) (record ev).
Proof. intros Hev st. exists [ev]. split; [reflexivity | repeat constructor; exact Hev]. Qed.

Lemma extends_count P : respects (extends P) count_request.
Proof.
  intros st. exists []. split; [symmetry; apply app_nil_r | constructor].
Qed.

Lemma extends_set_rsvi_cache P c : respects (extends P) (set_rsvi_cache c).
Proof.
  intros st. exists []. split; [symmetry; apply app_nil_r | constructor].
Qed.

Lemma same_sent_refl st : same_sent st st.
Proof. reflexivity. Qed.

Lemma same_sent_trans st1 st2 st3 :
  same_sent st1 st2 -> same_sent st2 st3 -> same_sent st1 st3.
Proof. unfold same_sent. congruence. Qed.

Lemma same_sent_record ev : any_event ev -> respects same_sent (record ev).
Proof. intros _ st. reflexivity. Qed.

Lemma same_sent_set_rsvi_cache c : respects same_sent (set_rsvi_cache c).
Proof. intros st. reflexivity. Qed.

Lemma sent_grows_refl st : sent_grows st st.
Proof. unfold sent_grows. lia. Qed.

Lemma sent_grows_trans st1 st2 st3 :
  sent_grows st1 st2 -> sent_grows st2 st3 -> sent_grows st1 st3.
Proof. unfold sent_grows. lia. Qed.

Lemma sent_grows_record ev : any_event ev -> respects sent_grows (record ev).
Proof. intros _ st. unfold sent_grows. simpl. lia. Qed.

Lemma sent_grows_count : respects sent_grows count_request.
Proof. intros st. unfold sent_grows. simpl. lia. Qed.

#[export] Hint Resolve any_page any_request any_yield any_sleep any_log
  same_cache_refl same_cache_trans same_cache_record same_cache_count
  extends_refl extends_trans extends_record extends_count
  extends_set_rsvi_cache
  same_sent_refl same_sent_trans same_sent_record same_sent_set_rsvi_cache
  sent_grows_refl sent_grows_trans sent_grows_record sent_grows_count
  : frame.

Definition non_request (ev : event) : Prop := is_request ev = false.

(** The transcript is what it was. *)
Definition same_transcript (st st' : client) : Prop :=
  transcript st' = transcript st.

Lemma same_transcript_refl st : same_transcript st st.
Proof. reflexivity. Qed.

Lemma same_transcript_trans st1 st2 st3 :
  same_transcript st1 st2 -> same_transcript st2 st3 ->
  same_transcript st1 st3.
Proof. unfold same_transcript. congruence. Qed.

Lemma same_transcript_count : respects same_transcript count_request.
Proof. intros st. reflexivity. Qed.

#[export] Hint Resolve same_transcript_refl same_transcript_trans
  same_transcript_count : frame.

#[export] Hint Extern 1 (non_request _) => reflexivity : frame.

Lemma respects_bind_raise R {A B} (e : exn) (k : A -> M B) :
  (forall st, R st st) -> respects R (bind (raise e) k).
Proof. intros Hrefl st. apply Hrefl. Qed.

Lemma respects_assoc R {A B C} (m : M A) (k : A -> M B) (k' : B -> M C) :
  respects R (bind m (fun a => bind (k a) k')) ->
  respects R (bind (bind m k) k').
Proof.
  intros Hm st. specialize (Hm st). unfold run_state, bind in *.
  destruct (m st) as [[a | e | e | ] st1]; exact Hm.
Qed.

Lemma respects_ret_bind R {A B} (a : A) (k : A -> M B) :
  respects R (k a) -> respects R (bind (ret a) k).
Proof. intros Hk st. exact (Hk st). Qed.

(** What any run does to the transcript. *)
Lemma added_extends P st st' :
  extends P st st' ->
  transcript st' = (transcript st ++ added st st')%list
  /\ Forall P (added st st').
Proof.
  intros [tr [E F]]. unfold added. rewrite E.
  rewrite skipn_app, skipn_all, Nat.sub_diag. simpl.
  split; [reflexivity | assumption].
Qed.

(** As long as the jar holds no secret, nothing is requested. *)
Definition without_secret (st st' : client) : Prop :=
  find_sapisid (cj st) = None ->
  find_sapisid (cj st') = None /\ extends non_request st st'.

Lemma without_secret_refl st : without_secret st st.
Proof. intros E. split; [exact E | apply extends_refl]. Qed.

Lemma without_secret_trans st1 st2 st3 :
  without_secret st1 st2 -> without_secret st2 st3 -> without_secret st1 st3.
Proof.
  intros H12 H23 E1. destruct (H12 E1) as [E2 X12].
  destruct (H23 E2) as [E3 X23].
  split; [exact E3 | eapply extends_trans; eassumption].
Qed.

Lemma without_secret_record ev :
  non_request ev -> respects without_secret (record ev).
Proof.
  intros Hev st E. split; [exact E | apply extends_record, Hev].
Qed.

Lemma without_secret_count : respects without_secret count_request.
Proof. intros st E. split; [exact E | apply extends_count]. Qed.

Lemma without_secret_set_rsvi_cache c :
  respects without_secret (set_rsvi_cache c).
Proof. intros st E. split; [exact E | apply extends_set_rsvi_cache]. Qed.

#[export] Hint Resolve without_secret_refl without_secret_trans
  without_secret_record without_secret_count without_secret_set_rsvi_cache
  : frame.

(** The events a relation lets a method add to the transcript. *)
Definition no_event (ev : event) : Prop := False.

Ltac ok_for R :=
  lazymatch R with
  | extends ?P => constr:(P)
  | same_transcript => constr:(no_event)
  | without_secret => constr:(non_request)
  | _ => constr:(any_event)
  end.

(** The steps of the methods, for the relations above. *)
Ltac method_step :=
  idtac;
  lazymatch goal with
  | |- respects ?R ?m =>
      let o := ok_for R in
      lazymatch m with
      | yield_ _ _ => eapply respects_yield with (ok := o); side
      | yield_from _ _ => eapply respects_yield_from with (ok := o); side
      | _download_page_soup _ _ =>
          eapply respects_download_page_soup with (ok := o); side
      | _download_page _ _ =>
          eapply respects_download_page with (ok := o); side
      | log _ _ => eapply respects_log with (ok := o); side
      | sleep _ => eapply respects_sleep with (ok := o); side
      | set_rsvi_cache _ => side
      | _authorization_sapisidhash_header _ =>
          eapply respects_authorization; side
      | get_playlist_info _ _ _ _ =>
          eapply respects_get_playlist_info with (ok := o); side
      | get_history_info _ _ _ =>
          eapply respects_get_history_info with (ok := o); side
      | _community_history _ _ _ _ =>
          eapply respects_community_history with (ok := o); side
      | remove_video_id_from_playlist _ _ _ false =>
          eapply respects_remove_video_id_from_playlist with (ok := o); side
      | clear_watch_history _ =>
          eapply respects_clear_watch_history with (ok := o); side
      | clear_playlist _ _ _ =>
          eapply respects_clear_playlist with (ok := o); side
      | remove_video_ids_from_history _ _ _ =>
          eapply respects_remove_video_ids_from_history with (ok := o); side
      | _toggle_history _ _ _ =>
          eapply respects_toggle_history with (ok := o); side
      | delete_community_entry _ _ _ _ =>
          eapply respects_delete_community_entry with (ok := o); side
      | clear_search_history _ =>
          eapply respects_clear_search_history with (ok := o); side
      | _single_feedback_api_call _ _ _ _ _ =>
          eapply respects_single_feedback_api_call with (ok := o); side
      | delete_entry _ _ _ _ _ =>
          eapply respects_delete_entry with (ok := o); side
      | playlist_first_items _ _ =>
          eapply respects_playlist_first_items with (ok := o); side
      | playlist_round _ _ _ _ _ =>
          eapply respects_playlist_round with (ok := o); side
      | history_first_sections _ _ =>
          eapply respects_history_first_sections with (ok := o); side
      | history_next_sections _ _ =>
          eapply respects_history_next_sections with (ok := o); side
      | history_round _ _ _ _ =>
          eapply respects_history_round with (ok := o); side
      | community_entries _ _ =>
          eapply respects_community_entries with (ok := o); side
      | community_fetch _ _ _ _ _ _ =>
          eapply respects_community_fetch with (ok := o); side
      | community_round _ _ _ _ _ =>
          eapply respects_community_round with (ok := o); side
      end
  end.

(** The wrappers of [call] and [perform]: the value a method returned is
    known when the continuation looks at it. *)
Ltac wrapper_step :=
  idtac;
  lazymatch goal with
  | |- respects _ (bind (bind _ _) _) => apply respects_assoc
  | |- respects _ (bind (ret _) _) => apply respects_ret_bind; cbv beta iota
  end.

Lemma browse_only_page url r : browse_only (EvPage url r).
Proof. exact I. Qed.

Lemma browse_only_yield x : browse_only (EvYield x).
Proof. exact I. Qed.

Lemma browse_only_sleep n : browse_only (EvSleep n).
Proof. exact I. Qed.

Lemma browse_only_log l m : browse_only (EvLog l m).
Proof. exact I. Qed.

Lemma browse_only_request rq r :
  rq_url rq = BROWSE_AJAX_URL -> browse_only (EvRequest rq r).
Proof. intros E. exact E. Qed.

#[export] Hint Resolve browse_only_page browse_only_yield browse_only_sleep
  browse_only_log browse_only_request : frame.

Lemma added_app st st' tr :
  transcript st' = (transcript st ++ tr)%list -> added st st' = tr.
Proof.
  intros E. unfold added. rewrite E, skipn_app, skipn_all, Nat.sub_diag.
  reflexivity.
Qed.

Lemma yields_app tr1 tr2 :
  yields (tr1 ++ tr2) = (yields tr1 ++ yields tr2)%list.
Proof. unfold yields. apply flat_map_app. Qed.

Lemma service_posts_app tr1 tr2 :
  service_posts (tr1 ++ tr2) = (service_posts tr1 ++ service_posts tr2)%list.
Proof. unfold service_posts. apply flat_map_app. Qed.

Lemma service_posts_browse_only tr :
  Forall browse_only tr -> service_posts tr = [].
Proof.
  induction 1 as [ | ev tr Hev _ IH]; [reflexivity | ].
  destruct ev; simpl; try exact IH.
  simpl in Hev. rewrite Hev. simpl. exact IH.
Qed.

Lemma only_request_page rq0 url r : only_request rq0 (EvPage url r).
Proof. exact I. Qed.

Lemma only_request_yield rq0 x : only_request rq0 (EvYield x).
Proof. exact I. Qed.

Lemma only_request_sleep rq0 n : only_request rq0 (EvSleep n).
Proof. exact I. Qed.

Lemma only_request_log rq0 l m : only_request rq0 (EvLog l m).
Proof. exact I. Qed.

#[export] Hint Resolve only_request_page only_request_yield
  only_request_sleep only_request_log : frame.

Lemma non_request_only rq0 ev : non_request ev -> only_request rq0 ev.
Proof. destruct ev; intros E; try exact I. discriminate E. Qed.

(** *** Postconditions

    [holds m st Q]: the outcome of [m] run from [st] and the state it
    leaves satisfy [Q]. *)
Definition holds {A} (m : M A) (st : client)
  (Q : outcome A -> client -> Prop) : Prop :=
  Q (fst (m st)) (snd (m st)).

(** The same postcondition at another result type, for the ways out that
    carry no result. *)
Definition on_exit {A B} (Q : outcome B -> client -> Prop)
  (k : A -> client -> Prop) (o : outcome A) (st : client) : Prop :=
  match o with
  | Done a => k a st
  | Raised e => Q (Raised e) st
  | Stopped e => Q (Stopped e) st
  | NoFuel => Q NoFuel st
  end.

Lemma holds_bind {A B} (m : M A) (k : A -> M B) st Q :
  holds m st (on_exit Q (fun a st1 => holds (k a) st1 Q)) ->
  holds (bind m k) st Q.
Proof.
  unfold holds, on_exit, bind.
  destruct (m st) as [[a | e | e | ] st1]; simpl; trivial.
Qed.

Lemma holds_bind_lift {A B} (r : result A) (k : A -> M B) st Q :
  match r with
  | Ok a => holds (k a) st Q
  | Err e => Q (Raised e) st
  end ->
  holds (bind (lift r) k) st Q.
Proof. destruct r; trivial. Qed.

Lemma holds_bind_login {B} (k : unit -> M B) st Q :
  (if logged_in st then holds (k tt) st Q
   else Q (Raised AuthenticationError) st) ->
  holds (bind require_login k) st Q.
Proof.
  unfold holds, bind, require_login, get_client, ret, raise. cbn.
  destruct (logged_in st); cbn; trivial.
Qed.

Lemma holds_bind_respects {A B} R (m : M A) (k : A -> M B) st Q :
  respects R m ->
  (forall o st1, R st st1 ->
     on_exit Q (fun a st1 => holds (k a) st1 Q) o st1) ->
  holds (bind m k) st Q.
Proof.
  intros Hm Hk. apply holds_bind. unfold holds.
  apply Hk. apply Hm.
Qed.

Lemma holds_ret {A} (a : A) st (Q : outcome A -> client -> Prop) :
  Q (Done a) st -> holds (ret a) st Q.
Proof. trivial. Qed.

(* ================================================================== *)
(** ** The authorization header *)

Section Authorization.

Variable b : backend.

Lemma find_sapisid_find (jar : list cookie) :
  find_sapisid jar =
  match find named_sapisid jar with
  | Some c => cookie_value c
  | None => None
  end.
Proof.
  induction jar as [ | c jar IH]; simpl; [reflexivity | ].
  unfold named_sapisid at 1.
  destruct (is_sapisid_name (cookie_name c)); [reflexivity | exact IH].
Qed.

Lemma authorization_run (st : client) :
  _authorization_sapisidhash_header b st =
  match find_sapisid (cj st) with
  | Some s => (Done (sapisidhash (clock b (sent st)) s), st)
  | None => (Raised AssertionError, st)
  end.
Proof.
  unfold _authorization_sapisidhash_header, now, bind, get_client, ret.
  simpl. destruct (find_sapisid (cj st)); reflexivity.
Qed.

End Authorization.

(** C2, as amended: for every timestamp [t] read from the clock and for [s]
    the value of the first cookie of the jar named SAPISID or
    __Secure-3PAPISID, the header is exactly ['SAPISIDHASH {t}_{h}'] with
    [h] the lowercase hex SHA-1 digest of ['{t} {s} https://www.youtube.com'];
    and the header is a function of the timestamp and the jar: a second
    computation that reads the same time with the same jar gives the same
    result. *)
Theorem sapisidhash_header_value
  (b b' : backend) (st st' : client) (s : string) :
  first_secret (cj st) s ->
  clock b' (sent st') = clock b (sent st) ->
  cj st' = cj st ->
  let t := clock b (sent st) in
  _authorization_sapisidhash_header b st =
    (Done ("SAPISIDHASH " ++ str_of_int t ++ "_"
           ++ Sha1.hexdigest
                (str_of_int t ++ " " ++ s ++ " https://www.youtube.com")),
     st)
  /\ run_outcome (_authorization_sapisidhash_header b') st'
     = run_outcome (_authorization_sapisidhash_header b) st.
Proof.
  intros [c [Hfind Hval]] Hclock Hjar t. split.
  - rewrite authorization_run, find_sapisid_find, Hfind, Hval. reflexivity.
  - unfold run_outcome. rewrite !authorization_run, Hjar, Hclock.
    destruct (find_sapisid (cj st)); reflexivity.
Qed.

Lemma sapisidhash_header_value_witness :
  _authorization_sapisidhash_header Demo.quiet
    Demo.logged_in_client
  = (Done "SAPISIDHASH 1700000000_8826f35e8fadc232ceb4c889bdb7a3a586eb7379",
     Demo.logged_in_client).
Proof.
  refine (proj1 (sapisidhash_header_value
                   Demo.quiet Demo.quiet Demo.logged_in_client
                   Demo.logged_in_client "secret" _ _ _)).
  - exists Demo.session_cookie. split; reflexivity.
  - reflexivity.
  - reflexivity.
Defined.

(** C2 as stated fails: with two cookies of different values under the two
    names, the second value is in the jar under its name, and the header is
    not the one computed from it. *)
Lemma sapisidhash_header_not_every_secret :
  let st := init Demo.two_secrets true in
  holds_secret (cj st) "b"
  /\ _authorization_sapisidhash_header Demo.quiet st
     <> (Done ("SAPISIDHASH " ++ str_of_int 1700000000 ++ "_"
               ++ Sha1.hexdigest
                    (str_of_int 1700000000 ++ " " ++ "b"
                     ++ " https://www.youtube.com")), st).
Proof.
  split.
  - exists {| cookie_name := "__Secure-3PAPISID"; cookie_value := Some "b" |}.
    split; [right; left; reflexivity | split; reflexivity].
  - vm_compute. discriminate.
Qed.

(** C10, as amended: the secret is looked up in the first cookie of the jar,
    in iteration order, that is named SAPISID or __Secure-3PAPISID.  When
    there is one and it has a value, the assertion holds and that value is
    the hash secret; when there is none, or when that cookie has no value,
    the call fails with AssertionError and returns no header.  Either way
    nothing is sent and the client is left as it was. *)
Theorem sapisidhash_header_needs_cookie
  (b : backend) (st : client) :
  _authorization_sapisidhash_header b st =
  match find named_sapisid (cj st) with
  | Some c =>
      match cookie_value c with
      | Some secret => (Done (sapisidhash (clock b (sent st)) secret), st)
      | None => (Raised AssertionError, st)
      end
  | None => (Raised AssertionError, st)
  end.
Proof.
  rewrite authorization_run, find_sapisid_find.
  destruct (find named_sapisid (cj st)) as [c | ]; reflexivity.
Qed.

(** C10 as stated fails: a jar whose only cookie is named SAPISID and has no
    value contains a cookie of that name, and the assertion fails. *)
Lemma sapisidhash_header_valueless_cookie :
  let st := init Demo.valueless true in
  (exists c, In c (cj st) /\ named_sapisid c = true)
  /\ _authorization_sapisidhash_header Demo.quiet st
     = (Raised AssertionError, st).
Proof.
  split.
  - exists {| cookie_name := "SAPISID"; cookie_value := None |}.
    split; [left; reflexivity | reflexivity].
  - reflexivity.
Qed.

(* ================================================================== *)
(** ** Authentication comes first *)

Lemma require_login_denied {A} (k : unit -> M A) (st : client) :
  logged_in st = false ->
  bind require_login k st = (Raised AuthenticationError, st).
Proof.
  intros E. unfold bind, require_login, get_client, ret, raise. cbn.
  rewrite E. reflexivity.
Qed.

Lemma require_login_granted {A} (k : unit -> M A) (st : client) :
  logged_in st = true -> bind require_login k st = k tt st.
Proof.
  intros E. unfold bind, require_login, get_client, ret, raise. cbn.
  rewrite E. reflexivity.
Qed.

(** C8: every public method that reads or changes the state of the account
    (every one but [login]) checks [logged_in] before anything else.  When
    it is false, a plain method raises AuthenticationError and leaves the
    client as it was: nothing was sent, the transcript has no new entry.  A
    generator method returns its generator object without an error, and
    the error comes when the object is first iterated, again with nothing
    sent. *)
Theorem login_required
  {H : Helpers} (b : backend) (fuel : nat) (op : operation) (st : client) :
  op <> OpLogin ->
  logged_in st = false ->
  if is_generator_call op then
    exists g, call b fuel op st = (Done (RIter g), st)
              /\ forall fuel' on_yield,
                   g fuel' on_yield st = (Raised AuthenticationError, st)
  else call b fuel op st = (Raised AuthenticationError, st).
Proof.
  intros Hop Hout.
  destruct op; simpl; try congruence;
    try (eexists; split; [reflexivity | intros fuel' on_yield]);
    first [ apply (require_login_denied _ _ Hout)
          | apply bind_raised; apply (require_login_denied _ _ Hout) ].
Qed.

Lemma login_required_witness :
  call (H := Demo.helpers) Demo.quiet 3 OpClearWatchHistory
    Demo.logged_out_client
  = (Raised AuthenticationError, Demo.logged_out_client)
  /\ exists g,
       call (H := Demo.helpers) Demo.quiet 3 OpGetHistoryInfo
         Demo.logged_out_client
       = (Done (RIter g), Demo.logged_out_client)
       /\ forall fuel' on_yield,
            g fuel' on_yield Demo.logged_out_client
            = (Raised AuthenticationError, Demo.logged_out_client).
Proof.
  split.
  - apply (login_required (H := Demo.helpers) Demo.quiet 3
             OpClearWatchHistory Demo.logged_out_client);
      [discriminate | reflexivity].
  - apply (login_required (H := Demo.helpers) Demo.quiet 3
             OpGetHistoryInfo Demo.logged_out_client);
      [discriminate | reflexivity].
Defined.

(* ================================================================== *)
(** ** The cache of [remove_video_id_from_playlist] *)

(** The calls that store page data on the client. *)
(** *** Computations that do not look at the cache

    [cache_blind m]: run on the client with any cache in the place of its
    own, [m] ends the same way, and leaves the same client but for that
    cache, which it leaves as it is. *)
Definition cache_blind {A} (m : M A) : Prop :=
  forall c st, m (with_cache c st) = (fst (m st), with_cache c (snd (m st))).

Lemma cb_ret {A} (a : A) : cache_blind (ret a).
Proof. intros c st. reflexivity. Qed.

Lemma cb_raise {A} (e : exn) : cache_blind (@raise A e).
Proof. intros c st. reflexivity. Qed.

Lemma cb_stop {A} (e : exn) : cache_blind (@stop A e).
Proof. intros c st. reflexivity. Qed.

Lemma cb_no_fuel {A} : cache_blind (@no_fuel A).
Proof. intros c st. reflexivity. Qed.

Lemma cb_lift {A} (r : result A) : cache_blind (lift r).
Proof. destruct r; intros c st; reflexivity. Qed.

Lemma cb_record ev : cache_blind (record ev).
Proof. intros c st. reflexivity. Qed.

Lemma cb_count : cache_blind count_request.
Proof. intros c st. reflexivity. Qed.

Lemma cb_bind {A B} (m : M A) (k : A -> M B) :
  cache_blind m -> (forall a, cache_blind (k a)) -> cache_blind (bind m k).
Proof.
  intros Hm Hk c st. unfold bind. rewrite (Hm c st).
  destruct (m st) as [[a | e | e | ] st1]; simpl; try reflexivity.
  apply Hk.
Qed.

Lemma cb_assoc {A B C} (m : M A) (k : A -> M B) (k' : B -> M C) :
  cache_blind (bind m (fun a => bind (k a) k')) ->
  cache_blind (bind (bind m k) k').
Proof.
  intros Hm c st. specialize (Hm c st). unfold bind in *.
  destruct (m st) as [[a | e | e | ] st1];
    destruct (m (with_cache c st)) as [[a' | e' | e' | ] st1'];
    exact Hm.
Qed.

Lemma cb_ret_bind {A B} (a : A) (k : A -> M B) :
  cache_blind (k a) -> cache_blind (bind (ret a) k).
Proof. intros Hk c st. exact (Hk c st). Qed.

Lemma cb_get_client_ignore {A} (m : M A) :
  cache_blind m -> cache_blind (bind get_client (fun _ => m)).
Proof. intros Hm c st. exact (Hm c st). Qed.

Lemma cb_try_except {A} (m : M A) (h : exn -> option (M A)) :
  cache_blind m -> (forall e m', h e = Some m' -> cache_blind m') ->
  cache_blind (try_except m h).
Proof.
  intros Hm Hh c st. unfold try_except. rewrite (Hm c st).
  destruct (m st) as [[a | e | e | ] st1]; simpl; try reflexivity.
  destruct (h e) as [m' | ] eqn:E; [ | reflexivity].
  exact (Hh e m' E c st1).
Qed.

Lemma cb_attempt {A} (m : M A) : cache_blind m -> cache_blind (attempt m).
Proof.
  intros Hm c st. unfold attempt. rewrite (Hm c st).
  destruct (m st) as [[a | e | e | ] st1]; reflexivity.
Qed.

Lemma cb_consume {B} (g : generator) fuel (check : json -> result B) :
  (forall on_yield, cache_blind (g fuel on_yield)) ->
  cache_blind (consume g fuel check).
Proof.
  intros Hg c st. unfold consume. rewrite (Hg _ c st).
  destruct (g fuel _ st) as [[a | e | e | ] st1]; reflexivity.
Qed.

Lemma cb_for_each {S} (l : list json) (body : json -> S -> M (ctl S)) :
  (forall x s, cache_blind (body x s)) ->
  forall s, cache_blind (for_each l s body).
Proof.
  intros Hb. induction l as [ | x l IH]; intros s; simpl.
  - apply cb_ret.
  - apply cb_bind; [apply Hb | ].
    intros [s' | s']; [apply IH | apply cb_ret].
Qed.

Lemma cb_while_loop {S} (cond : S -> bool) (body : S -> M (ctl S)) :
  (forall s, cache_blind (body s)) ->
  forall fuel s, cache_blind (while_loop fuel cond s body).
Proof.
  intros Hb. induction fuel as [ | fuel IH]; intros s; simpl.
  - destruct (cond s); [apply cb_no_fuel | apply cb_ret].
  - destruct (cond s); [ | apply cb_ret].
    apply cb_bind; [apply Hb | ].
    intros [s' | s']; [apply IH | apply cb_ret].
Qed.

Lemma cb_require_login : cache_blind require_login.
Proof.
  intros c st. unfold require_login, bind, get_client. simpl.
  destruct (logged_in st); reflexivity.
Qed.

Lemma cb_assert_not_none v : cache_blind (assert_not_none v).
Proof.
  unfold assert_not_none. destruct (is_none v); [apply cb_raise | apply cb_ret].
Qed.

Ltac blind_with tac :=
  repeat first
    [ assumption
    | match goal with
      | |- forall e m', _ = Some m' -> cache_blind m' =>
          let e := fresh "e" in
          let E := fresh "E" in
          intros e ? E; destruct e; simpl in E; try discriminate E;
          injection E as <-
      end
    | progress intros
    | progress cbv beta zeta
    | tac
    | lazymatch goal with
      | |- cache_blind (ret _) => apply cb_ret
      | |- cache_blind (raise _) => apply cb_raise
      | |- cache_blind (stop _) => apply cb_stop
      | |- cache_blind no_fuel => apply cb_no_fuel
      | |- cache_blind (lift _) => apply cb_lift
      | |- cache_blind require_login => apply cb_require_login
      | |- cache_blind (assert_not_none _) => apply cb_assert_not_none
      | |- cache_blind (record _) => apply cb_record
      | |- cache_blind (log _ _) => apply cb_record
      | |- cache_blind (sleep _) => apply cb_record
      | |- cache_blind count_request => apply cb_count
      | |- cache_blind (bind get_client _) => apply cb_get_client_ignore
      | |- cache_blind (bind (bind _ _) _) => apply cb_assoc
      | |- cache_blind (bind (ret _) _) => apply cb_ret_bind; cbv beta iota
      | |- cache_blind (bind _ _) => apply cb_bind
      | |- cache_blind (try_except _ _) => apply cb_try_except
      | |- cache_blind (attempt _) => apply cb_attempt
      | |- cache_blind (for_each _ _ _) => apply cb_for_each
      | |- cache_blind (while_loop _ _ _ _) => apply cb_while_loop
      | |- cache_blind (consume _ _ _) => apply cb_consume
      | |- cache_blind (match ?x with _ => _ end) => destruct x
      end ].

Section CacheBlind.

Context {H : Helpers} (b : backend).

Lemma cb_now : cache_blind (now b).
Proof. intros c st. reflexivity. Qed.

Lemma cb_authorization : cache_blind (_authorization_sapisidhash_header b).
Proof.
  intros c st. unfold _authorization_sapisidhash_header, bind, now, get_client.
  simpl. destruct (find_sapisid (cj st)); reflexivity.
Qed.

Lemma cb_login : cache_blind (login b).
Proof.
  intros c st. unfold login, bind, count_request, record, lift. simpl.
  destruct (login_reply b (sent st)); reflexivity.
Qed.

Lemma cb_history_fetch rq :
  forall left tries time last resp,
    cache_blind (history_fetch b left rq tries time last resp).
Proof.
  induction left as [ | left IH]; intros tries time last resp; simpl.
  - destruct (tries <? 5); [apply cb_no_fuel | apply cb_ret].
  - destruct (tries <? 5); [ | apply cb_ret].
    unfold _download_page, yield_.
    blind_with ltac:(idtac;
      lazymatch goal with
      | |- cache_blind (history_fetch _ _ _ _ _ _ _) => apply IH
      end).
Qed.

Ltac blind_step :=
  idtac;
  lazymatch goal with
  | |- cache_blind (now _) => apply cb_now
  | |- cache_blind (_authorization_sapisidhash_header _) =>
      apply cb_authorization
  | |- cache_blind (history_fetch _ _ _ _ _ _ _) => apply cb_history_fetch
  | |- cache_blind (login _) => apply cb_login
  end.

Lemma cb_perform fuel on_yield op :
  stores_page_data op = false ->
  cache_blind (perform b fuel on_yield op).
Proof.
  intros Hop. unfold perform, call.
  destruct op; try discriminate Hop;
    try (destruct cache_values; try discriminate Hop);
    unfold clear_watch_later, toggle_search_history, toggle_watch_history,
      community_history, clear_playlist, remove_video_ids_from_history,
      get_playlist_info, get_history_info, _community_history,
      remove_video_id_from_playlist, clear_watch_history, _toggle_history,
      delete_community_entry, clear_search_history,
      _single_feedback_api_call, delete_entry, playlist_first_items,
      playlist_round, history_round, history_first_sections,
      history_next_sections, community_round, community_fetch,
      community_entries, yield_from, yield_, _download_page_soup,
      _download_page;
    cbv beta iota;
    blind_with blind_step.
Qed.

End CacheBlind.

Lemma same_cache_login (b : backend) : respects same_cache (login b).
Proof.
  unfold login.
  resp_with ltac:(first [ method_step
                        | apply same_cache_record, any_event_holds ]).
  all: intros st; reflexivity.
Qed.

(** C5, as amended: [_rsvi_cache] is None on a new client, and every call
    of a public method, except [remove_video_id_from_playlist] called with
    [cache_values] true, leaves it as it found it, whatever way the call
    ends, and does not read it: made on the client with any other cache in
    the place of its own, the call ends the same way and has the same
    exchanges with the site, so it fetches again the pages it needs. *)
Theorem cache_untouched_without_cache_values
  {H : Helpers} (b : backend) (fuel : nat) (on_yield : json -> result unit)
  (op : operation) (st : client) (jar : list cookie) (logged : bool) :
  stores_page_data op = false ->
  rsvi_cache (init jar logged) = None
  /\ rsvi_cache (run_state (perform b fuel on_yield op) st) = rsvi_cache st
  /\ forall c,
       run_outcome (perform b fuel on_yield op) (with_cache c st)
       = run_outcome (perform b fuel on_yield op) st
       /\ run_state (perform b fuel on_yield op) (with_cache c st)
          = with_cache c (run_state (perform b fuel on_yield op) st).
Proof.
  intros Hop. split; [reflexivity | ].
  split;
    [ | intros c; unfold run_outcome, run_state;
        rewrite (cb_perform b fuel on_yield op Hop c st);
        split; reflexivity ].
  revert st. change (respects same_cache (perform b fuel on_yield op)).
  unfold perform, call.
  destruct op; try discriminate Hop;
    try (destruct cache_values; try discriminate Hop);
    unfold clear_watch_later, toggle_search_history, toggle_watch_history,
      community_history;
    resp_with ltac:(first [ method_step | wrapper_step
                          | apply same_cache_login ]).
Qed.

Lemma cache_untouched_without_cache_values_witness :
  rsvi_cache (init [Demo.session_cookie] true) = None
  /\ rsvi_cache
       (run_state
          (perform (H := Demo.helpers) Demo.quiet 2 (fun _ => Ok tt)
             (OpRemoveVideoIdFromPlaylist "PL" "v1" false))
          Demo.logged_in_client)
     = rsvi_cache Demo.logged_in_client
  /\ forall c,
       run_outcome
         (perform (H := Demo.helpers) Demo.quiet 2 (fun _ => Ok tt)
            (OpRemoveVideoIdFromPlaylist "PL" "v1" false))
         (with_cache c Demo.logged_in_client)
       = run_outcome
           (perform (H := Demo.helpers) Demo.quiet 2 (fun _ => Ok tt)
              (OpRemoveVideoIdFromPlaylist "PL" "v1" false))
           Demo.logged_in_client
       /\ run_state
            (perform (H := Demo.helpers) Demo.quiet 2 (fun _ => Ok tt)
               (OpRemoveVideoIdFromPlaylist "PL" "v1" false))
            (with_cache c Demo.logged_in_client)
          = with_cache c
              (run_state
                 (perform (H := Demo.helpers) Demo.quiet 2 (fun _ => Ok tt)
                    (OpRemoveVideoIdFromPlaylist "PL" "v1" false))
                 Demo.logged_in_client).
Proof.
  apply (cache_untouched_without_cache_values (H := Demo.helpers)
           Demo.quiet 2 (fun _ => Ok tt)
           (OpRemoveVideoIdFromPlaylist "PL" "v1" false)
           Demo.logged_in_client [Demo.session_cookie] true).
  reflexivity.
Defined.

(** C5 as stated fails: on a client whose cache is None, a call of
    [remove_video_id_from_playlist] with [cache_values] true leaves the
    document, its configuration and the headers in the cache; the same call
    made again takes them from there: it sends its request and fetches no
    page. *)
Lemma cache_values_stores_page_data :
  let op := OpRemoveVideoIdFromPlaylist "PL" "v1" true in
  let st := Demo.logged_in_client in
  let st1 :=
    run_state (perform (H := Demo.helpers) Demo.quiet 2 (fun _ => Ok tt) op)
      st in
  let st2 :=
    run_state (perform (H := Demo.helpers) Demo.quiet 2 (fun _ => Ok tt) op)
      st1 in
  rsvi_cache st = None
  /\ rsvi_cache st1
     = Some {| cache_soup := "other"; cache_ytcfg := Demo.ytcfg;
               cache_headers := [("x-youtube-client-name", JStr "1")] |}
  /\ existsb is_page (added st st1) = true
  /\ existsb is_page (added st1 st2) = false
  /\ existsb is_request (added st1 st2) = true.
Proof. vm_compute. repeat split. Qed.

(* ================================================================== *)
(** ** Rewriting runs *)

Lemma bind_assoc {A B C} (m : M A) (k : A -> M B) (k' : B -> M C) st :
  bind (bind m k) k' st = bind m (fun a => bind (k a) k') st.
Proof.
  unfold bind. destruct (m st) as [[a | e | e | ] st1]; reflexivity.
Qed.

Lemma bind_get_client {A} (k : client -> M A) st :
  bind get_client k st = k st st.
Proof. reflexivity. Qed.

(* ================================================================== *)
(** ** The continuation token of [get_playlist_info] *)

(** A run: the document page of the playlist ends with a continuation item
    of token T0, the first continuation page with one of token T1; the
    second request is sent with T0 again, ['ctoken'], ['continuation'] and
    ['itct'] alike: the loop reads the token of [video_list_renderer], the
    page that came with the document, not the one of the page it has just
    received. *)
Example playlist_token_read_from_first_page :
  let st :=
    run_state
      (get_playlist_info (H := Demo.helpers) Demo.playlist_site "PL" 5%nat
         (fun _ => Ok tt)) Demo.logged_in_client in
  json_reply Demo.playlist_site 1 = Ok Demo.playlist_page_1
  /\ rbind (walk Demo.playlist_page_1
              [At 1; K "response"; K "onResponseReceivedActions"; At 0;
               K "appendContinuationItemsAction"; K "continuationItems";
               At (-1)])
       continuation_of_item
     = Ok (JStr "T1", JStr "click-T1")
  /\ map rq_params (requests_of (transcript st))
     = [ [("ctoken", JStr "T0"); ("continuation", JStr "T0");
          ("itct", JStr "click-T0")];
         [("ctoken", JStr "T0"); ("continuation", JStr "T0");
          ("itct", JStr "click-T0")] ].
Proof. vm_compute. repeat split. Qed.

(* ================================================================== *)
(** ** The retry loop of [get_history_info] *)

Section Retry.

Context {H : Helpers} (b : backend).

Lemma download_page_run rq st :
  _download_page b rq st =
  (match json_reply b (sent st) with
   | Ok v => Done v
   | Err e => Raised e
   end,
   {| logged_in := logged_in st; cj := cj st; rsvi_cache := rsvi_cache st;
      sent := S (sent st);
      transcript := transcript st ++ [EvRequest rq (json_reply b (sent st))] |}).
Proof.
  unfold _download_page, bind, count_request, record, lift. simpl.
  destruct (json_reply b (sent st)); reflexivity.
Qed.

Lemma sleep_run n st :
  sleep n st =
  (Done tt,
   {| logged_in := logged_in st; cj := cj st; rsvi_cache := rsvi_cache st;
      sent := sent st; transcript := transcript st ++ [EvSleep n] |}).
Proof. reflexivity. Qed.

Lemma attempt_download_page_run rq st :
  attempt (_download_page b rq) st =
  (Done (json_reply b (sent st)),
   {| logged_in := logged_in st; cj := cj st; rsvi_cache := rsvi_cache st;
      sent := S (sent st);
      transcript := transcript st ++ [EvRequest rq (json_reply b (sent st))] |}).
Proof.
  unfold attempt. rewrite download_page_run.
  destruct (json_reply b (sent st)); reflexivity.
Qed.

Definition after_attempt (rq : request) (time : Z) (st : client) : client :=
  {| logged_in := logged_in st; cj := cj st; rsvi_cache := rsvi_cache st;
     sent := S (sent st);
     transcript :=
       transcript st
       ++ (if time =? 0 then [] else [EvSleep time])
       ++ [EvRequest rq (json_reply b (sent st))] |}.

Lemma history_fetch_attempt left rq tries time last resp st :
  tries < 5 ->
  history_fetch b (S left) rq tries time last resp st =
  match json_reply b (sent st) with
  | Ok v => (Done (last, v), after_attempt rq time st)
  | Err (HTTPError status) =>
      history_fetch b left rq (tries + 1) (2 ^ (tries + 1))
        (Some (HTTPError status)) resp (after_attempt rq time st)
  | Err e => (Raised e, after_attempt rq time st)
  end.
Proof.
  intros Hlt. apply Z.ltb_lt in Hlt. simpl history_fetch. rewrite Hlt.
  unfold after_attempt.
  destruct (time =? 0) eqn:Ht; simpl negb; cbv iota.
  - rewrite (bind_done _ _ st tt st) by reflexivity.
    rewrite (bind_done _ _ _ _ _ (attempt_download_page_run rq st)).
    destruct (json_reply b (sent st)) as [v | e]; [reflexivity | ].
    destruct e; reflexivity.
  - rewrite (bind_done _ _ _ _ _ (sleep_run time st)).
    rewrite (bind_done _ _ _ _ _ (attempt_download_page_run rq _)).
    simpl. rewrite <- app_assoc.
    destruct (json_reply b (sent st)) as [v | e]; [reflexivity | ].
    destruct e; reflexivity.
Qed.

Lemma history_fetch_over left rq tries time last resp st :
  5 <= tries ->
  history_fetch b left rq tries time last resp st = (Done (last, resp), st).
Proof.
  intros Hge. apply Z.ltb_ge in Hge.
  destruct left; simpl; rewrite Hge; reflexivity.
Qed.

(** The inner loop, started at attempt number [tries] with [left] attempts
    to go, when the next [fails] replies are HTTP errors and the one after
    them, if the loop gets that far, is an answer. *)
Lemma history_fetch_run rq resp :
  forall (fails left : nat) (tries time : Z) (last : option exn) (st : client),
    0 <= tries ->
    Z.of_nat left = 5 - tries ->
    (fails <= left)%nat ->
    time = (if tries =? 0 then 0 else 2 ^ tries) ->
    (forall i, (i < fails)%nat ->
       exists status, json_reply b (sent st + i) = Err (HTTPError status)) ->
    ((fails < left)%nat ->
       exists page, json_reply b (sent st + fails) = Ok page) ->
    let n := Nat.min (fails + 1) left in
    let r := history_fetch b left rq tries time last resp st in
    transcript (snd r)
    = (transcript st
       ++ attempts_transcript rq (map (json_reply b) (seq (sent st) n)) tries)%list
    /\ sent (snd r) = (sent st + n)%nat
    /\ exists last' resp',
         fst r = Done (last', resp')
         /\ (fails = 0%nat -> last' = last)
         /\ ((0 < fails)%nat -> exists status, last' = Some (HTTPError status))
         /\ (fails = left -> resp' = resp).
Proof.
  induction fails as [ | fails IH];
    intros left tries time last st Htries Hleft Hfails Htime Herr Hok n r.
  - destruct left as [ | left].
    + subst r n. rewrite history_fetch_over by lia. simpl.
      split; [symmetry; apply app_nil_r | ].
      split; [lia | ].
      exists last, resp. repeat split; auto. intros Hlt. lia.
    + destruct (Hok ltac:(lia)) as [page Hpage].
      rewrite Nat.add_0_r in Hpage.
      subst r n. rewrite history_fetch_attempt by lia. rewrite Hpage.
      replace (Nat.min (0 + 1) (S left)) with 1%nat by lia.
      simpl. rewrite Hpage.
      split; [ | split; [lia | ] ].
      * subst time. destruct (tries =? 0) eqn:Ht0; [reflexivity | ].
        assert (Hpow : (2 ^ tries =? 0) = false)
          by (apply Z.eqb_neq; apply Z.pow_nonzero; lia).
        rewrite Hpow. reflexivity.
      * exists last, page. repeat split; auto; intros; lia.
  - destruct left as [ | left]; [lia | ].
    destruct (Herr 0%nat ltac:(lia)) as [status Hstatus].
    rewrite Nat.add_0_r in Hstatus.
    assert (Hnext : (tries + 1 =? 0) = false) by (apply Z.eqb_neq; lia).
    specialize (IH left (tries + 1) (2 ^ (tries + 1))
                  (Some (HTTPError status)) (after_attempt rq time st)
                  ltac:(lia) ltac:(lia) ltac:(lia)
                  ltac:(rewrite Hnext; reflexivity)).
    assert (Herr' : forall i, (i < fails)%nat ->
              exists s, json_reply b (sent (after_attempt rq time st) + i)
                        = Err (HTTPError s)).
    { intros i Hi. simpl. destruct (Herr (S i) ltac:(lia)) as [s Hs].
      exists s. rewrite <- Hs. f_equal. lia. }
    assert (Hok' : (fails < left)%nat ->
              exists page, json_reply b (sent (after_attempt rq time st) + fails)
                           = Ok page).
    { intros Hf. simpl. destruct (Hok ltac:(lia)) as [p Hp].
      exists p. rewrite <- Hp. f_equal. lia. }
    specialize (IH Herr' Hok'). cbv zeta in IH.
    destruct IH as [Htr [Hsent [last' [resp' [Hres [Hzero [Hsome Hresp]]]]]]].
    subst r n. rewrite history_fetch_attempt by lia. rewrite Hstatus.
    replace (Nat.min (S fails + 1) (S left))
      with (S (Nat.min (fails + 1) left)) by lia.
    split; [ | split].
    + rewrite Htr. simpl. rewrite Hstatus, <- !app_assoc.
      f_equal. subst time. destruct (tries =? 0) eqn:Ht0; [reflexivity | ].
      assert (Hpow : (2 ^ tries =? 0) = false)
        by (apply Z.eqb_neq; apply Z.pow_nonzero; lia).
      rewrite Hpow. reflexivity.
    + rewrite Hsent. simpl. lia.
    + exists last', resp'. split; [exact Hres | ].
      split; [intros; lia | ]. split.
      * intros _. destruct fails as [ | fails'].
        -- exists status. apply Hzero. reflexivity.
        -- apply Hsome. lia.
      * intros Heq. apply Hresp. lia.
Qed.

Lemma while_loop_break {S} (cond : S -> bool) (body : S -> M (ctl S))
  fuel s s' st st' :
  cond s = true -> body s st = (Done (Break s'), st') ->
  while_loop (Datatypes.S fuel) cond s body st = (Done s', st').
Proof.
  intros Hc Hb. simpl. rewrite Hc. rewrite (bind_done _ _ _ _ _ Hb).
  reflexivity.
Qed.

Lemma while_loop_next {S} (cond : S -> bool) (body : S -> M (ctl S))
  fuel s s' st st' :
  cond s = true -> body s st = (Done (Next s'), st') ->
  while_loop (Datatypes.S fuel) cond s body st
  = while_loop fuel cond s' body st'.
Proof.
  intros Hc Hb. simpl. rewrite Hc. rewrite (bind_done _ _ _ _ _ Hb).
  reflexivity.
Qed.

Lemma history_round_gives_up on_yield headers params xsrf resp0 st e resp st1 :
  history_fetch b 5 (history_request headers xsrf params) 0 0 None resp0 st
  = (Done (Some e, resp), st1) ->
  history_round b on_yield headers (params, xsrf, resp0) st
  = (Done (Break (params, xsrf, resp)),
     {| logged_in := logged_in st1; cj := cj st1;
        rsvi_cache := rsvi_cache st1; sent := sent st1;
        transcript :=
          transcript st1
          ++ [EvLog "debug" "Caught HTTP error: %s, text: %s"] |}).
Proof.
  intros Efetch. unfold history_round. cbv beta iota.
  rewrite (bind_done _ _ _ _ _ Efetch). reflexivity.
Qed.

End Retry.

(** X1: when the continuation fetch of [get_history_info] fails with an
    HTTP error, the same request is made again, for up to 5
    attempts, with a sleep of [2 ^ k] seconds before retry number [k] (2,
    4, 8, 16).  When all 5 attempts have failed the error is not raised: it
    goes to the debug log and the loop over the continuation pages ends
    normally. *)
Theorem history_retry_backoff
  (b : backend) (on_yield : json -> result unit)
  (headers params : pydict) (xsrf resp0 : json) (st : client) (fails : nat) :
  (fails <= 5)%nat ->
  (forall i, (i < fails)%nat ->
     exists status, json_reply b (sent st + i) = Err (HTTPError status)) ->
  ((fails < 5)%nat -> exists page, json_reply b (sent st + fails) = Ok page) ->
  let rq := history_request headers xsrf params in
  let attempts := Nat.min (fails + 1) 5 in
  let fetched := run_state (history_fetch b 5 rq 0 0 None resp0) st in
  transcript fetched
  = (transcript st
     ++ attempts_transcript rq
          (map (json_reply b) (seq (sent st) attempts)) 0)%list
  /\ sent fetched = (sent st + attempts)%nat
  /\ (fails = 5%nat ->
      forall fuel,
        let loop :=
          while_loop (S fuel) (fun _ => true) (params, xsrf, resp0)
            (history_round b on_yield headers) in
        run_outcome loop st = Done (params, xsrf, resp0)
        /\ transcript (run_state loop st)
           = (transcript fetched
              ++ [EvLog "debug" "Caught HTTP error: %s, text: %s"])%list).
Proof.
  intros Hfails Herr Hok rq attempts fetched.
  pose proof (history_fetch_run b rq resp0 fails 5 0 0 None st
                ltac:(lia) ltac:(reflexivity) Hfails ltac:(reflexivity)
                Herr Hok) as Hrun.
  cbv zeta in Hrun.
  destruct Hrun as [Htr [Hsent [last' [resp' [Hres [_ [Hsome Hresp]]]]]]].
  split; [exact Htr | split; [exact Hsent | ] ].
  intros Hall fuel loop.
  destruct (Hsome ltac:(lia)) as [status Hlast]. subst last'.
  rewrite (Hresp Hall) in Hres.
  subst loop fetched. unfold run_outcome, run_state. fold rq in Hres.
  destruct (history_fetch b 5 rq 0 0 None resp0 st) as [o st1] eqn:Efetch.
  simpl in Hres. subst o.
  rewrite (while_loop_break _ _ fuel _ _ _ _ eq_refl
             (history_round_gives_up b on_yield _ _ _ _ _ _ _ _ Efetch)).
  split; reflexivity.
Qed.

Lemma history_retry_backoff_witness :
  let rq := history_request [] (JStr "x") [("continuation", JStr "H0")] in
  let st := Demo.logged_in_client in
  let fetched :=
    run_state
      (history_fetch Demo.failing_history_site 5 rq 0 0 None JNull) st in
  transcript fetched
  = [EvRequest rq (Err (HTTPError 503)); EvSleep 2;
     EvRequest rq (Err (HTTPError 503)); EvSleep 4;
     EvRequest rq (Err (HTTPError 503)); EvSleep 8;
     EvRequest rq (Err (HTTPError 503)); EvSleep 16;
     EvRequest rq (Err (HTTPError 503))]
  /\ sent fetched = 5%nat
  /\ (5%nat = 5%nat ->
      forall fuel,
        let loop :=
          while_loop (S fuel) (fun _ => true)
            ([("continuation", JStr "H0")], JStr "x", JNull)
            (history_round Demo.failing_history_site
               (fun _ => Ok tt) []) in
        run_outcome loop st
        = Done ([("continuation", JStr "H0")], JStr "x", JNull)
        /\ transcript (run_state loop st)
           = (transcript fetched
              ++ [EvLog "debug" "Caught HTTP error: %s, text: %s"])%list).
Proof.
  apply (history_retry_backoff Demo.failing_history_site
           (fun _ => Ok tt) [] [("continuation", JStr "H0")] (JStr "x") JNull
           Demo.logged_in_client 5).
  - lia.
  - intros i _. exists 503. reflexivity.
  - intros Hlt. lia.
Defined.


(* ================================================================== *)
(** ** What [remove_video_ids_from_history] deletes *)

Section Deletions.

Context {H : Helpers} (b : backend).

Lemma bind_lift_ok {A B} (a : A) (k : A -> M B) st :
  bind (lift (Ok a)) k st = k a st.
Proof. reflexivity. Qed.

Lemma bind_lift_err {A B} (e : exn) (k : A -> M B) st :
  bind (lift (Err e)) k st = (Raised e, st).
Proof. reflexivity. Qed.

Lemma download_page_soup_run url st :
  _download_page_soup b url st =
  (match page_reply b (sent st) with
   | Ok v => Done v
   | Err e => Raised e
   end,
   {| logged_in := logged_in st; cj := cj st; rsvi_cache := rsvi_cache st;
      sent := S (sent st);
      transcript := transcript st ++ [EvPage url (page_reply b (sent st))] |}).
Proof.
  unfold _download_page_soup, bind, count_request, record, lift. simpl.
  destruct (page_reply b (sent st)); reflexivity.
Qed.

Lemma bind_download_page {B} rq (k : json -> M B) st :
  bind (_download_page b rq) k st =
  let st1 :=
    {| logged_in := logged_in st; cj := cj st; rsvi_cache := rsvi_cache st;
       sent := S (sent st);
       transcript := transcript st ++ [EvRequest rq (json_reply b (sent st))] |}
  in
  match json_reply b (sent st) with
  | Ok v => k v st1
  | Err e => (Raised e, st1)
  end.
Proof.
  unfold bind at 1. rewrite download_page_run.
  destruct (json_reply b (sent st)); reflexivity.
Qed.

Lemma bind_download_page_soup {B} url (k : soup -> M B) st :
  bind (_download_page_soup b url) k st =
  let st1 :=
    {| logged_in := logged_in st; cj := cj st; rsvi_cache := rsvi_cache st;
       sent := S (sent st);
       transcript := transcript st ++ [EvPage url (page_reply b (sent st))] |}
  in
  match page_reply b (sent st) with
  | Ok v => k v st1
  | Err e => (Raised e, st1)
  end.
Proof.
  unfold bind at 1. rewrite download_page_soup_run.
  destruct (page_reply b (sent st)); reflexivity.
Qed.

(** One round of the deletion loop: it fails before it has sent anything,
    or it sends one request to [service_ajax] and, when it completes, adds
    to [codes] whether the reply said SUCCESS. *)
Lemma delete_entry_cases ytcfg headers entry codes st :
  let r := delete_entry b ytcfg headers entry codes st in
  exists tr,
    transcript (snd r) = (transcript st ++ tr)%list
    /\ yields tr = []
    /\ ((service_posts tr = [] /\ forall c, fst r <> Done c)
        \/ exists rq reply,
             service_posts tr = [(rq, reply)]
             /\ deletion_post ytcfg headers entry = Some rq
             /\ forall c, fst r = Done c ->
                          c = Next (codes ++ [reply_success reply])%list).
Proof.
  assert (Hpost : forall sej csn tok,
            walk entry [K "videoRenderer"; K "menu"; K "menuRenderer";
                        K "topLevelButtons"; At 0; K "buttonRenderer";
                        K "serviceEndpoint"] = Ok sej ->
            getitem ytcfg (K "EVENT_ID") = Ok csn ->
            getitem ytcfg (K "XSRF_TOKEN") = Ok tok ->
            deletion_post ytcfg headers entry
            = Some (deletion_request headers sej csn tok)).
  { intros sej csn tok E1 E2 E3. unfold deletion_post.
    rewrite E1, E2, E3. reflexivity. }
  unfold delete_entry.
  destruct (walk entry _) as [sej | e] eqn:Esej;
    [rewrite bind_lift_ok | rewrite bind_lift_err].
  2: { exists []. simpl. rewrite app_nil_r.
       repeat split. left. split; [reflexivity | discriminate]. }
  destruct (getitem ytcfg (K "EVENT_ID")) as [csn | e] eqn:Ecsn;
    [rewrite bind_lift_ok | rewrite bind_lift_err].
  2: { exists []. simpl. rewrite app_nil_r.
       repeat split. left. split; [reflexivity | discriminate]. }
  destruct (getitem ytcfg (K "XSRF_TOKEN")) as [tok | e] eqn:Etok;
    [rewrite bind_lift_ok | rewrite bind_lift_err].
  2: { exists []. simpl. rewrite app_nil_r.
       repeat split. left. split; [reflexivity | discriminate]. }
  rewrite bind_download_page. cbv zeta.
  exists [EvRequest (deletion_request headers sej csn tok)
            (json_reply b (sent st))].
  destruct (json_reply b (sent st)) as [resp | e] eqn:Ereply.
  - destruct (getitem resp (K "code")) as [code | e] eqn:Ecode;
      [rewrite bind_lift_ok | rewrite bind_lift_err].
    + simpl. repeat split. right.
      exists (deletion_request headers sej csn tok), (Ok resp).
      split; [reflexivity | ].
      split; [exact (Hpost _ _ _ eq_refl eq_refl eq_refl) | ].
      intros c Hc. injection Hc as <-. simpl. rewrite Ecode. reflexivity.
    + simpl. repeat split. right.
      exists (deletion_request headers sej csn tok), (Ok resp).
      split; [reflexivity | ].
      split; [exact (Hpost _ _ _ eq_refl eq_refl eq_refl) | discriminate].
  - simpl. repeat split. right.
    exists (deletion_request headers sej csn tok), (Err e).
    split; [reflexivity | ].
    split; [exact (Hpost _ _ _ eq_refl eq_refl eq_refl) | discriminate].
Qed.

Lemma deletion_loop ytcfg headers :
  forall entries codes st,
    let r := for_each entries codes (delete_entry b ytcfg headers) st in
    exists tr,
      transcript (snd r) = (transcript st ++ tr)%list
      /\ yields tr = []
      /\ (length (service_posts tr) <= length entries)%nat
      /\ map Some (map fst (service_posts tr))
         = map (deletion_post ytcfg headers)
             (firstn (length (service_posts tr)) entries)
      /\ forall codes',
           fst r = Done codes' ->
           length (service_posts tr) = length entries
           /\ codes' = (codes
                        ++ map reply_success (map snd (service_posts tr)))%list.
Proof.
  induction entries as [ | entry entries IH]; intros codes st r.
  - exists []. subst r. simpl. rewrite !app_nil_r.
    split; [reflexivity | split; [reflexivity | split; [lia | ] ] ].
    split; [reflexivity | ].
    intros codes' Hc. injection Hc as <-. split; reflexivity.
  - subst r. simpl for_each.
    pose proof (delete_entry_cases ytcfg headers entry codes st) as Hstep.
    cbv zeta in Hstep. unfold bind.
    destruct (delete_entry b ytcfg headers entry codes st) as [o st1].
    simpl in Hstep. destruct Hstep as [tr1 [Etr1 [Hy1 Hcases]]].
    destruct Hcases as [[Hnone Hnot] | [rq [reply [Hone [Hrq Hdone]]]]].
    + exists tr1. destruct o as [c | e | e | ]; simpl;
        try (split; [exact Etr1 | split; [exact Hy1 | ] ];
             rewrite Hnone; simpl;
             split; [lia | split; [reflexivity | discriminate]]).
      exfalso. apply (Hnot c). reflexivity.
    + destruct o as [c | e | e | ]; simpl;
        try (exists tr1; split; [exact Etr1 | split; [exact Hy1 | ] ];
             rewrite Hone; simpl;
             split; [lia | split; [rewrite Hrq; reflexivity | discriminate]]).
      rewrite (Hdone c eq_refl).
      specialize (IH (codes ++ [reply_success reply])%list st1).
      cbv zeta in IH. destruct IH as [tr2 [Etr2 [Hy2 [Hlen [Hposts Hall]]]]].
      exists (tr1 ++ tr2)%list.
      split; [rewrite Etr2, Etr1, app_assoc; reflexivity | ].
      split; [rewrite yields_app, Hy1, Hy2; reflexivity | ].
      rewrite service_posts_app, Hone. simpl.
      split; [lia | ].
      split; [rewrite Hrq, Hposts; reflexivity | ].
      intros codes' Hc. destruct (Hall codes' Hc) as [Hl Heq].
      split; [lia | ]. rewrite Heq, <- app_assoc. reflexivity.
Qed.

Lemma consume_done {B} (g : generator) fuel (check : json -> result B)
  st items st' :
  consume g fuel check st = (Done items, st') -> items = yields (added st st').
Proof.
  unfold consume, added.
  destruct (g fuel _ st) as [[a | e | e | ] st1]; intros E; try discriminate E.
  injection E as <- <-. reflexivity.
Qed.

Lemma forallb_map {A B} (f : B -> bool) (g : A -> B) (l : list A) :
  forallb f (map g l) = forallb (fun x => f (g x)) l.
Proof. induction l as [ | x l IH]; simpl; [ | rewrite IH]; reflexivity. Qed.

Lemma history_browse_only fuel video_ids :
  respects (extends browse_only)
    (consume (get_history_info b) fuel (in_video_ids video_ids)).
Proof. resp_with method_step. Qed.

(** What the method has done by the time it ends, in whatever way. *)
Definition deletions_match (st : client) (video_ids : list string)
  (tr : list event) (o : outcome bool) : Prop :=
  let entries := filter (selected video_ids) (yields tr) in
  let posts := service_posts tr in
  (video_ids = [] -> tr = [])
  /\ (length posts <= length entries)%nat
  /\ (posts = []
      \/ exists content ytcfg headers,
           page_reply b (sent st) = Ok content
           /\ find_ytcfg content = Ok ytcfg
           /\ ytcfg_headers ytcfg = Ok headers
           /\ map Some (map fst posts)
              = map (deletion_post ytcfg headers)
                  (firstn (length posts) entries))
  /\ forall v, o = Done v ->
        length posts = length entries
        /\ v = match entries with
               | [] => false
               | _ :: _ => forallb reply_success (map snd posts)
               end.

Lemma remove_video_ids_run fuel video_ids st :
  exists tr,
    transcript (run_state (remove_video_ids_from_history b fuel video_ids) st)
    = (transcript st ++ tr)%list
    /\ deletions_match st video_ids tr
         (run_outcome (remove_video_ids_from_history b fuel video_ids) st).
Proof.
  unfold run_state, run_outcome, remove_video_ids_from_history.
  assert (Hquiet : forall tr (o : outcome bool),
             service_posts tr = [] -> (forall v, o <> Done v) ->
             video_ids <> [] \/ tr = [] ->
             deletions_match st video_ids tr o).
  { intros tr o Hp Hno Hids. unfold deletions_match. rewrite Hp.
    split; [intros E; destruct Hids; [contradiction | assumption] | ].
    split; [simpl; lia | ]. split; [left; reflexivity | ]. intros v Hv. exfalso. exact (Hno v Hv). }
  destruct (logged_in st) eqn:Hin.
  2: { rewrite (require_login_denied _ _ Hin). exists []. simpl.
       rewrite app_nil_r. split; [reflexivity | ].
       apply Hquiet; [reflexivity | discriminate | right; reflexivity]. }
  rewrite (require_login_granted _ _ Hin).
  destruct video_ids as [ | id video_ids].
  { exists []. simpl. rewrite app_nil_r. split; [reflexivity | ].
    unfold deletions_match. simpl. split; [reflexivity | split; [lia | ] ].
    split; [left; reflexivity | ].
    intros v Hv. simpl in Hv. injection Hv as <-. split; reflexivity. }
  assert (Hids : id :: video_ids <> [] \/ (@nil event) = []) by (left; discriminate).
  rewrite bind_download_page_soup. cbv zeta.
  set (page := EvPage HISTORY_URL (page_reply b (sent st))).
  set (st1 := {| logged_in := logged_in st; cj := cj st;
                 rsvi_cache := rsvi_cache st; sent := S (sent st);
                 transcript := transcript st ++ [page] |}).
  assert (Hstop : forall (o : outcome bool),
             (forall v, o <> Done v) ->
             exists tr,
               transcript (snd (o, st1)) = (transcript st ++ tr)%list
               /\ deletions_match st (id :: video_ids) tr (fst (o, st1))).
  { intros o Hno. exists [page]. split; [reflexivity | ].
    apply Hquiet; [reflexivity | exact Hno | left; discriminate]. }
  destruct (page_reply b (sent st)) as [content | e] eqn:Epage;
    [ | apply Hstop; discriminate].
  destruct (find_ytcfg content) as [ytcfg | e] eqn:Eytcfg;
    [rewrite bind_lift_ok | rewrite bind_lift_err; apply Hstop; discriminate].
  destruct (ytcfg_headers ytcfg) as [headers | e] eqn:Eheaders;
    [rewrite bind_lift_ok | rewrite bind_lift_err; apply Hstop; discriminate].
  pose proof (history_browse_only fuel (id :: video_ids) st1) as Hext.
  unfold run_state in Hext. cbv beta zeta. unfold bind.
  destruct (consume (get_history_info b) fuel (in_video_ids (id :: video_ids))
              st1) as [o2 st2] eqn:E2.
  simpl in Hext. destruct Hext as [tr2 [Etr2 Hbrowse]].
  assert (Etr : transcript st2 = (transcript st ++ page :: tr2)%list).
  { rewrite Etr2. subst st1. simpl. rewrite <- app_assoc. reflexivity. }
  assert (Hposts2 : service_posts (page :: tr2) = []).
  { apply service_posts_browse_only. constructor; [exact I | exact Hbrowse]. }
  destruct o2 as [items | e | e | ];
    try (exists (page :: tr2); split; [exact Etr | ];
         apply Hquiet; [exact Hposts2 | discriminate | left; discriminate]).
  assert (Hitems : items = yields (page :: tr2)).
  { rewrite (consume_done _ _ _ _ _ _ E2), (added_app _ _ _ Etr2).
    reflexivity. }
  destruct (filter (selected (id :: video_ids)) items) as [ | entry entries]
    eqn:Efilter.
  { exists (page :: tr2). split; [exact Etr | ].
    unfold deletions_match. rewrite Hposts2, <- Hitems, Efilter. simpl.
    split; [discriminate | split; [lia | ] ].
    split; [left; reflexivity | ].
    intros v Hv. injection Hv as <-. split; reflexivity. }
  pose proof (deletion_loop ytcfg headers (entry :: entries) [] st2) as Hloop.
  cbv zeta in Hloop.
  destruct (for_each (entry :: entries) [] (delete_entry b ytcfg headers) st2)
    as [o3 st3].
  simpl in Hloop.
  destruct Hloop as [tr3 [Etr3 [Hy3 [Hlen3 [Hposts3 Hall3]]]]].
  assert (Hcontent :
    service_posts tr3 = []
    \/ exists content ytcfg headers,
         page_reply b (sent st) = Ok content
         /\ find_ytcfg content = Ok ytcfg
         /\ ytcfg_headers ytcfg = Ok headers
         /\ map Some (map fst (service_posts tr3))
            = map (deletion_post ytcfg headers)
                (firstn (length (service_posts tr3)) (entry :: entries))).
  { right. exists content, ytcfg, headers.
    split; [exact Epage | ]. split; [exact Eytcfg | ].
    split; [exact Eheaders | exact Hposts3]. }
  exists (page :: tr2 ++ tr3)%list.
  assert (Eall : transcript st3 = (transcript st ++ page :: tr2 ++ tr3)%list).
  { rewrite Etr3, Etr, <- app_assoc. reflexivity. }
  assert (Hy : yields (page :: tr2 ++ tr3) = items).
  { change (page :: tr2 ++ tr3)%list with ((page :: tr2) ++ tr3)%list.
    rewrite yields_app, Hy3, app_nil_r. symmetry. exact Hitems. }
  assert (Hp : service_posts (page :: tr2 ++ tr3) = service_posts tr3).
  { change (page :: tr2 ++ tr3)%list with ((page :: tr2) ++ tr3)%list.
    rewrite service_posts_app, Hposts2. reflexivity. }
  destruct o3 as [codes | e | e | ]; simpl;
    (split; [exact Eall | ]);
    unfold deletions_match; rewrite Hy, Hp, Efilter;
    (split; [discriminate | split; [exact Hlen3 | ] ]);
    (split; [exact Hcontent | ]);
    try discriminate.
  intros v Hv. injection Hv as <-.
  destruct (Hall3 codes eq_refl) as [Hl Hc]. split; [exact Hl | ].
  rewrite Hc. simpl app. rewrite forallb_map. reflexivity.
Qed.

End Deletions.

(** X2: [remove_video_ids_from_history] sends nothing at all when
    [video_ids] is empty.  Whatever way it ends, the deletion requests it
    has sent (the requests to [service_ajax]) are, in order, those of the
    first of the history entries it was given by [get_history_info] whose
    videoId is in [video_ids]: each is the POST that carries the service
    end point of that entry, with the event id, the XSRF token and the
    headers of the configuration of the document the call fetched.  When
    it returns a value, it has sent the deletion request of every one of
    these entries, once, and the value is False when there was none, and
    otherwise True if and only if the reply to every one of them had the
    code SUCCESS. *)
Theorem remove_video_ids_from_history_deletions
  {H : Helpers} (b : backend) (fuel : nat) (video_ids : list string)
  (st : client) :
  exists tr,
    transcript (run_state (remove_video_ids_from_history b fuel video_ids) st)
    = (transcript st ++ tr)%list
    /\ let entries := filter (selected video_ids) (yields tr) in
       let posts := service_posts tr in
       (video_ids = [] -> tr = [])
       /\ (length posts <= length entries)%nat
       /\ (posts = []
           \/ exists content ytcfg headers,
                page_reply b (sent st) = Ok content
                /\ find_ytcfg content = Ok ytcfg
                /\ ytcfg_headers ytcfg = Ok headers
                /\ map Some (map fst posts)
                   = map (deletion_post ytcfg headers)
                       (firstn (length posts) entries))
       /\ forall v,
            run_outcome (remove_video_ids_from_history b fuel video_ids) st
            = Done v ->
            length posts = length entries
            /\ v = match entries with
                   | [] => false
                   | _ :: _ => forallb reply_success (map snd posts)
                   end.
Proof. exact (remove_video_ids_run b fuel video_ids st). Qed.

(** A run: two of the three entries of the history are of the video asked
    for; two deletion requests go out and the call returns True. *)
Example remove_video_ids_from_history_run :
  let r :=
    remove_video_ids_from_history (H := Demo.helpers) Demo.history_site 3
      ["h1"] Demo.logged_in_client in
  fst r = Done true
  /\ yields (transcript (snd r))
     = [Demo.history_video "h1"; Demo.history_video "h2";
        Demo.history_video "h1"]
  /\ length (service_posts (transcript (snd r))) = 2%nat
  /\ sent (snd r) = 5%nat.
Proof. vm_compute. repeat split. Qed.

(* ================================================================== *)
(** ** No request without the session cookie *)

Section Unsigned.

Context {H : Helpers} (b : backend).

Lemma find_sapisid_none jar :
  Forall (fun c => named_sapisid c = false) jar -> find_sapisid jar = None.
Proof.
  induction 1 as [ | c jar Hc _ IH]; [reflexivity | ].
  simpl. unfold named_sapisid in Hc. rewrite Hc. exact IH.
Qed.

Lemma without_secret_authorization {B} (k : string -> M B) :
  respects without_secret (bind (_authorization_sapisidhash_header b) k).
Proof.
  intros st E. unfold run_state, bind.
  rewrite authorization_run, E. simpl.
  split; [exact E | apply extends_refl].
Qed.

Ltac unsigned_with tac :=
  resp_with ltac:(first
    [ lazymatch goal with
      | |- respects _ (bind (_authorization_sapisidhash_header _) _) =>
          apply without_secret_authorization
      | |- respects _ (bind (bind _ _) _) => apply respects_assoc
      | |- respects _ (bind (ret _) _) =>
          apply respects_ret_bind; cbv beta iota
      end
    | tac
    | method_step ]).

Lemma unsigned_single_feedback_api_call ytcfg token ctp api_url :
  respects without_secret
    (_single_feedback_api_call b ytcfg token ctp api_url).
Proof. unfold _single_feedback_api_call. unsigned_with fail. Qed.

Lemma unsigned_perform fuel on_yield op :
  signed_call op = true ->
  respects without_secret (perform b fuel on_yield op).
Proof.
  intros Hop. unfold perform, call.
  destruct op; try discriminate Hop;
    unfold remove_video_id_from_playlist, toggle_search_history,
      toggle_watch_history, _toggle_history, delete_community_entry,
      clear_search_history;
    unsigned_with ltac:(apply unsigned_single_feedback_api_call).
Qed.

End Unsigned.

(** X3: the methods that sign their request ([remove_video_id_from_playlist],
    [toggle_search_history], [toggle_watch_history],
    [delete_community_entry], [clear_search_history]) send no request when
    the jar has no cookie named SAPISID or __Secure-3PAPISID: the header is
    computed, and its assertion fails, before the request is made.  Only
    the page may have been fetched. *)
Theorem no_request_without_session_cookie
  {H : Helpers} (b : backend) (fuel : nat) (on_yield : json -> result unit)
  (op : operation) (st : client) :
  signed_call op = true ->
  Forall (fun c => named_sapisid c = false) (cj st) ->
  exists tr,
    transcript (run_state (perform b fuel on_yield op) st)
    = (transcript st ++ tr)%list
    /\ Forall (fun ev => is_request ev = false) tr.
Proof.
  intros Hop Hjar.
  destruct (unsigned_perform b fuel on_yield op Hop st
              (find_sapisid_none _ Hjar)) as [_ Hext].
  exact Hext.
Qed.

Lemma no_request_without_session_cookie_witness :
  exists tr,
    transcript
      (run_state
         (perform (H := Demo.helpers) Demo.quiet 2 (fun _ => Ok tt)
            OpToggleWatchHistory) (init [] true))
    = (transcript (init [] true) ++ tr)%list
    /\ Forall (fun ev => is_request ev = false) tr.
Proof.
  apply (no_request_without_session_cookie (H := Demo.helpers) Demo.quiet 2
           (fun _ => Ok tt) OpToggleWatchHistory (init [] true)).
  - reflexivity.
  - constructor.
Defined.

(* ================================================================== *)
(** ** An HTTP error ends the call *)

Section Propagation.

Context {H : Helpers} (b : backend).

(** Request number [i] of the session fails with the HTTP error [c],
    whichever way it is made. *)
Variable i : nat.
Variable c : Z.
Hypothesis page_fails : page_reply b i = Err (HTTPError c).
Hypothesis json_fails : json_reply b i = Err (HTTPError c).

(** If [m] makes request number [i], it ends there, raising the error. *)
Definition propagates {A} (m : M A) : Prop :=
  forall st,
    (sent st <= i < sent (run_state m st))%nat ->
    run_outcome m st = Raised (HTTPError c)
    /\ sent (run_state m st) = S i.

Lemma propagates_silent {A} (m : M A) :
  respects same_sent m -> propagates m.
Proof.
  intros Hm st Hi. specialize (Hm st). unfold same_sent in Hm. lia.
Qed.

Lemma propagates_bind {A B} (m : M A) (k : A -> M B) :
  propagates m -> (forall a, propagates (k a)) -> propagates (bind m k).
Proof.
  intros Hm Hk st. specialize (Hm st).
  unfold run_state, run_outcome, bind in *.
  destruct (m st) as [[a | e | e | ] st1]; simpl in *;
    try (intros Hi; destruct (Hm Hi) as [Habs Hs];
         first [ discriminate Habs
               | injection Habs as ->; split; [reflexivity | exact Hs] ]).
  intros Hi. destruct (Nat.lt_ge_cases i (sent st1)) as [Hlt | Hge].
  - destruct (Hm ltac:(lia)) as [Habs _]. discriminate Habs.
  - apply (Hk a st1). unfold run_state. lia.
Qed.

Lemma propagates_download_page rq : propagates (_download_page b rq).
Proof.
  intros st. unfold run_state, run_outcome. rewrite download_page_run. simpl.
  intros Hi. assert (i = sent st) by lia. subst i.
  rewrite json_fails. split; reflexivity.
Qed.

Lemma propagates_download_page_soup url :
  propagates (_download_page_soup b url).
Proof.
  intros st. unfold run_state, run_outcome. rewrite download_page_soup_run.
  simpl. intros Hi. assert (i = sent st) by lia. subst i.
  rewrite page_fails. split; reflexivity.
Qed.

Lemma propagates_try_except {A} (m : M A) (h : exn -> option (M A)) :
  propagates m ->
  (forall c', h (HTTPError c') = None) ->
  (forall e m', h e = Some m' -> propagates m') ->
  propagates (try_except m h).
Proof.
  intros Hm Hnone Hh st. specialize (Hm st).
  unfold run_state, run_outcome, try_except in *.
  destruct (m st) as [[a | e | e | ] st1]; simpl in *; try exact Hm.
  destruct (h e) as [m' | ] eqn:Ehe; simpl; [ | exact Hm].
  intros Hi. destruct (Nat.lt_ge_cases i (sent st1)) as [Hlt | Hge].
  - destruct (Hm ltac:(lia)) as [Habs _]. injection Habs as ->.
    rewrite Hnone in Ehe. discriminate Ehe.
  - apply (Hh e m' Ehe st1). unfold run_state. lia.
Qed.

Lemma propagates_consume {B} (g : generator) fuel (check : json -> result B) :
  (forall on_yield, propagates (g fuel on_yield)) ->
  propagates (consume g fuel check).
Proof.
  intros Hg st. specialize (Hg (fun x => rbind (check x) (fun _ => Ok tt)) st).
  unfold run_state, run_outcome, consume in *.
  destruct (g fuel _ st) as [[a | e | e | ] st1]; simpl in *;
    intros Hi; destruct (Hg Hi) as [Habs Hs]; try discriminate Habs.
  injection Habs as ->. split; [reflexivity | exact Hs].
Qed.

(** [r = attempt m] followed by code that raises again what it does not
    handle, HTTP errors among it. *)
Lemma propagates_attempt_bind {A B} (m : M A) (k : result A -> M B) :
  propagates m ->
  (forall r, propagates (k r)) ->
  (forall c' st, k (Err (HTTPError c')) st = (Raised (HTTPError c'), st)) ->
  propagates (bind (attempt m) k).
Proof.
  intros Hm Hk Hraise st. specialize (Hm st).
  unfold run_state, run_outcome, bind, attempt in *.
  destruct (m st) as [[a | e | e | ] st1]; simpl in *.
  - intros Hi. destruct (Nat.lt_ge_cases i (sent st1)) as [Hlt | Hge].
    + destruct (Hm ltac:(lia)) as [Habs _]. discriminate Habs.
    + apply (Hk (Ok a) st1). unfold run_state. lia.
  - intros Hi. destruct (Nat.lt_ge_cases i (sent st1)) as [Hlt | Hge].
    + destruct (Hm ltac:(lia)) as [Habs Hs]. injection Habs as ->.
      rewrite Hraise. simpl. split; [reflexivity | exact Hs].
    + apply (Hk (Err e) st1). unfold run_state. lia.
  - intros Hi. destruct (Hm Hi) as [Habs _]. discriminate Habs.
  - intros Hi. destruct (Hm Hi) as [Habs _]. discriminate Habs.
Qed.

Lemma propagates_for_each {S} (l : list json) (body : json -> S -> M (ctl S)) :
  (forall x s, propagates (body x s)) ->
  forall s, propagates (for_each l s body).
Proof.
  intros Hb. induction l as [ | x l IH]; intros s; simpl.
  - apply propagates_silent. resp.
  - apply propagates_bind; [apply Hb | ].
    intros [s' | s']; [apply IH | apply propagates_silent; resp].
Qed.

Lemma propagates_while_loop {S} (cond : S -> bool) (body : S -> M (ctl S)) :
  (forall s, propagates (body s)) ->
  forall fuel s, propagates (while_loop fuel cond s body).
Proof.
  intros Hb. induction fuel as [ | fuel IH]; intros s; simpl.
  - destruct (cond s); apply propagates_silent; resp.
  - destruct (cond s); [ | apply propagates_silent; resp].
    apply propagates_bind; [apply Hb | ].
    intros [s' | s']; [apply IH | apply propagates_silent; resp].
Qed.

Ltac prop_with tac :=
  repeat first
    [ match goal with
      | |- forall e m', _ = Some m' -> propagates m' =>
          let e := fresh "e" in
          let E := fresh "E" in
          intros e ? E; destruct e; simpl in E; try discriminate E;
          injection E as <-
      end
    | progress intros
    | tac
    | lazymatch goal with
      | |- propagates (bind (attempt _) _) =>
          apply propagates_attempt_bind; [ | | reflexivity]
      | |- propagates (bind _ _) => apply propagates_bind
      | |- propagates (try_except _ _) =>
          apply propagates_try_except; [ | reflexivity | ]
      | |- propagates (for_each _ _ _) => apply propagates_for_each
      | |- propagates (while_loop _ _ _ _) => apply propagates_while_loop
      | |- propagates (consume _ _ _) => apply propagates_consume
      | |- propagates (_download_page _ _) => apply propagates_download_page
      | |- propagates (_download_page_soup _ _) =>
          apply propagates_download_page_soup
      | |- propagates (match ?x with _ => _ end) => destruct x
      | |- propagates _ =>
          solve [apply propagates_silent; resp_with method_step]
      end ].

Lemma propagates_get_playlist_info playlist_id fuel on_yield :
  propagates (get_playlist_info b playlist_id fuel on_yield).
Proof.
  unfold get_playlist_info, playlist_round, playlist_first_items.
  prop_with fail.
Qed.

Lemma propagates_community_history only_first_page fuel on_yield :
  propagates (_community_history b only_first_page fuel on_yield).
Proof.
  unfold _community_history, community_round, community_fetch.
  prop_with fail.
Qed.

Lemma propagates_remove_video_id_from_playlist
  playlist_id video_id cache_values :
  propagates
    (remove_video_id_from_playlist b playlist_id video_id cache_values).
Proof. unfold remove_video_id_from_playlist. prop_with fail. Qed.

Lemma propagates_clear_watch_history : propagates (clear_watch_history b).
Proof. unfold clear_watch_history. prop_with fail. Qed.

Lemma propagates_clear_playlist fuel playlist_id :
  propagates (clear_playlist b fuel playlist_id).
Proof.
  unfold clear_playlist.
  prop_with ltac:(idtac;
    lazymatch goal with
    | |- propagates (get_playlist_info _ _ _ _) =>
        apply propagates_get_playlist_info
    | |- propagates (remove_video_id_from_playlist _ _ _ _) =>
        apply propagates_remove_video_id_from_playlist
    end).
Qed.

Lemma propagates_single_feedback_api_call ytcfg token ctp api_url :
  propagates (_single_feedback_api_call b ytcfg token ctp api_url).
Proof. unfold _single_feedback_api_call. prop_with fail. Qed.

Lemma propagates_toggle_history page_url contents_index :
  propagates (_toggle_history b page_url contents_index).
Proof.
  unfold _toggle_history.
  prop_with ltac:(idtac;
    lazymatch goal with
    | |- propagates (_single_feedback_api_call _ _ _ _ _) =>
        apply propagates_single_feedback_api_call
    end).
Qed.

Lemma propagates_delete_community_entry action api_url ytcfg :
  propagates (delete_community_entry b action api_url ytcfg).
Proof. unfold delete_community_entry. prop_with fail. Qed.

Lemma propagates_clear_search_history : propagates (clear_search_history b).
Proof.
  unfold clear_search_history.
  prop_with ltac:(idtac;
    lazymatch goal with
    | |- propagates (_single_feedback_api_call _ _ _ _ _) =>
        apply propagates_single_feedback_api_call
    end).
Qed.

Lemma propagates_assoc {A B C} (m : M A) (k : A -> M B) (k' : B -> M C) :
  propagates (bind m (fun a => bind (k a) k')) ->
  propagates (bind (bind m k) k').
Proof.
  intros Hm st. specialize (Hm st). unfold run_state, run_outcome in *.
  rewrite bind_assoc. exact Hm.
Qed.

Lemma propagates_ret_bind {A B} (a : A) (k : A -> M B) :
  propagates (k a) -> propagates (bind (ret a) k).
Proof. intros Hk st. exact (Hk st). Qed.

Lemma propagates_perform fuel on_yield op :
  op <> OpLogin -> walks_history op = false ->
  propagates (perform b fuel on_yield op).
Proof.
  intros Hop Hwalk. unfold perform, call.
  destruct op; try congruence; try discriminate Hwalk;
    unfold clear_watch_later, toggle_search_history, toggle_watch_history,
      community_history;
    prop_with ltac:(idtac;
      lazymatch goal with
      | |- propagates (bind (bind _ _) _) => apply propagates_assoc
      | |- propagates (bind (ret _) _) =>
          apply propagates_ret_bind; cbv beta iota
      | |- propagates (get_playlist_info _ _ _ _) =>
          apply propagates_get_playlist_info
      | |- propagates (_community_history _ _ _ _) =>
          apply propagates_community_history
      | |- propagates (remove_video_id_from_playlist _ _ _ _) =>
          apply propagates_remove_video_id_from_playlist
      | |- propagates (clear_watch_history _) =>
          apply propagates_clear_watch_history
      | |- propagates (clear_playlist _ _ _) =>
          apply propagates_clear_playlist
      | |- propagates (_toggle_history _ _ _) =>
          apply propagates_toggle_history
      | |- propagates (delete_community_entry _ _ _ _) =>
          apply propagates_delete_community_entry
      | |- propagates (clear_search_history _) =>
          apply propagates_clear_search_history
      end).
Qed.

End Propagation.

(** X4: outside [get_history_info] no request is made a second time.  In
    every public method other than [login], [get_history_info] and
    [remove_video_ids_from_history]: when a request of the call fails with
    an HTTP error, the call ends there and raises that error; the failed
    request is the last one it has made. *)
Theorem http_error_ends_the_call
  {H : Helpers} (b : backend) (fuel : nat) (on_yield : json -> result unit)
  (op : operation) (st : client) (i : nat) (c : Z) :
  op <> OpLogin ->
  walks_history op = false ->
  page_reply b i = Err (HTTPError c) ->
  json_reply b i = Err (HTTPError c) ->
  (sent st <= i < sent (run_state (perform b fuel on_yield op) st))%nat ->
  run_outcome (perform b fuel on_yield op) st = Raised (HTTPError c)
  /\ sent (run_state (perform b fuel on_yield op) st) = S i.
Proof.
  intros Hop Hwalk Hpage Hjson.
  exact (propagates_perform b i c Hpage Hjson fuel on_yield op Hop Hwalk st).
Qed.

Lemma http_error_ends_the_call_witness :
  run_outcome
    (perform (H := Demo.helpers) (Demo.down_after 1) 2 (fun _ => Ok tt)
       OpClearSearchHistory) Demo.logged_in_client
  = Raised (HTTPError 503)
  /\ sent
       (run_state
          (perform (H := Demo.helpers) (Demo.down_after 1) 2 (fun _ => Ok tt)
             OpClearSearchHistory) Demo.logged_in_client)
     = 2%nat.
Proof.
  apply (http_error_ends_the_call (H := Demo.helpers) (Demo.down_after 1) 2
           (fun _ => Ok tt) OpClearSearchHistory Demo.logged_in_client 1 503).
  - discriminate.
  - reflexivity.
  - reflexivity.
  - reflexivity.
  - vm_compute. lia.
Defined.

(* ================================================================== *)
(** ** The loops that follow continuations *)

Lemma bind_inv {A B} (m : M A) (k : A -> M B) st r st' :
  bind m k st = (Done r, st') ->
  exists a st1, m st = (Done a, st1) /\ k a st1 = (Done r, st').
Proof.
  unfold bind. destruct (m st) as [[a | e | e | ] st1]; try discriminate.
  intros E. exists a, st1. split; [reflexivity | exact E].
Qed.

Lemma lift_inv {A} (r : result A) st a st' :
  lift r st = (Done a, st') -> r = Ok a /\ st' = st.
Proof.
  destruct r; simpl; unfold ret, raise; intros E; inversion E.
  split; reflexivity.
Qed.

Lemma ret_inv {A} (a a' : A) st st' :
  ret a st = (Done a', st') -> a' = a /\ st' = st.
Proof. unfold ret. intros E. inversion E. split; reflexivity. Qed.

(** A property of the loop variables that every round keeps holds of what
    the loop returns. *)
Lemma for_each_keeps {S} (I : S -> Prop) (body : json -> S -> M (ctl S)) :
  (forall x s st c st',
     I s -> body x s st = (Done c, st') -> I (ctl_state c)) ->
  forall l s st s' st',
    I s -> for_each l s body st = (Done s', st') -> I s'.
Proof.
  intros Hbody. induction l as [ | x l IH]; intros s st s' st' Hs E.
  - apply ret_inv in E as [-> _]. exact Hs.
  - simpl in E. apply bind_inv in E as (c & st1 & E1 & E2).
    pose proof (Hbody _ _ _ _ _ Hs E1) as Hc.
    destruct c as [s1 | s1]; simpl in Hc.
    + exact (IH _ _ _ _ Hc E2).
    + apply ret_inv in E2 as [-> _]. exact Hc.
Qed.

Section HoldsFetch.

Context {H : Helpers} (b : backend).

Lemma holds_bind_download_page_soup {B} url (k : soup -> M B) st Q :
  (forall st1,
     sent st1 = S (sent st) ->
     transcript st1
     = (transcript st ++ [EvPage url (page_reply b (sent st))])%list ->
     match page_reply b (sent st) with
     | Ok v => holds (k v) st1 Q
     | Err e => Q (Raised e) st1
     end) ->
  holds (bind (_download_page_soup b url) k) st Q.
Proof.
  intros Hk. unfold holds. rewrite bind_download_page_soup. cbv zeta.
  match goal with
  | |- context [match _ with Ok v => k v ?s | Err _ => _ end] =>
      specialize (Hk s eq_refl eq_refl)
  end.
  destruct (page_reply b (sent st)); exact Hk.
Qed.

Lemma holds_bind_download_page {B} rq (k : json -> M B) st Q :
  (forall st1,
     sent st1 = S (sent st) ->
     transcript st1
     = (transcript st ++ [EvRequest rq (json_reply b (sent st))])%list ->
     match json_reply b (sent st) with
     | Ok v => holds (k v) st1 Q
     | Err e => Q (Raised e) st1
     end) ->
  holds (bind (_download_page b rq) k) st Q.
Proof.
  intros Hk. unfold holds. rewrite bind_download_page. cbv zeta.
  match goal with
  | |- context [match _ with Ok v => k v ?s | Err _ => _ end] =>
      specialize (Hk s eq_refl eq_refl)
  end.
  destruct (json_reply b (sent st)); exact Hk.
Qed.

End HoldsFetch.

Section LoopInvariant.

Variable R : client -> client -> Prop.
Hypothesis R_refl : forall st, R st st.
Hypothesis R_trans : forall st1 st2 st3, R st1 st2 -> R st2 st3 -> R st1 st3.

(** A [while] loop whose rounds respect [R] as long as the loop variables
    satisfy [I], and keep [I], respects [R]. *)
Lemma respects_while_loop_inv {S} (I : S -> Prop) (cond : S -> bool)
  (body : S -> M (ctl S)) :
  (forall s, I s -> respects R (body s)) ->
  (forall s st s' st', I s -> body s st = (Done (Next s'), st') -> I s') ->
  forall fuel s, I s -> respects R (while_loop fuel cond s body).
Proof.
  intros Hresp Hkeep. induction fuel as [ | fuel IH]; intros s Hs st.
  - unfold run_state. simpl. destruct (cond s); apply R_refl.
  - unfold run_state. simpl. destruct (cond s); [ | apply R_refl].
    pose proof (Hresp s Hs st) as Hst. unfold run_state in Hst.
    unfold bind.
    destruct (body s st) as [[[s1 | s1] | e | e | ] st1] eqn:E;
      simpl in Hst |- *; try exact Hst.
    apply R_trans with st1; [exact Hst | ].
    apply (IH s1 (Hkeep _ _ _ _ Hs E) st1).
Qed.

End LoopInvariant.

Section Playlist.

Context {H : Helpers} (b : backend).

(** Once the token and the click-tracking parameters were found in the
    document, reading them again gives the same pair, whatever the loop
    variables hold. *)
Lemma read_continuation_endpoint_stable vlr c i cur :
  read_continuation_endpoint vlr (JNull, JNull) = Ok (c, i) ->
  truthy c && truthy i = true ->
  read_continuation_endpoint vlr cur = Ok (c, i).
Proof.
  unfold read_continuation_endpoint.
  destruct (walk vlr _) as [endpoint | [ | | | | | | ]].
  2-8: try discriminate; intros E; injection E as <- <-; discriminate.
  destruct (walk endpoint _) as [continuation | [ | | | | | | ]].
  2-8: try discriminate; intros E; injection E as <- <-; discriminate.
  destruct (getitem endpoint _) as [itct | [ | | | | | | ]];
    try discriminate; simpl.
  - trivial.
  - intros E. injection E as <- <-. rewrite andb_false_r. discriminate.
Qed.

Lemma respects_only_request rq0 :
  respects (extends (only_request rq0)) (_download_page b rq0).
Proof.
  intros st. unfold run_state. rewrite download_page_run. simpl.
  exists [EvRequest rq0 (json_reply b (sent st))].
  split; [reflexivity | repeat constructor].
Qed.

(** A round of the loop sends the request made of the loop variables and
    nothing else. *)
Lemma playlist_round_one_request on_yield headers vlr s :
  respects (extends (only_request (playlist_request headers (fst s) (snd s))))
    (playlist_round b on_yield headers vlr s).
Proof.
  unfold playlist_round.
  resp_with ltac:(idtac;
    lazymatch goal with
    | |- respects _ (_download_page _ _) => apply respects_only_request
    | _ => method_step
    end).
Qed.

(** A round hands on the loop variables it was given. *)
Lemma playlist_round_keeps on_yield headers vlr c i st r st' :
  read_continuation_endpoint vlr (JNull, JNull) = Ok (c, i) ->
  truthy c && truthy i = true ->
  playlist_round b on_yield headers vlr (c, i) st = (Done r, st') ->
  ctl_state r = (c, i).
Proof.
  intros Hread Htruthy E. unfold playlist_round in E.
  apply bind_inv in E as (contents & st1 & _ & E).
  apply bind_inv in E as (response & st2 & _ & E).
  apply bind_inv in E as (items & st3 & _ & E).
  apply bind_inv in E as (item_list & st4 & _ & E).
  apply bind_inv in E as (s' & st5 & Efor & E).
  apply bind_inv in E as (last & st6 & _ & E).
  apply bind_inv in E as (has_cont & st7 & _ & E).
  assert (Hs' : s' = (c, i)).
  { refine (for_each_keeps (fun s => s = (c, i)) _ _ _ _ _ _ _ eq_refl Efor).
    clear - Hread Htruthy. intros x s st r st' -> E.
    apply bind_inv in E as (is_video & st1 & _ & E).
    destruct is_video.
    - apply bind_inv in E as (u & st2 & _ & E).
      apply ret_inv in E as [-> _]. reflexivity.
    - apply bind_inv in E as (is_cont & st2 & _ & E).
      destruct is_cont.
      + apply bind_inv in E as (s1 & st3 & E1 & E).
        apply lift_inv in E1 as [E1 _].
        rewrite (read_continuation_endpoint_stable _ _ _ _ Hread Htruthy)
          in E1.
        injection E1 as <-.
        apply ret_inv in E as [-> _]. reflexivity.
      + apply ret_inv in E as [-> _]. reflexivity. }
  subst s'.
  destruct (negb has_cont); apply ret_inv in E as [-> _]; reflexivity.
Qed.

Lemma playlist_loop_one_request on_yield headers vlr c i fuel :
  read_continuation_endpoint vlr (JNull, JNull) = Ok (c, i) ->
  truthy c && truthy i = true ->
  respects (extends (only_request (playlist_request headers c i)))
    (while_loop fuel (fun _ => true) (c, i)
       (playlist_round b on_yield headers vlr)).
Proof.
  intros Hread Htruthy.
  apply (respects_while_loop_inv _ (extends_refl _) (extends_trans _)
           (fun s => s = (c, i))).
  - intros s ->. apply (playlist_round_one_request on_yield headers vlr (c, i)).
  - intros s st s' st' -> E.
    exact (playlist_round_keeps _ _ _ _ _ _ _ _ Hread Htruthy E).
  - reflexivity.
Qed.

Lemma extends_weaken (P Q : event -> Prop) st st' :
  (forall ev, P ev -> Q ev) -> extends P st st' -> extends Q st st'.
Proof.
  intros HPQ [tr [E F]]. exists tr. split; [exact E | ].
  revert F. apply Forall_impl. exact HPQ.
Qed.

Lemma only_request_requests rq0 tr :
  Forall (only_request rq0) tr ->
  forall rq, In rq (requests_of tr) -> rq = rq0.
Proof.
  induction 1 as [ | ev tr Hev _ IH]; intros rq Hin; [destruct Hin | ].
  destruct ev; simpl in Hin; try exact (IH rq Hin).
  destruct Hin as [<- | Hin]; [exact Hev | exact (IH rq Hin)].
Qed.

(** Every way out of [get_playlist_info] has sent one request only, though
    possibly many times. *)
Definition one_playlist_request (st : client) (o : outcome unit)
  (st' : client) : Prop :=
  exists headers c i,
    extends (only_request (playlist_request headers c i)) st st'.

Lemma one_playlist_request_quiet st o st' :
  extends non_request st st' -> one_playlist_request st o st'.
Proof.
  intros E. exists [], JNull, JNull.
  revert E. apply extends_weaken. apply non_request_only.
Qed.

Lemma get_playlist_info_one_request playlist_id fuel on_yield st :
  holds (get_playlist_info b playlist_id fuel on_yield) st
    (one_playlist_request st).
Proof.
  unfold get_playlist_info.
  apply holds_bind_login. destruct (logged_in st);
    [ | apply one_playlist_request_quiet, extends_refl].
  eapply (holds_bind_respects (extends non_request));
    [resp_with method_step | ].
  intros [content | e | e | ] st1 E1; cbn [on_exit];
    try (apply one_playlist_request_quiet; exact E1).
  apply holds_bind_lift. destruct (find_ytcfg content) as [ytcfg | e];
    [ | apply one_playlist_request_quiet; exact E1].
  apply holds_bind_lift. destruct (ytcfg_headers ytcfg) as [headers | e];
    [ | apply one_playlist_request_quiet; exact E1].
  apply holds_bind_lift. destruct (initial_data content) as [data | e];
    [ | apply one_playlist_request_quiet; exact E1].
  eapply (holds_bind_respects (extends non_request));
    [resp_with method_step | ].
  intros [vlr | e | e | ] st2 E2; cbn [on_exit];
    pose proof (extends_trans _ _ _ _ E1 E2) as E12;
    try (apply one_playlist_request_quiet; exact E12).
  eapply (holds_bind_respects (extends non_request));
    [resp_with method_step | ].
  intros [[] | e | e | ] st3 E3; cbn [on_exit];
    pose proof (extends_trans _ _ _ _ E12 E3) as E13;
    try (apply one_playlist_request_quiet; exact E13).
  eapply (holds_bind_respects (extends non_request));
    [resp_with method_step | ].
  intros [[] | e | e | ] st4 E4; cbn [on_exit];
    pose proof (extends_trans _ _ _ _ E13 E4) as E14;
    try (apply one_playlist_request_quiet; exact E14).
  apply holds_bind_lift.
  destruct (read_continuation_endpoint vlr (JNull, JNull)) as [[c i] | e]
    eqn:Hread; [ | apply one_playlist_request_quiet; exact E14].
  cbn [fst snd].
  destruct (truthy c && truthy i) eqn:Htruthy;
    [ | apply one_playlist_request_quiet; exact E14].
  assert (Q : forall o st5,
             extends (only_request (playlist_request headers c i)) st4 st5 ->
             one_playlist_request st o st5).
  { intros o st5 E5. exists headers, c, i.
    apply extends_trans with st4; [ | exact E5].
    revert E14. apply extends_weaken. apply non_request_only. }
  eapply holds_bind_respects;
    [exact (playlist_loop_one_request on_yield headers vlr c i fuel
              Hread Htruthy) | ].
  intros [s | e | e | ] st5 E5; cbn [on_exit]; apply Q; exact E5.
Qed.

End Playlist.

(** X5: the continuation requests of one run of [get_playlist_info] are all
    the same request: whatever the site answers, the token and the
    click-tracking parameters do not change.  (The loop reads them again
    from the [video_list_renderer] of the document, not from the page it has
    just received.) *)
Theorem playlist_continuation_never_advances
  {H : Helpers} (b : backend) (playlist_id : string) (fuel : nat)
  (on_yield : json -> result unit) (st : client) :
  exists headers continuation itct,
    forall rq,
      In rq (requests_of
               (added st
                  (run_state (get_playlist_info b playlist_id fuel on_yield)
                     st))) ->
      rq = playlist_request headers continuation itct.
Proof.
  destruct (get_playlist_info_one_request b playlist_id fuel on_yield st)
    as (headers & c & i & E).
  exists headers, c, i.
  apply added_extends in E as [_ F].
  exact (only_request_requests _ _ F).
Qed.

Section ClearPlaylist.

Context {H : Helpers} (b : backend).

Lemma listing_browse_only playlist_id fuel :
  respects (extends browse_only)
    (consume (get_playlist_info b playlist_id) fuel video_id_of).
Proof. resp_with method_step. Qed.

Lemma browse_only_requests tr :
  Forall browse_only tr ->
  forall rq, In rq (requests_of tr) -> rq_url rq = BROWSE_AJAX_URL.
Proof.
  induction 1 as [ | ev tr Hev _ IH]; intros rq Hin; [destruct Hin | ].
  destruct ev; simpl in Hin; try exact (IH rq Hin).
  destruct Hin as [<- | Hin]; [exact Hev | exact (IH rq Hin)].
Qed.

Lemma clear_playlist_key_error fuel playlist_id st k st1 :
  logged_in st = true ->
  consume (get_playlist_info b playlist_id) fuel video_id_of st
  = (Raised (KeyError k), st1) ->
  clear_playlist b fuel playlist_id st
  = log "info" "Caught KeyError. This probably means the playlist is empty."
      st1.
Proof.
  intros Hin E. unfold clear_playlist.
  rewrite (require_login_granted _ _ Hin).
  unfold bind at 1. unfold attempt. rewrite E. reflexivity.
Qed.

End ClearPlaylist.

(** X6: [clear_playlist] takes a KeyError for an empty playlist.  When
    listing the videos of the playlist raises a KeyError (the document has
    no 'playlistVideoListRenderer', a page or an item lacks a key), the
    call does not raise: it logs 'Caught KeyError. This probably means the
    playlist is empty.' and returns, and it has deleted nothing, also none
    of the videos listed before the error: every request it has sent went
    to [browse_ajax], none to the [edit_playlist] endpoint. *)
Theorem clear_playlist_swallows_key_error
  {H : Helpers} (b : backend) (fuel : nat) (playlist_id : string)
  (st : client) (k : json) :
  logged_in st = true ->
  run_outcome (consume (get_playlist_info b playlist_id) fuel video_id_of) st
  = Raised (KeyError k) ->
  run_outcome (clear_playlist b fuel playlist_id) st = Done tt
  /\ (exists tr,
        added st (run_state (clear_playlist b fuel playlist_id) st)
        = (tr ++ [EvLog "info"
                    "Caught KeyError. This probably means the playlist is empty."])%list)
  /\ forall rq,
       In rq (requests_of
                (added st (run_state (clear_playlist b fuel playlist_id) st)))
       -> rq_url rq = BROWSE_AJAX_URL.
Proof.
  intros Hin Hlist.
  pose proof (listing_browse_only b playlist_id fuel st) as Hext.
  unfold run_outcome in Hlist. unfold run_state in Hext |- *.
  unfold run_outcome.
  destruct (consume (get_playlist_info b playlist_id) fuel video_id_of st)
    as [o st1] eqn:E.
  simpl in Hlist, Hext. subst o.
  rewrite (clear_playlist_key_error b _ _ _ _ _ Hin E).
  destruct Hext as [tr [Etr Ftr]].
  unfold log, record. simpl. unfold added. simpl. rewrite Etr.
  rewrite <- app_assoc, skipn_app, skipn_all, Nat.sub_diag. simpl.
  split; [reflexivity | ]. split.
  - exists tr. reflexivity.
  - apply browse_only_requests. apply Forall_app. split; [exact Ftr | ].
    repeat constructor.
Qed.

Lemma clear_playlist_swallows_key_error_witness :
  run_outcome (clear_playlist (H := Demo.helpers) Demo.quiet 3 "PL0")
    Demo.logged_in_client = Done tt.
Proof.
  apply (clear_playlist_swallows_key_error (H := Demo.helpers) Demo.quiet 3
           "PL0" Demo.logged_in_client (JStr "contents")).
  - reflexivity.
  - vm_compute. reflexivity.
Defined.

(* ================================================================== *)
(** ** Where the client waits *)

Lemma no_sleep_page url r : no_sleep (EvPage url r).
Proof. exact I. Qed.

Lemma no_sleep_request rq r : no_sleep (EvRequest rq r).
Proof. exact I. Qed.

Lemma no_sleep_yield x : no_sleep (EvYield x).
Proof. exact I. Qed.

Lemma no_sleep_log l m : no_sleep (EvLog l m).
Proof. exact I. Qed.

#[export] Hint Resolve no_sleep_page no_sleep_request no_sleep_yield
  no_sleep_log : frame.

Lemma no_sleep_sleeps tr : Forall no_sleep tr -> sleeps_of tr = [].
Proof.
  induction 1 as [ | ev tr Hev _ IH]; [reflexivity | ].
  destruct ev; try exact IH. destruct Hev.
Qed.

Section Sleepless.

Context {H : Helpers} (b : backend).

Lemma sleepless_perform fuel on_yield op :
  op <> OpLogin ->
  walks_history op = false ->
  respects (extends no_sleep) (perform b fuel on_yield op).
Proof.
  intros Hop Hwalk. unfold perform, call.
  destruct op; try discriminate Hwalk; try (exfalso; apply Hop; reflexivity);
    unfold remove_video_id_from_playlist, clear_watch_later,
      toggle_search_history, toggle_watch_history, community_history;
    resp_with ltac:(first [wrapper_step | method_step]).
Qed.

End Sleepless.

(** X7: only the walk through the history waits.  A call of any public
    method other than [login], [get_history_info] and
    [remove_video_ids_from_history] never sleeps, however it ends: the
    back-off between attempts is in [get_history_info] alone. *)
Theorem sleeps_only_in_history_walk
  {H : Helpers} (b : backend) (fuel : nat) (on_yield : json -> result unit)
  (op : operation) (st : client) :
  op <> OpLogin ->
  walks_history op = false ->
  sleeps_of (added st (run_state (perform b fuel on_yield op) st)) = [].
Proof.
  intros Hop Hwalk.
  pose proof (sleepless_perform b fuel on_yield op Hop Hwalk st) as E.
  apply added_extends in E as [_ F].
  exact (no_sleep_sleeps _ F).
Qed.

Lemma sleeps_only_in_history_walk_witness :
  sleeps_of
    (added Demo.logged_in_client
       (run_state
          (perform (H := Demo.helpers) (Demo.down_after 1) 2 (fun _ => Ok tt)
             (OpClearPlaylist "PL0")) Demo.logged_in_client)) = [].
Proof.
  apply (sleeps_only_in_history_walk (H := Demo.helpers) (Demo.down_after 1)
           2 (fun _ => Ok tt) (OpClearPlaylist "PL0") Demo.logged_in_client).
  - discriminate.
  - reflexivity.
Defined.

(* ================================================================== *)
(** ** Where the walk through a playlist stops *)

Lemma walk_app o p q :
  walk o (p ++ q) = rbind (walk o p) (fun o' => walk o' q).
Proof.
  revert o. induction p as [ | k p IH]; intros o; [reflexivity | ].
  simpl. destruct (getitem o k) as [o' | e]; simpl; [apply IH | reflexivity].
Qed.

Section PlaylistStops.

Context {H : Helpers} (b : backend).

(** A round sends one request; it asks for another round only when the
    answer ended with a continuation item. *)
Definition round_sent (n : nat) (o : outcome (ctl (json * json)))
  (st' : client) : Prop :=
  sent st' = S n
  /\ forall s', o = Done (Next s') -> playlist_continued b n.

Lemma playlist_round_continues on_yield headers vlr s st :
  holds (playlist_round b on_yield headers vlr s) st (round_sent (sent st)).
Proof.
  unfold playlist_round. apply holds_bind_download_page. intros st1 Hsent _.
  destruct (json_reply b (sent st)) as [page | e] eqn:Hpage;
    [ | split; [exact Hsent | discriminate]].
  apply holds_bind_lift.
  destruct (walk page [At 1; K "response"]) as [response | e] eqn:E1;
    [ | split; [exact Hsent | discriminate]].
  apply holds_bind_lift.
  destruct (walk response _) as [items | e] eqn:E2;
    [ | split; [exact Hsent | discriminate]].
  apply holds_bind_lift.
  destruct (py_iter items) as [item_list | e];
    [ | split; [exact Hsent | discriminate]].
  eapply (holds_bind_respects same_sent); [resp_with method_step | ].
  intros [s' | e | e | ] st2 E; unfold same_sent in E; cbn [on_exit];
    try (split; [congruence | discriminate]).
  apply holds_bind_lift.
  destruct (getitem items (At (-1))) as [last | e] eqn:E3;
    [ | split; [congruence | discriminate]].
  apply holds_bind_lift.
  destruct (contains "continuationItemRenderer" last) as [has | e] eqn:E4;
    [ | split; [congruence | discriminate]].
  destruct has; cbn [negb]; (split; [unfold ret; simpl; congruence | ]);
    [ | discriminate].
  intros _ _. exists page. split; [exact Hpage | ].
  unfold playlist_page_continues.
  change [At 1; K "response"; K "onResponseReceivedActions"; At 0;
          K "appendContinuationItemsAction"; K "continuationItems"; At (-1)]
    with ([At 1; K "response"]
          ++ [K "onResponseReceivedActions"; At 0;
              K "appendContinuationItemsAction"; K "continuationItems"]
          ++ [At (-1)])%list.
  rewrite walk_app, E1. cbn [rbind]. rewrite walk_app, E2. cbn [rbind walk].
  rewrite E3. cbn [rbind]. rewrite E4. reflexivity.
Qed.

Lemma playlist_loop_continues on_yield headers vlr lo fuel :
  forall s st,
    (forall i, (lo < i < sent st)%nat -> playlist_continued b i) ->
    forall i,
      (lo < i)%nat ->
      (S i < sent (run_state
                     (while_loop fuel (fun _ => true) s
                        (playlist_round b on_yield headers vlr)) st))%nat ->
      playlist_continued b i.
Proof.
  induction fuel as [ | fuel IH]; intros s st Hbefore i Hlo Hi.
  - apply Hbefore. unfold run_state in Hi. simpl in Hi. lia.
  - unfold run_state in Hi. simpl in Hi.
    destruct (playlist_round_continues on_yield headers vlr s st)
      as [Hsent Hnext].
    unfold bind in Hi.
    destruct (playlist_round b on_yield headers vlr s st)
      as [[[s1 | s1] | e | e | ] st1] eqn:E;
      simpl in Hsent, Hnext, Hi;
      try (apply Hbefore; lia).
    apply (IH s1 st1); [ | exact Hlo | exact Hi].
    intros j Hj. destruct (Nat.eq_dec j (sent st)) as [-> | Hne].
    + exact (Hnext s1 eq_refl).
    + apply Hbefore. lia.
Qed.

(** Every way out of [get_playlist_info]: all the requests but the last
    one were answered by a page that ends with a continuation item. *)
Definition continued_until_last (st : client) (o : outcome unit)
  (st' : client) : Prop :=
  forall i, (sent st < i)%nat -> (S i < sent st')%nat ->
            playlist_continued b i.

Lemma continued_until_last_first st o st' :
  sent st' = sent st \/ sent st' = S (sent st) ->
  continued_until_last st o st'.
Proof. intros E i Hlo Hi. lia. Qed.

Lemma get_playlist_info_continues playlist_id fuel on_yield st :
  holds (get_playlist_info b playlist_id fuel on_yield) st
    (continued_until_last st).
Proof.
  unfold get_playlist_info.
  apply holds_bind_login. destruct (logged_in st);
    [ | apply continued_until_last_first; left; reflexivity].
  apply holds_bind_download_page_soup. intros st1 Hsent _.
  destruct (page_reply b (sent st)) as [content | e];
    [ | apply continued_until_last_first; right; exact Hsent].
  apply holds_bind_lift. destruct (find_ytcfg content) as [ytcfg | e];
    [ | apply continued_until_last_first; right; exact Hsent].
  apply holds_bind_lift. destruct (ytcfg_headers ytcfg) as [headers | e];
    [ | apply continued_until_last_first; right; exact Hsent].
  apply holds_bind_lift. destruct (initial_data content) as [data | e];
    [ | apply continued_until_last_first; right; exact Hsent].
  eapply (holds_bind_respects same_sent); [resp_with method_step | ].
  intros [vlr | e | e | ] st2 E2; unfold same_sent in E2; cbn [on_exit];
    try (apply continued_until_last_first; right; congruence).
  eapply (holds_bind_respects same_sent); [resp_with method_step | ].
  intros [[] | e | e | ] st3 E3; unfold same_sent in E3; cbn [on_exit];
    try (apply continued_until_last_first; right; congruence).
  eapply (holds_bind_respects same_sent); [resp_with method_step | ].
  intros [[] | e | e | ] st4 E4; unfold same_sent in E4; cbn [on_exit];
    try (apply continued_until_last_first; right; congruence).
  apply holds_bind_lift.
  destruct (read_continuation_endpoint vlr (JNull, JNull)) as [s | e];
    [ | apply continued_until_last_first; right; congruence].
  destruct (truthy (fst s) && truthy (snd s));
    [ | apply continued_until_last_first; right; unfold ret; simpl;
        congruence].
  assert (Hloop :
    forall i, (sent st < i)%nat ->
      (S i < sent (run_state
                     (while_loop fuel (fun _ => true) s
                        (playlist_round b on_yield headers vlr)) st4))%nat ->
      playlist_continued b i).
  { apply playlist_loop_continues. intros i Hi. lia. }
  unfold holds, bind. unfold run_state in Hloop.
  destruct (while_loop fuel (fun _ => true) s
              (playlist_round b on_yield headers vlr) st4)
    as [[s' | e | e | ] st5]; simpl in Hloop |- *; exact Hloop.
Qed.

End PlaylistStops.

(** X8: the walk through a playlist stops at the first page that does not
    end with a continuation item.  In a run of [get_playlist_info], a
    continuation request is followed by another request only when it was
    answered, and the last of the items of the answer holds a
    'continuationItemRenderer'.  The requests of the run are numbered from
    [sent st]; the first is the fetch of the document. *)
Theorem playlist_walk_stops_without_continuation
  {H : Helpers} (b : backend) (playlist_id : string) (fuel : nat)
  (on_yield : json -> result unit) (st : client) (i : nat) :
  (sent st < i)%nat ->
  (S i < sent (run_state (get_playlist_info b playlist_id fuel on_yield) st))%nat ->
  exists page,
    json_reply b i = Ok page /\ playlist_page_continues page = true.
Proof.
  exact (get_playlist_info_continues b playlist_id fuel on_yield st i).
Qed.

Lemma playlist_walk_stops_without_continuation_witness :
  exists page,
    json_reply Demo.playlist_site 1 = Ok page
    /\ playlist_page_continues page = true.
Proof.
  apply (playlist_walk_stops_without_continuation (H := Demo.helpers)
           Demo.playlist_site "PL0" 5 (fun _ => Ok tt)
           Demo.logged_in_client 1).
  - vm_compute. lia.
  - vm_compute. lia.
Defined.

(* ================================================================== *)
(** ** What a retry of [get_history_info] is worth *)

Lemma unfailed_app tr1 tr2 :
  unfailed tr1 -> unfailed tr2 -> unfailed (tr1 ++ tr2).
Proof. intros F1 F2. apply Forall_app. split; assumption. Qed.

Lemma unfailed_non_request tr : Forall non_request tr -> unfailed tr.
Proof.
  apply Forall_impl. intros ev E. destruct ev; try reflexivity.
  discriminate E.
Qed.

Lemma failed_once_after tr tr' :
  unfailed tr -> failed_once tr' -> failed_once (tr ++ tr').
Proof.
  intros F (tr1 & rq & c & tr2 & -> & F1 & F2).
  exists (tr ++ tr1)%list, rq, c, tr2.
  split; [apply app_assoc | ]. split; [apply unfailed_app | ]; assumption.
Qed.

(** Whatever failed request of such a transcript one looks at, only
    retries of it follow. *)
Lemma failed_once_tail tr :
  failed_once tr ->
  forall a rq c t,
    tr = (a ++ EvRequest rq (Err (HTTPError c)) :: t)%list ->
    Forall (retry_event rq) t.
Proof.
  intros (tr1 & rq0 & c0 & tr2 & -> & F1 & F2).
  induction tr1 as [ | y tr1 IH]; intros a rq c t E.
  - destruct a as [ | x a]; simpl in E.
    + injection E as -> _ ->. exact F2.
    + injection E as _ ->.
      apply Forall_app in F2 as [_ F2].
      apply Forall_cons_iff in F2 as [Hrq F2]. simpl in Hrq. subst rq.
      exact F2.
  - apply Forall_cons_iff in F1 as [Hy F1].
    destruct a as [ | x a]; simpl in E.
    + injection E as -> _. discriminate Hy.
    + injection E as _ E. exact (IH F1 a rq c t E).
Qed.

Lemma unfailed_no_failure tr a rq c t :
  unfailed tr ->
  tr <> (a ++ EvRequest rq (Err (HTTPError c)) :: t)%list.
Proof.
  intros F ->. apply Forall_app in F as [_ F].
  apply Forall_cons_iff in F as [F _]. discriminate F.
Qed.

Lemma retry_event_tail rq tr :
  Forall (retry_event rq) tr ->
  yields tr = [] /\ forall rq', In rq' (requests_of tr) -> rq' = rq.
Proof.
  induction 1 as [ | ev tr Hev _ [IHy IHr]]; [split; [reflexivity | ] | ].
  - intros rq' [].
  - destruct ev; try destruct Hev; simpl; (split; [exact IHy | ]);
      try exact IHr.
    intros rq' [<- | Hin]; [reflexivity | exact (IHr rq' Hin)].
Qed.

Section HistoryRetries.

Context {H : Helpers} (b : backend).

Lemma extends_after_attempt rq time st :
  extends (retry_event rq) st (after_attempt b rq time st).
Proof.
  unfold after_attempt. eexists. split; [reflexivity | ].
  destruct (time =? 0); repeat constructor.
Qed.

(** Once an attempt has failed, the inner loop only tries again, and it
    never forgets the failure. *)
Lemma history_fetch_retries rq :
  forall left tries time e resp st,
    extends (retry_event rq) st
      (snd (history_fetch b left rq tries time (Some e) resp st))
    /\ forall v,
         fst (history_fetch b left rq tries time (Some e) resp st)
         <> Done (None, v).
Proof.
  induction left as [ | left IH]; intros tries time e resp st.
  - simpl. destruct (tries <? 5); simpl;
      (split; [apply extends_refl | discriminate]).
  - destruct (tries <? 5) eqn:Hlt.
    + rewrite history_fetch_attempt by (apply Z.ltb_lt; exact Hlt).
      destruct (json_reply b (sent st)) as [v | e'].
      * simpl. split; [apply extends_after_attempt | discriminate].
      * destruct e';
          try (simpl; split; [apply extends_after_attempt | discriminate]).
        destruct (IH (tries + 1) (2 ^ (tries + 1)) (HTTPError status) resp
                    (after_attempt b rq time st)) as [E N].
        split; [ | exact N].
        eapply extends_trans; [apply extends_after_attempt | exact E].
    + simpl. rewrite Hlt. simpl.
      split; [apply extends_refl | discriminate].
Qed.

(** Every way out of a round: no request failed, or one did and the round
    does not ask for another one. *)
Definition round_unfailed (st : client)
  (o : outcome (ctl (pydict * json * json))) (st' : client) : Prop :=
  exists tr,
    transcript st' = (transcript st ++ tr)%list
    /\ (unfailed tr \/ (failed_once tr /\ forall s', o <> Done (Next s'))).

Lemma bind_run_eq {A B} (m m' : M A) (k : A -> M B) st st' :
  m st = m' st' -> bind m k st = bind m' k st'.
Proof. unfold bind. intros ->. reflexivity. Qed.

Lemma history_round_unfailed on_yield headers s st :
  holds (history_round b on_yield headers s) st (round_unfailed st).
Proof.
  destruct s as [[params xsrf] resp0]. unfold history_round, holds.
  set (rq := history_request headers xsrf params).
  pose proof (history_fetch_attempt b 4 rq 0 0 None resp0 st ltac:(lia))
    as Hfetch.
  destruct (json_reply b (sent st)) as [v | e] eqn:Hreply.
  - (* the first attempt was answered *)
    rewrite (bind_done _ _ _ _ _ Hfetch). cbv beta iota.
    match goal with
    | |- round_unfailed _ (fst (?m ?s)) _ =>
        assert (R : respects (extends non_request) m)
          by resp_with method_step;
        destruct (R s) as [tr [Etr Ftr]]
    end.
    unfold run_state in Etr.
    exists (EvRequest rq (Ok v) :: tr). split.
    + rewrite Etr. simpl. rewrite Hreply, <- app_assoc. reflexivity.
    + left. constructor; [reflexivity | apply unfailed_non_request, Ftr].
  - destruct e;
      try (rewrite (bind_raised _ _ _ _ _ Hfetch); simpl;
           exists [EvRequest rq (json_reply b (sent st))];
           split; [reflexivity | rewrite Hreply; left; repeat constructor]).
    (* the first attempt failed *)
    rewrite (bind_run_eq _ _ _ _ _ Hfetch).
    destruct (history_fetch_retries rq 4 (0 + 1) (2 ^ (0 + 1))
                (HTTPError status) resp0 (after_attempt b rq 0 st))
      as [[tr [Etr Ftr]] Hlast].
    destruct (history_fetch b 4 rq (0 + 1) (2 ^ (0 + 1))
                (Some (HTTPError status)) resp0 (after_attempt b rq 0 st))
      as [[[last resp] | e | e | ] st1] eqn:Eretry;
      simpl in Etr, Hlast; rewrite Hreply in Etr; simpl in Etr;
      rewrite <- app_assoc in Etr; simpl in Etr.
    + rewrite (bind_done _ _ _ _ _ Eretry).
      destruct last as [e | ]; [ | exfalso; exact (Hlast resp eq_refl)].
      simpl.
      exists (EvRequest rq (Err (HTTPError status))
              :: tr ++ [EvLog "debug" "Caught HTTP error: %s, text: %s"])%list.
      split; [rewrite Etr, <- app_assoc; reflexivity | ].
      right. split; [ | discriminate].
      exists [], rq, status,
        (tr ++ [EvLog "debug" "Caught HTTP error: %s, text: %s"])%list.
      split; [reflexivity | ]. split; [constructor | ].
      apply Forall_app. split; [exact Ftr | repeat constructor].
    + rewrite (bind_raised _ _ _ _ _ Eretry). simpl.
      exists (EvRequest rq (Err (HTTPError status)) :: tr).
      split; [exact Etr | ]. right. split; [ | discriminate].
      exists [], rq, status, tr. repeat split; [constructor | exact Ftr].
    + rewrite (bind_stopped _ _ _ _ _ Eretry). simpl.
      exists (EvRequest rq (Err (HTTPError status)) :: tr).
      split; [exact Etr | ]. right. split; [ | discriminate].
      exists [], rq, status, tr. repeat split; [constructor | exact Ftr].
    + rewrite (bind_no_fuel _ _ _ _ Eretry). simpl.
      exists (EvRequest rq (Err (HTTPError status)) :: tr).
      split; [exact Etr | ]. right. split; [ | discriminate].
      exists [], rq, status, tr. repeat split; [constructor | exact Ftr].
Qed.

Lemma run_state_bind_ret {A} (m : M A) st :
  snd (bind m (fun _ => ret tt) st) = snd (m st).
Proof. unfold bind. destruct (m st) as [[a | e | e | ] st1]; reflexivity. Qed.

Lemma history_loop_unfailed on_yield headers fuel :
  forall s st,
    exists tr,
      transcript
        (run_state
           (while_loop fuel (fun _ => true) s
              (history_round b on_yield headers)) st)
      = (transcript st ++ tr)%list
      /\ (unfailed tr \/ failed_once tr).
Proof.
  induction fuel as [ | fuel IH]; intros s st.
  - exists []. split; [symmetry; apply app_nil_r | left; constructor].
  - unfold run_state. simpl.
    destruct (history_round_unfailed on_yield headers s st)
      as [tr [Etr Hcase]].
    unfold bind.
    destruct (history_round b on_yield headers s st)
      as [[[s1 | s1] | e | e | ] st1];
      simpl in Etr, Hcase |- *;
      try (exists tr; split; [exact Etr | ];
           destruct Hcase as [F | [F _]]; [left | right]; exact F).
    destruct Hcase as [F | [_ N]]; [ | exfalso; exact (N s1 eq_refl)].
    destruct (IH s1 st1) as [tr' [Etr' Hcase']].
    exists (tr ++ tr')%list. split.
    + unfold run_state in Etr'. rewrite Etr', Etr. symmetry. apply app_assoc.
    + destruct Hcase' as [F' | F'];
        [left; apply unfailed_app | right; apply failed_once_after];
        assumption.
Qed.

(** Every way out of [get_history_info]. *)
Definition walk_unfailed (st : client) (o : outcome unit) (st' : client)
  : Prop :=
  exists tr,
    transcript st' = (transcript st ++ tr)%list
    /\ (unfailed tr \/ failed_once tr).

Lemma walk_unfailed_quiet st o st' :
  extends non_request st st' -> walk_unfailed st o st'.
Proof.
  intros [tr [E F]]. exists tr. split; [exact E | ].
  left. apply unfailed_non_request, F.
Qed.

Ltac quiet_step :=
  eapply (holds_bind_respects (extends non_request));
  [ resp_with method_step | ];
  let o := fresh "o" in
  let E := fresh "E" in
  let E' := fresh "Ext" in
  intros o ? E;
  match goal with
  | Ext : extends non_request ?s0 ?s1, E0 : extends non_request ?s1 ?s2
    |- _ =>
      pose proof (extends_trans _ _ _ _ Ext E0) as E'; clear Ext E0
  end;
  destruct o; cbn [on_exit];
  try (apply walk_unfailed_quiet; exact E').

Lemma get_history_info_unfailed fuel on_yield st :
  holds (get_history_info b fuel on_yield) st (walk_unfailed st).
Proof.
  unfold get_history_info.
  pose proof (extends_refl non_request st) as Ext.
  do 8 quiet_step.
  quiet_step.
  quiet_step.
  match goal with
  | |- holds (match ?found with _ => _ end) _ _ =>
      destruct found as [next_continuation | ]
  end; [ | apply walk_unfailed_quiet; assumption].
  do 5 quiet_step.
  lazymatch goal with
  | Ext : extends non_request st ?st1 |- holds (bind ?loop _) ?st1 _ =>
      lazymatch loop with
      | while_loop _ _ ?s (history_round _ _ ?headers) =>
          destruct (history_loop_unfailed on_yield headers fuel s st1)
            as [tr' [Etr' Hcase]]
      end;
      destruct Ext as [tr [Etr Ftr]]
  end.
  apply unfailed_non_request in Ftr.
  unfold holds, walk_unfailed. rewrite run_state_bind_ret.
  exists (tr ++ tr')%list. split.
  - etransitivity; [exact Etr' | ]. rewrite Etr. symmetry. apply app_assoc.
  - destruct Hcase as [F | F];
      [left; apply unfailed_app | right; apply failed_once_after];
      assumption.
Qed.

End HistoryRetries.

(** X9: a retry of [get_history_info] does not bring the walk on.  In a
    run of [get_history_info], after a request that failed with an HTTP
    error the run only waits, makes that same request again and writes to
    the debug log: nothing more is yielded, and no other request is made,
    also when a retry is answered.  [last_exception] is not reset when an
    attempt succeeds, so the outer loop takes the answered retry for a
    failure and ends. *)
Theorem history_retry_yields_nothing
  {H : Helpers} (b : backend) (fuel : nat) (on_yield : json -> result unit)
  (st : client) (before : list event) (rq : request) (status : Z)
  (after : list event) :
  added st (run_state (get_history_info b fuel on_yield) st)
  = (before ++ EvRequest rq (Err (HTTPError status)) :: after)%list ->
  yields after = []
  /\ forall rq', In rq' (requests_of after) -> rq' = rq.
Proof.
  intros E.
  destruct (get_history_info_unfailed b fuel on_yield st)
    as [tr [Etr Hcase]].
  apply added_app in Etr. unfold run_state in E. rewrite Etr in E.
  destruct Hcase as [F | F].
  - exfalso. exact (unfailed_no_failure _ _ _ _ _ F E).
  - apply (retry_event_tail rq).
    exact (failed_once_tail _ F _ _ _ _ E).
Qed.

Lemma history_retry_yields_nothing_witness :
  let rq :=
    history_request [("x-youtube-client-name", JStr "1")] (JStr "xsrf-0")
      [("continuation", JStr "H0"); ("ctoken", JStr "H0");
       ("itct", JStr "click-H0")] in
  let after :=
    [EvSleep 2;
     EvRequest rq
       (Ok (Demo.continuation_page
              [Demo.history_section [Demo.history_video "h2"]]));
     EvLog "debug" "Caught HTTP error: %s, text: %s"] in
  yields after = []
  /\ forall rq', In rq' (requests_of after) -> rq' = rq.
Proof.
  intros rq after.
  apply (history_retry_yields_nothing (H := Demo.helpers)
           Demo.retried_history_site 3 (fun _ => Ok tt)
           Demo.logged_in_client
           [EvPage HISTORY_URL (Ok "history");
            EvYield (Demo.history_video "h1")]
           rq 503 after).
  vm_compute. reflexivity.
Defined.

(* ================================================================== *)
(** ** The pages of the community history *)

Lemma same_sent_run {A} (m : M A) st o st' :
  respects same_sent m -> m st = (o, st') -> sent st' = sent st.
Proof.
  intros R E. specialize (R st). unfold run_state in R. rewrite E in R.
  exact R.
Qed.

Lemma requests_of_app tr1 tr2 :
  requests_of (tr1 ++ tr2) = (requests_of tr1 ++ requests_of tr2)%list.
Proof. unfold requests_of. apply flat_map_app. Qed.

Lemma non_request_requests tr : Forall non_request tr -> requests_of tr = [].
Proof.
  induction 1 as [ | ev tr Hev _ IH]; [reflexivity | ].
  destruct ev; try exact IH. discriminate Hev.
Qed.

Lemma quiet_run {A} (m : M A) st o st' :
  respects (extends non_request) m -> m st = (o, st') ->
  exists tr, transcript st' = (transcript st ++ tr)%list
             /\ requests_of tr = [].
Proof.
  intros R E. destruct (R st) as [tr [Etr F]]. unfold run_state in Etr.
  rewrite E in Etr. exists tr. split; [exact Etr | ].
  exact (non_request_requests _ F).
Qed.

(** A loop whose every round sends the request [f] gives for its item, and
    no other, and asks for the next item, has sent the requests of all the
    items, in order, when it completes. *)
Lemma for_each_requests {S} (f : json -> option request)
  (body : json -> S -> M (ctl S)) :
  (forall x s st r st',
     body x s st = (Done r, st') ->
     (exists s', r = Next s')
     /\ sent st' = Datatypes.S (sent st)
     /\ exists tr, transcript st' = (transcript st ++ tr)%list
                   /\ map Some (requests_of tr) = [f x]) ->
  forall l s st s' st',
    for_each l s body st = (Done s', st') ->
    sent st' = (sent st + length l)%nat
    /\ exists tr, transcript st' = (transcript st ++ tr)%list
                  /\ map Some (requests_of tr) = map f l.
Proof.
  intros Hbody. induction l as [ | x l IH]; intros s st s' st' E.
  - apply ret_inv in E as [_ ->]. split; [simpl; lia | ].
    exists []. split; [symmetry; apply app_nil_r | reflexivity].
  - simpl in E. apply bind_inv in E as (r & st1 & E1 & E2).
    destruct (Hbody _ _ _ _ _ E1) as [[s1 ->] [Hsent [tr1 [Etr1 Hrq1]]]].
    destruct (IH _ _ _ _ E2) as [Hsent' [tr2 [Etr2 Hrq2]]].
    split; [rewrite Hsent', Hsent; simpl; lia | ].
    exists (tr1 ++ tr2)%list. split.
    + rewrite Etr2, Etr1. symmetry. apply app_assoc.
    + rewrite requests_of_app, map_app, Hrq1, Hrq2. reflexivity.
Qed.

Section Community.

Context {H : Helpers} (b : backend).

Lemma community_fetch_run on_yield ytcfg headers cont s st r st' :
  community_fetch b on_yield ytcfg headers cont s st = (Done r, st') ->
  (exists s', r = Next s')
  /\ sent st' = S (sent st)
  /\ exists tr, transcript st' = (transcript st ++ tr)%list
                /\ map Some (requests_of tr)
                   = [continuation_post ytcfg headers cont].
Proof.
  intros E. unfold community_fetch in E.
  apply bind_inv in E as (ctoken & st1 & E1 & E).
  apply lift_inv in E1 as [Ectoken ->].
  apply bind_inv in E as (continuation & st1 & E1 & E).
  apply lift_inv in E1 as [Econt ->].
  apply bind_inv in E as (itct & st1 & E1 & E).
  apply lift_inv in E1 as [Eitct ->].
  apply bind_inv in E as (session_token & st1 & E1 & E).
  apply lift_inv in E1 as [Etoken ->].
  apply bind_inv in E as (data & st1 & E1 & E).
  rewrite download_page_run in E1.
  assert (Hsent : sent st1 = S (sent st)) by (inversion E1; reflexivity).
  assert (Htr1 : transcript st1
                 = (transcript st
                    ++ [EvRequest
                          (community_request headers ctoken continuation itct
                             session_token)
                          (json_reply b (sent st))])%list)
    by (inversion E1; reflexivity).
  clear E1.
  apply bind_inv in E as (item_section & st2 & E1 & E).
  apply lift_inv in E1 as [_ ->].
  apply bind_inv in E as (contents & st2 & E1 & E).
  apply lift_inv in E1 as [_ ->].
  apply bind_inv in E as (u & st2 & E1 & E).
  assert (R2 : respects same_sent (community_entries on_yield contents))
    by (unfold community_entries; resp_with method_step).
  pose proof (same_sent_run _ _ _ _ R2 E1) as Hsent2.
  apply quiet_run in E1 as [tr2 [Htr2 Hrq2]];
    [ | unfold community_entries; resp_with method_step].
  apply bind_inv in E as (has & st3 & E2 & E).
  apply lift_inv in E2 as [_ ->].
  apply bind_inv in E as (has_continuations & st3 & E2 & E).
  match type of E2 with
  | ?m _ = _ =>
      assert (R3 : respects same_sent m) by resp_with method_step
  end.
  pose proof (same_sent_run _ _ _ _ R3 E2) as Hsent3.
  apply quiet_run in E2 as [tr3 [Htr3 Hrq3]]; [ | resp_with method_step].
  apply ret_inv in E as [-> ->].
  split; [eexists; reflexivity | ]. split; [congruence | ].
  exists ([EvRequest
             (community_request headers ctoken continuation itct
                session_token) (json_reply b (sent st))] ++ tr2 ++ tr3)%list.
  split.
  - rewrite Htr3, Htr2, Htr1, <- !app_assoc. reflexivity.
  - rewrite !requests_of_app, Hrq2, Hrq3. simpl.
    unfold continuation_post. rewrite Ectoken in Econt.
    injection Econt as <-. rewrite Ectoken, Eitct, Etoken. reflexivity.
Qed.

End Community.

(** X10: a round of the loop of [_community_history] fetches every
    continuation that the page at hand lists, whatever the answers to the
    earlier ones say.  When the round completes, the requests it has sent
    are, in the order of 'continuations', one POST to [browse_ajax] for
    each entry, with the token and the click-tracking parameters of that
    entry and the XSRF token of the configuration; it has made no other
    exchange, and it goes back to the loop test.  ([has_continuations] is
    looked at only after the last of them.) *)
Theorem community_round_fetches_every_continuation
  {H : Helpers} (b : backend) (on_yield : json -> result unit)
  (ytcfg : json) (headers : pydict) (s : json * json)
  (continuations : json) (conts : list json)
  (st : client) (r : ctl (json * json)) (st' : client) :
  getitem (fst s) (K "continuations") = Ok continuations ->
  py_iter continuations = Ok conts ->
  community_round b on_yield ytcfg headers s st = (Done r, st') ->
  sent st' = (sent st + length conts)%nat
  /\ map Some (requests_of (added st st'))
     = map (continuation_post ytcfg headers) conts
  /\ exists s', r = Next s'.
Proof.
  intros Hget Hiter E. unfold community_round in E.
  rewrite Hget, bind_lift_ok, Hiter, bind_lift_ok in E.
  apply bind_inv in E as (s' & st1 & E1 & E).
  apply ret_inv in E as [-> ->].
  destruct (for_each_requests (continuation_post ytcfg headers) _
              (fun x s0 st0 r0 st0' =>
                 community_fetch_run b on_yield ytcfg headers x s0 st0 r0 st0')
              _ _ _ _ _ E1) as [Hsent [tr [Etr Hrq]]].
  split; [exact Hsent | ].
  split; [ | eexists; reflexivity].
  rewrite (added_app _ _ _ Etr). exact Hrq.
Qed.

Lemma community_round_fetches_every_continuation_witness :
  let conts := [Demo.next_continuation "C1"; Demo.next_continuation "C2"] in
  let s := (Demo.community_section [Demo.comment "c0"] conts, JBool true) in
  let run :=
    community_round (H := Demo.helpers) Demo.community_site (fun _ => Ok tt)
      Demo.ytcfg [] s Demo.logged_in_client in
  sent (snd run) = (sent Demo.logged_in_client + length conts)%nat
  /\ map Some (requests_of (added Demo.logged_in_client (snd run)))
     = map (continuation_post Demo.ytcfg []) conts
  /\ exists s',
       match fst run with Done r => r | _ => Break s end = Next s'.
Proof.
  intros conts s run.
  apply (community_round_fetches_every_continuation (H := Demo.helpers)
           Demo.community_site (fun _ => Ok tt) Demo.ytcfg [] s
           (JList conts) conts Demo.logged_in_client).
  - reflexivity.
  - reflexivity.
  - vm_compute. reflexivity.
Defined.

Section FirstPage.

Context {H : Helpers} (b : backend).

Lemma first_page_only fuel on_yield :
  respects (extends non_request) (community_history b true fuel on_yield).
Proof.
  unfold community_history, _community_history. cbv iota.
  resp_with ltac:(first [wrapper_step | method_step]).
Qed.

End FirstPage.

(** X11: [community_history(only_first_page=True)] reads the document and
    nothing else: however the run ends, and whatever continuations the
    document lists, no continuation request is sent. *)
Theorem community_first_page_sends_no_request
  {H : Helpers} (b : backend) (fuel : nat) (on_yield : json -> result unit)
  (st : client) :
  requests_of
    (added st (run_state (community_history b true fuel on_yield) st)) = [].
Proof.
  pose proof (first_page_only b fuel on_yield st) as E.
  apply added_extends in E as [_ F].
  exact (non_request_requests _ F).
Qed.

(* ================================================================== *)
(** ** The cache of [remove_video_id_from_playlist] *)

Lemma no_page_request rq r : no_page (EvRequest rq r).
Proof. reflexivity. Qed.

Lemma no_page_yield x : no_page (EvYield x).
Proof. reflexivity. Qed.

Lemma no_page_sleep n : no_page (EvSleep n).
Proof. reflexivity. Qed.

Lemma no_page_log l m : no_page (EvLog l m).
Proof. reflexivity. Qed.

#[export] Hint Resolve no_page_request no_page_yield no_page_sleep
  no_page_log : frame.

Lemma no_page_pages tr : Forall no_page tr -> existsb is_page tr = false.
Proof.
  induction 1 as [ | ev tr Hev _ IH]; [reflexivity | ].
  simpl. rewrite Hev, IH. reflexivity.
Qed.

Lemma holds_bind_get_client {B} (k : client -> M B) st Q :
  holds (k st) st Q -> holds (bind get_client k) st Q.
Proof. trivial. Qed.

Lemma holds_bind_ret {A B} (a : A) (k : A -> M B) st Q :
  holds (k a) st Q -> holds (bind (ret a) k) st Q.
Proof. trivial. Qed.

Lemma holds_respects {A} R (m : M A) st (Q : outcome A -> client -> Prop) :
  respects R m -> (forall o st', R st st' -> Q o st') -> holds m st Q.
Proof. intros Hm HQ. apply HQ. apply Hm. Qed.

Lemma respects_both {A} (R1 R2 : client -> client -> Prop) (m : M A) :
  respects R1 m -> respects R2 m ->
  respects (fun st st' => R1 st st' /\ R2 st st') m.
Proof. intros H1 H2 st. split; [apply H1 | apply H2]. Qed.

Section Cached.

Context {H : Helpers} (b : backend).

Lemma cached_call playlist_id video_id st c :
  rsvi_cache st = Some c ->
  holds (remove_video_id_from_playlist b playlist_id video_id true) st
    (fun _ st' => rsvi_cache st' = Some c /\ extends no_page st st').
Proof.
  intros Hcache. unfold remove_video_id_from_playlist.
  apply holds_bind_login. destruct (logged_in st);
    [ | split; [exact Hcache | apply extends_refl]].
  apply holds_bind_get_client. rewrite Hcache. cbv iota.
  apply holds_bind_ret. cbv beta iota.
  eapply (holds_bind_respects
            (fun st st1 => rsvi_cache st1 = Some c
                           /\ transcript st1 = transcript st)).
  { intros st0. destruct c. split; reflexivity. }
  intros [[] | e | e | ] st1 [Hc1 Htr1]; cbn [on_exit];
    try (split; [exact Hc1 | exists []; rewrite app_nil_r; split;
                               [exact Htr1 | constructor]]).
  eapply holds_respects.
  { apply (respects_both same_cache (extends no_page));
      resp_with method_step. }
  intros o st' [Hc [tr [Etr Ftr]]]. split.
  - unfold same_cache in Hc. congruence.
  - exists tr. split; [rewrite Etr, Htr1; reflexivity | exact Ftr].
Qed.

End Cached.

(** X12: the cache of [remove_video_id_from_playlist] is filled once and
    never refreshed.  When the client holds cached page data, a call with
    [cache_values] true fetches no document, for whatever playlist it is
    made and however it ends, and leaves the cache as it found it. *)
Theorem cached_page_is_never_refreshed
  {H : Helpers} (b : backend) (playlist_id : string) (video_id : json)
  (st : client) (c : cache) :
  rsvi_cache st = Some c ->
  rsvi_cache
    (run_state (remove_video_id_from_playlist b playlist_id video_id true) st)
  = Some c
  /\ existsb is_page
       (added st
          (run_state
             (remove_video_id_from_playlist b playlist_id video_id true) st))
     = false.
Proof.
  intros Hcache.
  destruct (cached_call b playlist_id video_id st c Hcache) as [Hc E].
  split; [exact Hc | ].
  apply added_extends in E as [_ F]. exact (no_page_pages _ F).
Qed.

Lemma cached_page_is_never_refreshed_witness :
  rsvi_cache
    (run_state
       (remove_video_id_from_playlist (H := Demo.helpers) Demo.quiet "PL"
          (JStr "v1") true) Demo.cached_client)
  = rsvi_cache Demo.cached_client.
Proof.
  apply (cached_page_is_never_refreshed (H := Demo.helpers) Demo.quiet "PL"
           (JStr "v1") Demo.cached_client).
  reflexivity.
Defined.

(* ================================================================== *)
(** ** How much a call sends *)

(** [costs n m]: a run of [m] makes at most [n] exchanges with the site. *)
Definition costs {A} (n : nat) (m : M A) : Prop :=
  forall st, (sent (run_state m st) <= sent st + n)%nat.

Lemma costs_free {A} n (m : M A) : respects same_sent m -> costs n m.
Proof. intros R st. rewrite (R st). lia. Qed.

Lemma costs_bind_free {A B} n (m : M A) (k : A -> M B) :
  respects same_sent m -> (forall a, costs n (k a)) -> costs n (bind m k).
Proof.
  intros R Hk st. specialize (R st). unfold run_state, bind in *.
  destruct (m st) as [[a | e | e | ] st1]; simpl in R |- *;
    unfold same_sent in R; try lia.
  specialize (Hk a st1). unfold run_state in Hk. lia.
Qed.

Lemma costs_assoc {A B C} n (m : M A) (k : A -> M B) (k' : B -> M C) :
  costs n (bind m (fun a => bind (k a) k')) -> costs n (bind (bind m k) k').
Proof.
  intros Hc st. specialize (Hc st). unfold run_state in *.
  rewrite bind_assoc. exact Hc.
Qed.

Lemma costs_ret_bind {A B} n (a : A) (k : A -> M B) :
  costs n (k a) -> costs n (bind (ret a) k).
Proof. trivial. Qed.

Section Costs.

Context {H : Helpers} (b : backend).

Lemma costs_bind_page {B} n url (k : soup -> M B) :
  (forall a, costs n (k a)) -> costs (S n) (bind (_download_page_soup b url) k).
Proof.
  intros Hk st. unfold run_state. rewrite bind_download_page_soup. cbv zeta.
  destruct (page_reply b (sent st)) as [a | e]; simpl; [ | lia].
  match goal with
  | |- context [k a ?s] => specialize (Hk a s)
  end.
  unfold run_state in Hk. simpl in Hk. lia.
Qed.

Lemma costs_bind_request {B} n rq (k : json -> M B) :
  (forall a, costs n (k a)) -> costs (S n) (bind (_download_page b rq) k).
Proof.
  intros Hk st. unfold run_state. rewrite bind_download_page. cbv zeta.
  destruct (json_reply b (sent st)) as [a | e]; simpl; [ | lia].
  match goal with
  | |- context [k a ?s] => specialize (Hk a s)
  end.
  unfold run_state in Hk. simpl in Hk. lia.
Qed.

Ltac cost_step :=
  lazymatch goal with
  | |- costs _ (bind (_download_page_soup _ _) _) =>
      apply costs_bind_page; intros
  | |- costs _ (bind (_download_page _ _) _) =>
      apply costs_bind_request; intros
  | |- costs _ (bind (bind _ _) _) => apply costs_assoc
  | |- costs _ (bind (ret _) _) => apply costs_ret_bind; cbv beta iota
  | |- costs _ (bind (match ?x with _ => _ end) _) => destruct x
  | |- costs _ (bind _ _) =>
      apply costs_bind_free; [resp_with method_step | intros]
  | |- costs _ (match ?x with _ => _ end) => destruct x
  | |- costs _ _ => apply costs_free; resp_with method_step
  end.

Lemma costs_perform fuel on_yield op :
  single_exchange op = true -> costs 2 (perform b fuel on_yield op).
Proof.
  intros Hop. unfold perform, call.
  destruct op; try discriminate Hop;
    unfold remove_video_id_from_playlist, clear_watch_history,
      toggle_search_history, toggle_watch_history, _toggle_history,
      delete_community_entry, clear_search_history,
      _single_feedback_api_call;
    repeat cost_step.
Qed.

End Costs.

(** X13: the methods that neither list nor loop
    ([remove_video_id_from_playlist], [clear_watch_history],
    [toggle_search_history], [toggle_watch_history],
    [delete_community_entry], [clear_search_history]) make at most two
    exchanges with the site in a call, the fetch of a document and one
    request, however the call ends. *)
Theorem single_exchange_calls_send_at_most_two
  {H : Helpers} (b : backend) (fuel : nat) (on_yield : json -> result unit)
  (op : operation) (st : client) :
  single_exchange op = true ->
  (sent (run_state (perform b fuel on_yield op) st) <= sent st + 2)%nat.
Proof.
  intros Hop. exact (costs_perform b fuel on_yield op Hop st).
Qed.

Lemma single_exchange_calls_send_at_most_two_witness :
  (sent
     (run_state
        (perform (H := Demo.helpers) Demo.quiet 2 (fun _ => Ok tt)
           OpClearSearchHistory) Demo.logged_in_client)
   <= sent Demo.logged_in_client + 2)%nat.
Proof.
  apply (single_exchange_calls_send_at_most_two (H := Demo.helpers)
           Demo.quiet 2 (fun _ => Ok tt) OpClearSearchHistory
           Demo.logged_in_client).
  reflexivity.
Defined.

(* ================================================================== *)
(** ** What [get_playlist_info] yields *)

Lemma video_yield_page url r : video_yield (EvPage url r).
Proof. exact I. Qed.

Lemma video_yield_request rq r : video_yield (EvRequest rq r).
Proof. exact I. Qed.

Lemma video_yield_sleep n : video_yield (EvSleep n).
Proof. exact I. Qed.

Lemma video_yield_log l m : video_yield (EvLog l m).
Proof. exact I. Qed.

#[export] Hint Resolve video_yield_page video_yield_request video_yield_sleep
  video_yield_log : frame.

Lemma respects_yield_at P on_yield x :
  P (EvYield x) -> respects (extends P) (yield_ on_yield x).
Proof.
  intros Hx. unfold yield_.
  apply respects_bind;
    [apply extends_trans | apply extends_record, Hx | ].
  intros _. destruct (on_yield x); resp.
Qed.

Lemma video_yield_yields tr :
  Forall video_yield tr ->
  forall x, In x (yields tr) -> contains "playlistVideoRenderer" x = Ok true.
Proof.
  induction 1 as [ | ev tr Hev _ IH]; intros x Hin; [destruct Hin | ].
  destruct ev; simpl in Hin; try exact (IH x Hin).
  destruct Hin as [<- | Hin]; [exact Hev | exact (IH x Hin)].
Qed.

Section PlaylistYields.

Context {H : Helpers} (b : backend).

Ltac video_step :=
  idtac;
  lazymatch goal with
  | |- respects _ (bind (lift (contains "playlistVideoRenderer" ?item)) _) =>
      let E := fresh "E" in
      destruct (contains "playlistVideoRenderer" item) as [[ | ] | ?] eqn:E;
      cbn [lift];
      [ apply respects_ret_bind; cbv beta iota
      | apply respects_ret_bind; cbv beta iota
      | apply respects_bind_raise; apply extends_refl ]
  | |- respects _ (yield_ _ _) => apply respects_yield_at; assumption
  end.

Lemma get_playlist_info_yields_videos playlist_id fuel on_yield :
  respects (extends video_yield)
    (get_playlist_info b playlist_id fuel on_yield).
Proof.
  unfold get_playlist_info, playlist_first_items, playlist_round.
  resp_with ltac:(first [video_step | method_step]).
Qed.

End PlaylistYields.

(** X14: [get_playlist_info] yields videos only.  Every item that a run of
    it hands to the consumer holds a 'playlistVideoRenderer': the
    continuation items that end the pages, and whatever else a page
    lists, are left out. *)
Theorem playlist_yields_videos_only
  {H : Helpers} (b : backend) (playlist_id : string) (fuel : nat)
  (on_yield : json -> result unit) (st : client) (x : json) :
  In x (yields
          (added st
             (run_state (get_playlist_info b playlist_id fuel on_yield) st)))
  ->
  contains "playlistVideoRenderer" x = Ok true.
Proof.
  pose proof (get_playlist_info_yields_videos b playlist_id fuel on_yield st)
    as E.
  apply added_extends in E as [_ F].
  exact (video_yield_yields _ F x).
Qed.

Lemma playlist_yields_videos_only_witness :
  contains "playlistVideoRenderer" (Demo.playlist_video "v2") = Ok true.
Proof.
  apply (playlist_yields_videos_only (H := Demo.helpers) Demo.playlist_site
           "PL0" 5 (fun _ => Ok tt) Demo.logged_in_client).
  vm_compute. right. left. reflexivity.
Defined.

(* ================================================================== *)
(** ** What [clear_playlist] removes *)

Lemma removals_app tr1 tr2 :
  removals (tr1 ++ tr2) = (removals tr1 ++ removals tr2)%list.
Proof. unfold removals. apply flat_map_app. Qed.

Lemma removals_browse_only tr : Forall browse_only tr -> removals tr = [].
Proof.
  induction 1 as [ | ev tr Hev _ IH]; [reflexivity | ].
  destruct ev; simpl; try exact IH.
  simpl in Hev. unfold removal_of. rewrite Hev. simpl. exact IH.
Qed.

Lemma holds_assoc {A B C} (m : M A) (k : A -> M B) (k' : B -> M C) st Q :
  holds (bind m (fun a => bind (k a) k')) st Q ->
  holds (bind (bind m k) k') st Q.
Proof. unfold holds. rewrite bind_assoc. trivial. Qed.

Section Removals.

Context {H : Helpers} (b : backend).

(** Every way out of one call of [remove_video_id_from_playlist]: it has
    asked for the removal of that video from that playlist, once, or it
    has asked for nothing and did not complete. *)
Definition removal_made (playlist_id : string) (video_id : json)
  (st : client) (o : outcome bool) (st' : client) : Prop :=
  exists tr,
    transcript st' = (transcript st ++ tr)%list
    /\ ((removals tr = [] /\ forall v, o <> Done v)
        \/ removals tr = [(JStr playlist_id, video_id)]).

Lemma remove_video_id_run playlist_id video_id st :
  holds (remove_video_id_from_playlist b playlist_id video_id false) st
    (removal_made playlist_id video_id st).
Proof.
  unfold remove_video_id_from_playlist.
  apply holds_bind_login. destruct (logged_in st);
    [ | exists []; split; [symmetry; apply app_nil_r
                          | left; split; [reflexivity | discriminate]]].
  apply holds_bind_get_client. cbv beta iota.
  apply holds_assoc. apply holds_bind_download_page_soup. intros st1 _ Htr1.
  assert (Q1 : forall (o : outcome bool) st',
            (forall v, o <> Done v) -> transcript st' = transcript st1 ->
            removal_made playlist_id video_id st o st').
  { intros o st' Ho E. eexists. split; [rewrite E; exact Htr1 | ].
    left. split; [reflexivity | exact Ho]. }
  destruct (page_reply b (sent st)) as [page | e];
    [ | apply Q1; [discriminate | reflexivity]].
  apply holds_assoc. apply holds_bind_lift.
  destruct (find_ytcfg page) as [ytcfg | e];
    [ | apply Q1; [discriminate | reflexivity]].
  apply holds_assoc. apply holds_bind_lift.
  destruct (ytcfg_headers ytcfg) as [headers | e];
    [ | apply Q1; [discriminate | reflexivity]].
  apply holds_bind_ret. cbv beta iota.
  apply holds_bind_ret.
  apply holds_bind_lift.
  destruct (getitem ytcfg (K "INNERTUBE_API_KEY")) as [api_key | e];
    [ | apply Q1; [discriminate | reflexivity]].
  eapply (holds_bind_respects same_transcript); [resp_with method_step | ].
  intros [authorization | e | e | ] st2 Htr2; cbn [on_exit];
    try (apply Q1; [discriminate | exact Htr2]).
  apply holds_bind_lift.
  destruct (context_client_body ytcfg) as [client_body | e];
    [ | apply Q1; [discriminate | exact Htr2]].
  apply holds_bind_download_page. intros st3 _ Htr3.
  assert (Q3 : forall (o : outcome bool) st',
            transcript st' = transcript st3 ->
            removal_made playlist_id video_id st o st').
  { intros o st' E. eexists. split.
    - rewrite E, Htr3, Htr2, Htr1, <- app_assoc. reflexivity.
    - right. reflexivity. }
  destruct (json_reply b (sent st2)) as [resp | e];
    [ | apply Q3; reflexivity].
  apply holds_bind_lift.
  destruct (at_path "status" resp) as [status | e]; apply Q3; reflexivity.
Qed.

(** The loop over the video ids: it asks for their removal one after the
    other, as far as it gets. *)
Lemma removal_loop playlist_id :
  forall ids st,
    let run :=
      for_each ids tt (fun video_id _ =>
        log "debug" "Deleting from playlist: video_id = %s" ;;
        remove_video_id_from_playlist b playlist_id video_id false ;;
        ret (Next tt)) st in
    exists tr,
      transcript (snd run) = (transcript st ++ tr)%list
      /\ (exists rest,
            map (pair (JStr playlist_id)) ids = (removals tr ++ rest)%list)
      /\ (forall u, fst run = Done u ->
            removals tr = map (pair (JStr playlist_id)) ids).
Proof.
  induction ids as [ | x ids IH]; intros st run; subst run.
  - exists []. split; [symmetry; apply app_nil_r | ].
    split; [exists []; reflexivity | reflexivity].
  - simpl for_each.
    rewrite bind_assoc.
    rewrite (bind_done (log "debug" "Deleting from playlist: video_id = %s")
               _ st tt _ eq_refl).
    rewrite bind_assoc.
    match goal with
    | |- context [bind (remove_video_id_from_playlist _ _ _ _) _ ?s] =>
        destruct (remove_video_id_run playlist_id x s) as [tr [Etr Hcase]];
        destruct (remove_video_id_from_playlist b playlist_id x false s)
          as [[v | e | e | ] st2] eqn:E;
        simpl in Etr, Hcase
    end.
    + rewrite (bind_done _ _ _ _ _ E).
      rewrite (bind_done (ret (Next tt)) _ st2 (Next tt) st2 eq_refl).
      destruct Hcase as [[_ N] | Hrem]; [exfalso; exact (N v eq_refl) | ].
      destruct (IH st2) as [tr' [Etr' [[rest Hrest] Hdone]]].
      exists ((EvLog "debug" "Deleting from playlist: video_id = %s" :: tr)
              ++ tr')%list.
      split; [ | split].
      * rewrite Etr', Etr. simpl. rewrite <- !app_assoc. reflexivity.
      * exists rest. rewrite removals_app. simpl.
        change (removals tr) with (removals tr) in Hrem.
        change (flat_map _ tr) with (removals tr). rewrite Hrem.
        simpl. f_equal. exact Hrest.
      * intros u Hu. rewrite removals_app. simpl.
        change (flat_map _ tr) with (removals tr). rewrite Hrem.
        simpl. f_equal. exact (Hdone u Hu).
    + rewrite (bind_raised _ _ _ _ _ E).
      exists (EvLog "debug" "Deleting from playlist: video_id = %s" :: tr).
      split; [simpl; rewrite Etr, <- app_assoc; reflexivity | ].
      split; [ | discriminate].
      simpl. change (flat_map _ tr) with (removals tr).
      destruct Hcase as [[-> _] | ->]; eexists; reflexivity.
    + rewrite (bind_stopped _ _ _ _ _ E).
      exists (EvLog "debug" "Deleting from playlist: video_id = %s" :: tr).
      split; [simpl; rewrite Etr, <- app_assoc; reflexivity | ].
      split; [ | discriminate].
      simpl. change (flat_map _ tr) with (removals tr).
      destruct Hcase as [[-> _] | ->]; eexists; reflexivity.
    + rewrite (bind_no_fuel _ _ _ _ E).
      exists (EvLog "debug" "Deleting from playlist: video_id = %s" :: tr).
      split; [simpl; rewrite Etr, <- app_assoc; reflexivity | ].
      split; [ | discriminate].
      simpl. change (flat_map _ tr) with (removals tr).
      destruct Hcase as [[-> _] | ->]; eexists; reflexivity.
Qed.

End Removals.

Lemma clear_playlist_listed {H : Helpers} (b : backend) fuel playlist_id
  st items st1 :
  logged_in st = true ->
  consume (get_playlist_info b playlist_id) fuel video_id_of st
  = (Done items, st1) ->
  clear_playlist b fuel playlist_id st
  = for_each (map_ok video_id_of items) tt (fun video_id _ =>
      log "debug" "Deleting from playlist: video_id = %s" ;;
      remove_video_id_from_playlist b playlist_id video_id false ;;
      ret (Next tt)) st1.
Proof.
  intros Hin E. unfold clear_playlist.
  rewrite (require_login_granted _ _ Hin).
  unfold bind at 1. unfold attempt. rewrite E. reflexivity.
Qed.

(** X15: [clear_playlist] asks for the removal of the videos it has listed,
    in the order of the listing and each from the playlist it was called
    for.  Once the listing has completed, the removals sent by the call
    are, however it ends, the first ones of that list, each sent once; when
    the call completes they are the whole list. *)
Theorem clear_playlist_removes_listed_videos
  {H : Helpers} (b : backend) (fuel : nat) (playlist_id : string)
  (st : client) (items : list json) :
  run_outcome (consume (get_playlist_info b playlist_id) fuel video_id_of) st
  = Done items ->
  (exists rest,
     map (pair (JStr playlist_id)) (map_ok video_id_of items)
     = (removals
          (added st (run_state (clear_playlist b fuel playlist_id) st))
        ++ rest)%list)
  /\ (run_outcome (clear_playlist b fuel playlist_id) st = Done tt ->
      removals (added st (run_state (clear_playlist b fuel playlist_id) st))
      = map (pair (JStr playlist_id)) (map_ok video_id_of items)).
Proof.
  intros Hlist. unfold run_outcome, run_state.
  destruct (logged_in st) eqn:Hin.
  - pose proof (listing_browse_only b playlist_id fuel st) as Hext.
    unfold run_outcome in Hlist. unfold run_state in Hext.
    destruct (consume (get_playlist_info b playlist_id) fuel video_id_of st)
      as [o st1] eqn:E.
    simpl in Hlist, Hext. subst o.
    rewrite (clear_playlist_listed b _ _ _ _ _ Hin E).
    destruct Hext as [tr1 [Etr1 Ftr1]].
    destruct (removal_loop b playlist_id (map_ok video_id_of items) st1)
      as [tr2 [Etr2 [[rest Hrest] Hdone]]].
    match type of Etr2 with
    | transcript (snd ?l) = _ => destruct l as [o2 st2]
    end.
    simpl in Etr2, Hdone |- *.
    assert (Eadded : added st st2 = (tr1 ++ tr2)%list).
    { apply added_app. rewrite Etr2, Etr1. symmetry. apply app_assoc. }
    rewrite Eadded, removals_app, (removals_browse_only _ Ftr1). simpl.
    split; [exists rest; exact Hrest | ].
    intros Ho. subst o2. exact (Hdone tt eq_refl).
  - unfold clear_playlist. rewrite (require_login_denied _ _ Hin). simpl.
    unfold added. rewrite skipn_all. simpl.
    split; [eexists; reflexivity | discriminate].
Qed.

Lemma clear_playlist_removes_listed_videos_witness :
  removals
    (added Demo.logged_in_client
       (run_state
          (clear_playlist (H := Demo.helpers) Demo.clearable_site 5 "PL0")
          Demo.logged_in_client))
  = [(JStr "PL0", JStr "v1"); (JStr "PL0", JStr "v2");
     (JStr "PL0", JStr "v3")].
Proof.
  apply (clear_playlist_removes_listed_videos (H := Demo.helpers)
           Demo.clearable_site 5 "PL0" Demo.logged_in_client
           [Demo.playlist_video "v1"; Demo.playlist_video "v2";
            Demo.playlist_video "v3"]).
  - vm_compute. reflexivity.
  - vm_compute. reflexivity.
Defined.

(* ================================================================== *)
(** ** A configuration handed to [delete_community_entry] *)

Section GivenConfig.

Context {H : Helpers} (b : backend).

Lemma given_config_no_page action api_url ytcfg :
  truthy ytcfg = true ->
  respects (extends no_page) (delete_community_entry b action api_url ytcfg).
Proof.
  intros Hcfg. unfold delete_community_entry. rewrite Hcfg. cbv iota beta.
  change (negb true) with false. cbv iota.
  resp_with ltac:(first [wrapper_step | method_step]).
Qed.

End GivenConfig.

(** X16: [delete_community_entry] fetches the community document only to
    find the configuration.  Called with a configuration (a [ytcfg] that is
    not None and not empty) it fetches no document, however it ends. *)
Theorem delete_community_entry_uses_given_config
  {H : Helpers} (b : backend) (action : json) (api_url : string)
  (ytcfg : json) (st : client) :
  truthy ytcfg = true ->
  existsb is_page
    (added st
       (run_state (delete_community_entry b action api_url ytcfg) st))
  = false.
Proof.
  intros Hcfg.
  pose proof (given_config_no_page b action api_url ytcfg Hcfg st) as E.
  apply added_extends in E as [_ F]. exact (no_page_pages _ F).
Qed.

Lemma delete_community_entry_uses_given_config_witness :
  existsb is_page
    (added Demo.logged_in_client
       (run_state
          (delete_community_entry (H := Demo.helpers) Demo.quiet
             (JStr "action-0") "/youtubei/v1/comment/perform_comment_action"
             Demo.ytcfg) Demo.logged_in_client))
  = false.
Proof.
  apply (delete_community_entry_uses_given_config (H := Demo.helpers)
           Demo.quiet (JStr "action-0")
           "/youtubei/v1/comment/perform_comment_action" Demo.ytcfg
           Demo.logged_in_client).
  reflexivity.
Defined.

(* ================================================================== *)
(** ** What [remove_video_ids_from_history] returns *)



(* ================================================================== *)
(** ** A page is fetched, and read, before anything is requested *)

(** Before any request of the transcript a page was fetched that is
    [good]. *)
Definition good_first (good : soup -> Prop) (tr : list event) : Prop :=
  exists tr1 url page tr2,
    tr = (tr1 ++ EvPage url (Ok page) :: tr2)%list
    /\ Forall non_request tr1 /\ good page.

(** Every way out of a call: it has fetched a good page before it
    requested anything, or it has requested nothing. *)
Definition guarded {A} (good : soup -> Prop) (st : client)
  (o : outcome A) (st' : client) : Prop :=
  exists tr,
    transcript st' = (transcript st ++ tr)%list
    /\ (good_first good tr \/ Forall non_request tr).

(** The same for a generator that does not complete unless it has fetched
    a good page. *)
Definition guarded_strictly {A} (good : soup -> Prop) (st : client)
  (o : outcome A) (st' : client) : Prop :=
  exists tr,
    transcript st' = (transcript st ++ tr)%list
    /\ (good_first good tr
        \/ (Forall non_request tr /\ forall a, o <> Done a)).

Lemma good_first_app good tr tr' :
  good_first good tr -> good_first good (tr ++ tr').
Proof.
  intros (tr1 & url & page & tr2 & -> & F & G).
  exists tr1, url, page, (tr2 ++ tr')%list.
  split; [rewrite <- app_assoc; reflexivity | split; assumption].
Qed.

Lemma good_first_after good tr0 tr :
  Forall non_request tr0 -> good_first good tr -> good_first good (tr0 ++ tr).
Proof.
  intros F0 (tr1 & url & page & tr2 & -> & F & G).
  exists (tr0 ++ tr1)%list, url, page, tr2.
  split; [apply app_assoc | ].
  split; [apply Forall_app; split; assumption | exact G].
Qed.

Lemma guarded_of_strictly {A} good st (o : outcome A) st' :
  guarded_strictly good st o st' -> guarded good st o st'.
Proof.
  intros [tr [E [G | [F _]]]]; exists tr; (split; [exact E | ]);
    [left | right]; assumption.
Qed.

(** What the guard says of the requests. *)
Lemma good_first_requests good tr :
  good_first good tr \/ Forall non_request tr ->
  forall before rq reply after,
    tr = (before ++ EvRequest rq reply :: after)%list ->
    exists url page, In (EvPage url (Ok page)) before /\ good page.
Proof.
  intros [(tr1 & url & page & tr2 & -> & F & G) | F] before rq reply after E.
  - exists url, page. split; [ | exact G].
    revert before E. induction F as [ | x tr1 Hx _ IH]; intros before E.
    + destruct before as [ | y before]; simpl in E.
      * discriminate E.
      * injection E as <- _. left. reflexivity.
    + destruct before as [ | y before]; simpl in E.
      * injection E as -> _. discriminate Hx.
      * injection E as _ E. right. exact (IH before E).
  - subst tr. apply Forall_app in F as [_ F].
    apply Forall_cons_iff in F as [F _]. discriminate F.
Qed.

Lemma holds_weaken {A} (m : M A) st (Q Q' : outcome A -> client -> Prop) :
  (forall o st', Q o st' -> Q' o st') -> holds m st Q -> holds m st Q'.
Proof. intros HQ Hm. apply HQ. exact Hm. Qed.

Lemma holds_bind_raise {A B} (e : exn) (k : A -> M B) st Q :
  Q (Raised e) st -> holds (bind (raise e) k) st Q.
Proof. trivial. Qed.

Lemma holds_bind_try_lift {A B} (r : result A) (h : exn -> option (M A))
  (k : A -> M B) st Q :
  match r with
  | Ok a => holds (k a) st Q
  | Err e =>
      match h e with
      | Some m' => holds (bind m' k) st Q
      | None => Q (Raised e) st
      end
  end ->
  holds (bind (try_except (lift r) h) k) st Q.
Proof.
  destruct r as [a | e]; [trivial | ].
  unfold holds, bind, try_except, lift, raise. simpl.
  destruct (h e); trivial.
Qed.

Lemma guarded_of_strictly_holds {A} good (m : M A) st st0 :
  holds m st (guarded_strictly good st0) -> holds m st (guarded good st0).
Proof. apply holds_weaken. intros o st'. apply guarded_of_strictly. Qed.

(** Once a good page has been fetched the call may do what it does. *)
Lemma holds_after_good {A} good (m : M A) st st1 tr :
  transcript st1 = (transcript st ++ tr)%list ->
  good_first good tr ->
  respects (extends any_event) m ->
  holds m st1 (guarded_strictly good st).
Proof.
  intros E G R. destruct (R st1) as [tr' [E' _]]. unfold run_state in E'.
  exists (tr ++ tr')%list. split.
  - rewrite E', E. symmetry. apply app_assoc.
  - left. apply good_first_app, G.
Qed.

(** As long as none has, what the call does must be free of requests. *)
Lemma holds_quiet {A} good (m : M A) st st1 tr :
  transcript st1 = (transcript st ++ tr)%list ->
  Forall non_request tr ->
  respects (extends non_request) m ->
  holds m st1 (guarded good st).
Proof.
  intros E F R. destruct (R st1) as [tr' [E' F']]. unfold run_state in E'.
  exists (tr ++ tr')%list. split.
  - rewrite E', E. symmetry. apply app_assoc.
  - right. apply Forall_app. split; assumption.
Qed.

Lemma guarded_bind_tail {A B} good (m : M A) (k : A -> M B) st :
  holds m st (guarded good st) ->
  (forall a, respects same_transcript (k a)) ->
  holds (bind m k) st (guarded good st).
Proof.
  intros Hm Hk. unfold holds, bind in *.
  destruct (m st) as [[a | e | e | ] st1]; simpl in *; try exact Hm.
  destruct Hm as [tr [E G]]. exists tr. split; [ | exact G].
  specialize (Hk a st1). unfold run_state, same_transcript in Hk.
  rewrite Hk. exact E.
Qed.

(** A generator that is guarded strictly, drained by a consumer. *)
Lemma holds_bind_consume {B C} good (g : generator) fuel
  (check : json -> result B) (k : list json -> M C) st st1 tr0 :
  transcript st1 = (transcript st ++ tr0)%list ->
  Forall non_request tr0 ->
  (forall on_yield, holds (g fuel on_yield) st1 (guarded_strictly good st1)) ->
  (forall items, respects (extends any_event) (k items)) ->
  holds (bind (consume g fuel check) k) st1 (guarded good st).
Proof.
  intros E0 F0 Hg Hk.
  specialize (Hg (fun x => rbind (check x) (fun _ => Ok tt))).
  unfold holds, bind, consume in *.
  destruct (g fuel _ st1) as [[a | e | e | ] st2]; simpl in *;
    destruct Hg as [tr [E G]].
  - destruct G as [G | [_ N]]; [ | exfalso; exact (N a eq_refl)].
    destruct (Hk (yields (skipn (length (transcript st1)) (transcript st2)))
                st2) as [tr' [E' _]].
    unfold run_state in E'.
    exists (tr0 ++ tr ++ tr')%list. split.
    + rewrite E', E, E0, <- !app_assoc. reflexivity.
    + left. apply good_first_after; [exact F0 | ].
      apply good_first_app, G.
  - exists (tr0 ++ tr)%list. split; [rewrite E, E0, app_assoc; reflexivity | ].
    destruct G as [G | [F _]];
      [left; apply good_first_after | right; apply Forall_app; split];
      assumption.
  - exists (tr0 ++ tr)%list. split; [rewrite E, E0, app_assoc; reflexivity | ].
    destruct G as [G | [F _]];
      [left; apply good_first_after | right; apply Forall_app; split];
      assumption.
  - exists (tr0 ++ tr)%list. split; [rewrite E, E0, app_assoc; reflexivity | ].
    destruct G as [G | [F _]];
      [left; apply good_first_after | right; apply Forall_app; split];
      assumption.
Qed.

(** The same when the consumer's statement stands in a [try]. *)
Lemma holds_bind_attempt_consume {B C} good (g : generator) fuel
  (check : json -> result B) (k : result (list json) -> M C) st :
  (forall on_yield, holds (g fuel on_yield) st (guarded_strictly good st)) ->
  (forall r, respects (extends any_event) (k r)) ->
  (forall e, respects (extends non_request) (k (Err e))) ->
  holds (bind (attempt (consume g fuel check)) k) st (guarded good st).
Proof.
  intros Hg Hany Hquiet.
  specialize (Hg (fun x => rbind (check x) (fun _ => Ok tt))).
  unfold holds, bind, attempt, consume in *.
  assert (Hcont : forall r st2 tr,
            transcript st2 = (transcript st ++ tr)%list ->
            good_first good tr
            \/ (Forall non_request tr /\ exists e, r = Err e) ->
            guarded good st (fst (k r st2)) (snd (k r st2))).
  { intros r st2 tr E [G | [F [e ->]]].
    - destruct (Hany r st2) as [tr' [E' _]]. unfold run_state in E'.
      exists (tr ++ tr')%list.
      split; [rewrite E', E, app_assoc; reflexivity | ].
      left. apply good_first_app, G.
    - destruct (Hquiet e st2) as [tr' [E' F']]. unfold run_state in E'.
      exists (tr ++ tr')%list.
      split; [rewrite E', E, app_assoc; reflexivity | ].
      right. apply Forall_app. split; assumption. }
  destruct (g fuel _ st) as [[a | e | e | ] st2]; simpl in *;
    destruct Hg as [tr [E G]].
  - apply (Hcont _ _ tr E).
    destruct G as [G | [_ N]]; [left; exact G | exfalso; exact (N a eq_refl)].
  - apply (Hcont _ _ tr E).
    destruct G as [G | [F _]]; [left; exact G | right].
    split; [exact F | eexists; reflexivity].
  - apply (Hcont _ _ tr E).
    destruct G as [G | [F _]]; [left; exact G | right].
    split; [exact F | eexists; reflexivity].
  - exists tr. split; [exact E | ].
    destruct G as [G | [F _]]; [left | right]; assumption.
Qed.

Section Harvest.

Context {H : Helpers} (b : backend).

Ltac exit_quiet :=
  lazymatch goal with
  | |- guarded _ _ _ _ =>
      eexists; split; [eassumption | right; repeat constructor]
  | |- guarded_strictly _ _ _ _ =>
      eexists; split;
      [eassumption | right; split; [repeat constructor | discriminate]]
  | |- holds (bind (raise _) _) _ _ => apply holds_bind_raise; exit_quiet
  | |- holds (ret _) _ _ => apply holds_ret; exit_quiet
  end.

Ltac login_step :=
  apply holds_bind_login;
  lazymatch goal with
  | |- if logged_in ?st then _ else _ =>
      let E0 := fresh "E0" in
      pose proof (eq_sym (app_nil_r (transcript st))) as E0;
      destruct (logged_in st); [clear E0 | exit_quiet]
  end.

Ltac page_step :=
  apply holds_bind_download_page_soup;
  let st1 := fresh "st" in
  let Htr := fresh "Htr" in
  intros st1 _ Htr;
  lazymatch goal with
  | |- match page_reply ?b ?n with _ => _ end =>
      destruct (page_reply b n); [ | exit_quiet]
  end.

Ltac lift_step :=
  apply holds_bind_lift;
  lazymatch goal with
  | |- match ?r with _ => _ end =>
      let E := fresh "E" in
      destruct r eqn:E; [ | exit_quiet]
  end.

Ltac good_page :=
  eexists [], _, _, [];
  split; [reflexivity | split; [constructor | ] ];
  unfold harvested_with, playlist_path, history_path, clear_button_path,
    toggle_path;
  split; [eexists; eassumption | ];
  try (eexists; eexists; split; eassumption);
  try exact I.

Ltac after_good :=
  eapply holds_after_good;
  [eassumption | good_page | resp_with method_step].

Lemma get_playlist_info_harvests playlist_id fuel on_yield st :
  holds (get_playlist_info b playlist_id fuel on_yield) st
    (guarded_strictly
       (harvested_with (Some (fun data => walk data playlist_path))) st).
Proof.
  unfold get_playlist_info.
  login_step. page_step. lift_step. lift_step. lift_step.
  apply holds_bind_try_lift.
  lazymatch goal with
  | |- match ?r with _ => _ end => destruct r as [vlr | e] eqn:Ewalk
  end.
  - after_good.
  - destruct e; cbv beta iota; try exit_quiet.
    destruct (eq_str arg "playlistVideoListRenderer"); exit_quiet.
Qed.

Lemma get_history_info_harvests fuel on_yield st :
  holds (get_history_info b fuel on_yield) st
    (guarded_strictly
       (harvested_with (Some (fun data => walk data history_path))) st).
Proof.
  unfold get_history_info.
  login_step. page_step. lift_step. lift_step. lift_step. lift_step.
  after_good.
Qed.

Lemma community_history_harvests only_first_page fuel on_yield st :
  holds (_community_history b only_first_page fuel on_yield) st
    (guarded_strictly (harvested (OpCommunityHistory only_first_page)) st).
Proof.
  unfold _community_history, harvested, key_path.
  login_step. page_step. lift_step. lift_step. cbv zeta. lift_step.
  lift_step. after_good.
Qed.

Lemma clear_watch_history_harvests st :
  holds (clear_watch_history b) st (guarded (harvested OpClearWatchHistory) st).
Proof.
  unfold clear_watch_history, harvested, key_path.
  login_step. page_step. lift_step. lift_step. cbv zeta. lift_step.
  cbv zeta.
  lazymatch goal with
  | |- context [rbind (walk ?d ?p) _] => destruct (walk d p) eqn:Ewalk
  end.
  - apply guarded_of_strictly_holds. after_good.
  - cbn [rbind]. eapply holds_quiet;
      [eassumption | repeat constructor | resp_with method_step].
Qed.

Lemma toggle_history_harvests page_url contents_index st :
  holds (_toggle_history b page_url contents_index) st
    (guarded (harvested_with (Some (at_path (toggle_path contents_index))))
       st).
Proof.
  unfold _toggle_history.
  login_step. page_step. lift_step. lift_step. lift_step.
  apply guarded_of_strictly_holds. after_good.
Qed.

Lemma clear_search_history_harvests st :
  holds (clear_search_history b) st
    (guarded (harvested OpClearSearchHistory) st).
Proof.
  unfold clear_search_history, harvested, key_path.
  login_step. page_step. lift_step. lift_step. lift_step.
  apply guarded_of_strictly_holds. after_good.
Qed.

Lemma remove_video_id_harvests playlist_id video_id (cache_values : bool) st :
  (if cache_values then rsvi_cache st else None) = None ->
  holds (remove_video_id_from_playlist b playlist_id video_id cache_values) st
    (guarded (harvested_with None) st).
Proof.
  intros Hcache. unfold remove_video_id_from_playlist.
  login_step. apply holds_bind_get_client. cbv beta. rewrite Hcache.
  cbv iota. apply holds_assoc. page_step. apply holds_assoc. lift_step.
  apply guarded_of_strictly_holds. after_good.
Qed.

Lemma delete_community_entry_harvests action api_url ytcfg st :
  truthy ytcfg = false ->
  holds (delete_community_entry b action api_url ytcfg) st
    (guarded (harvested_with None) st).
Proof.
  intros Hcfg. unfold delete_community_entry. rewrite Hcfg.
  change (negb false) with true. cbv iota.
  login_step. apply holds_assoc. page_step. lift_step.
  apply guarded_of_strictly_holds. after_good.
Qed.

Lemma clear_playlist_harvests fuel playlist_id st :
  holds (clear_playlist b fuel playlist_id) st
    (guarded (harvested_with (Some (fun data => walk data playlist_path)))
       st).
Proof.
  unfold clear_playlist. login_step.
  apply holds_bind_attempt_consume.
  - intros on_yield. apply get_playlist_info_harvests.
  - intros r. resp_with method_step.
  - intros e. cbv beta iota. resp_with method_step.
Qed.

Lemma remove_video_ids_harvests fuel video_ids st :
  holds (remove_video_ids_from_history b fuel video_ids) st
    (guarded (harvested_with (Some (fun data => walk data history_path)))
       st).
Proof.
  unfold remove_video_ids_from_history.
  apply holds_bind_login.
  pose proof (eq_sym (app_nil_r (transcript st))) as E0.
  destruct (logged_in st); [ | exit_quiet].
  destruct video_ids as [ | id video_ids]; [exit_quiet | ].
  clear E0. page_step. lift_step. lift_step.
  eapply holds_bind_consume.
  - eassumption.
  - repeat constructor.
  - intros on_yield. apply get_history_info_harvests.
  - intros items. resp_with method_step.
Qed.

Lemma perform_harvests fuel on_yield op st :
  op <> OpLogin ->
  skips_page_fetch op st = false ->
  holds (perform b fuel on_yield op) st (guarded (harvested op) st).
Proof.
  intros Hop Hskip.
  unfold perform, call, harvested.
  destruct op; try congruence; cbn [key_path];
    unfold clear_watch_later, toggle_search_history, toggle_watch_history,
      community_history.
  - apply holds_assoc. apply guarded_bind_tail.
    + apply remove_video_id_harvests. simpl in Hskip.
      destruct cache_values; [ | reflexivity].
      destruct (rsvi_cache st); [discriminate | reflexivity].
    + intros v. resp_with wrapper_step.
  - apply holds_assoc. apply guarded_bind_tail.
    + apply clear_watch_history_harvests.
    + intros v. resp_with wrapper_step.
  - apply holds_bind_ret. cbv beta iota.
    apply guarded_of_strictly_holds, get_playlist_info_harvests.
  - apply holds_assoc. apply guarded_bind_tail.
    + apply clear_playlist_harvests.
    + intros v. resp_with wrapper_step.
  - apply holds_assoc. apply guarded_bind_tail.
    + apply clear_playlist_harvests.
    + intros v. resp_with wrapper_step.
  - apply holds_bind_ret. cbv beta iota.
    apply guarded_of_strictly_holds, get_history_info_harvests.
  - apply holds_assoc. apply guarded_bind_tail.
    + apply remove_video_ids_harvests.
    + intros v. resp_with wrapper_step.
  - apply holds_assoc. apply guarded_bind_tail.
    + apply toggle_history_harvests.
    + intros v. resp_with wrapper_step.
  - apply holds_assoc. apply guarded_bind_tail.
    + apply toggle_history_harvests.
    + intros v. resp_with wrapper_step.
  - apply holds_bind_ret. cbv beta iota.
    apply guarded_of_strictly_holds.
    apply (community_history_harvests only_first_page fuel on_yield st).
  - apply holds_assoc. apply guarded_bind_tail.
    + apply delete_community_entry_harvests. exact Hskip.
    + intros v. resp_with wrapper_step.
  - apply holds_assoc. apply guarded_bind_tail.
    + apply clear_search_history_harvests.
    + intros v. resp_with wrapper_step.
Qed.

End Harvest.

(** C7, as amended: every public method that reads or changes the state of
    the account sends a request only after it has, in that same call,
    fetched an HTML page, extracted the configuration from that page and,
    when it reads the initial data, extracted the initial data from that
    page too and walked its hard-coded key path into it: whatever way the
    call ends, every request in its transcript comes after the fetch of
    such a page.  [remove_video_id_from_playlist] and
    [delete_community_entry] read no initial data; of them the
    configuration alone is required.  Two calls are made to work without a
    page and are set aside: [remove_video_id_from_playlist] with
    [cache_values] true on a client whose cache is filled, and
    [delete_community_entry] given a [ytcfg] that counts as true. *)
Theorem page_fetch_precedes_requests
  {H : Helpers} (b : backend) (fuel : nat) (on_yield : json -> result unit)
  (op : operation) (st : client)
  (before : list event) (rq : request) (reply : result json)
  (after : list event) :
  op <> OpLogin ->
  skips_page_fetch op st = false ->
  added st (run_state (perform b fuel on_yield op) st)
  = (before ++ EvRequest rq reply :: after)%list ->
  exists url page,
    In (EvPage url (Ok page)) before /\ harvested op page.
Proof.
  intros Hop Hskip E.
  destruct (perform_harvests b fuel on_yield op st Hop Hskip)
    as [tr [Etr G]].
  apply added_app in Etr. unfold run_state in E. rewrite Etr in E.
  exact (good_first_requests _ _ G _ _ _ _ E).
Qed.

Lemma page_fetch_precedes_requests_witness :
  exists url page,
    In (EvPage url (Ok page))
      [EvPage (SEARCH_HISTORY_URL (Helpers := Demo.helpers)) (Ok "other")]
    /\ harvested (H := Demo.helpers) OpClearSearchHistory page.
Proof.
  pose (tr := added Demo.logged_in_client
                (run_state
                   (perform (H := Demo.helpers) Demo.quiet 2 (fun _ => Ok tt)
                      OpClearSearchHistory) Demo.logged_in_client)).
  apply (page_fetch_precedes_requests (H := Demo.helpers) Demo.quiet 2
           (fun _ => Ok tt) OpClearSearchHistory Demo.logged_in_client
           [EvPage (SEARCH_HISTORY_URL (Helpers := Demo.helpers))
              (Ok "other")]
           (match nth 1 tr (EvSleep 0) with
            | EvRequest rq _ => rq
            | _ => playlist_request [] JNull JNull
            end)
           (match nth 1 tr (EvSleep 0) with
            | EvRequest _ reply => reply
            | _ => Err TypeError
            end)
           (skipn 2 tr)).
  - discriminate.
  - reflexivity.
  - vm_compute. reflexivity.
Defined.

(** C7 as stated fails.  [remove_video_id_from_playlist] called a second
    time with [cache_values] true, and [delete_community_entry] called
    with the configuration in hand, send their request in a call that
    fetches no page.  And these two methods extract no initial data: on a
    site whose documents hold none they fetch the page, read the
    configuration and send their request all the same. *)
Lemma request_without_page_fetch :
  let remove := OpRemoveVideoIdFromPlaylist "PL" "v1" true in
  let delete := OpDeleteCommunityEntry "action" "/youtubei/v1/comment"
                  Demo.ytcfg in
  let run op st :=
    run_state (perform (H := Demo.helpers) Demo.quiet 2 (fun _ => Ok tt) op)
      st in
  let bare op st :=
    run_state (perform (H := Demo.blobless) Demo.quiet 2 (fun _ => Ok tt) op)
      st in
  let st0 := Demo.logged_in_client in
  let st1 := run remove st0 in
  existsb is_request (added st1 (run remove st1)) = true
  /\ existsb is_page (added st1 (run remove st1)) = false
  /\ existsb is_request (added st0 (run delete st0)) = true
  /\ existsb is_page (added st0 (run delete st0)) = false
  /\ (forall page, exists e,
        initial_data (Helpers := Demo.blobless) page = Err e)
  /\ existsb is_request
       (added st0 (bare (OpRemoveVideoIdFromPlaylist "PL" "v1" false) st0))
     = true
  /\ existsb is_request
       (added st0
          (bare (OpDeleteCommunityEntry "action" "/youtubei/v1/comment"
                   JNull) st0))
     = true.
Proof.
  vm_compute. repeat split. intros page. eexists. reflexivity.
Qed.

(* ================================================================== *)
(** ** An HTTP error ends the walk over the history *)



(* ================================================================== *)
(** ** Which requests are made again *)




(* ================================================================== *)
(** ** Where the walks end *)

(** *** Computations that need no fuel

    [finishes m]: whatever the client, [m] does not run out of fuel. *)
Definition finishes {A} (m : M A) : Prop :=
  forall st, fst (m st) <> NoFuel.

Lemma fin_ret {A} (a : A) : finishes (ret a).
Proof. intros st. discriminate. Qed.

Lemma fin_raise {A} (e : exn) : finishes (@raise A e).
Proof. intros st. discriminate. Qed.

Lemma fin_stop {A} (e : exn) : finishes (@stop A e).
Proof. intros st. discriminate. Qed.

Lemma fin_lift {A} (r : result A) : finishes (lift r).
Proof. destruct r; intros st; discriminate. Qed.

Lemma fin_record ev : finishes (record ev).
Proof. intros st. discriminate. Qed.

Lemma fin_count : finishes count_request.
Proof. intros st. discriminate. Qed.

Lemma fin_get_client : finishes get_client.
Proof. intros st. discriminate. Qed.

Lemma fin_bind {A B} (m : M A) (k : A -> M B) :
  finishes m -> (forall a, finishes (k a)) -> finishes (bind m k).
Proof.
  intros Hm Hk st. specialize (Hm st). unfold bind.
  destruct (m st) as [[a | e | e | ] st1]; simpl in *;
    try discriminate; [apply Hk | exfalso; apply Hm; reflexivity].
Qed.

Lemma fin_try_except {A} (m : M A) (h : exn -> option (M A)) :
  finishes m -> (forall e m', h e = Some m' -> finishes m') ->
  finishes (try_except m h).
Proof.
  intros Hm Hh st. specialize (Hm st). unfold try_except.
  destruct (m st) as [[a | e | e | ] st1]; simpl in *;
    try discriminate; [ | exfalso; apply Hm; reflexivity].
  destruct (h e) as [m' | ] eqn:E; [exact (Hh e m' E st1) | discriminate].
Qed.

Lemma fin_attempt {A} (m : M A) : finishes m -> finishes (attempt m).
Proof.
  intros Hm st. specialize (Hm st). unfold attempt.
  destruct (m st) as [[a | e | e | ] st1]; simpl in *;
    try discriminate; exfalso; apply Hm; reflexivity.
Qed.

Lemma fin_for_each {S} (l : list json) (body : json -> S -> M (ctl S)) :
  (forall x s, finishes (body x s)) ->
  forall s, finishes (for_each l s body).
Proof.
  intros Hb. induction l as [ | x l IH]; intros s; simpl.
  - apply fin_ret.
  - apply fin_bind; [apply Hb | ].
    intros [s' | s']; [apply IH | apply fin_ret].
Qed.

Lemma fin_require_login : finishes require_login.
Proof.
  intros st. unfold require_login, bind, get_client. simpl.
  destruct (logged_in st); discriminate.
Qed.

Lemma fin_assert_not_none v : finishes (assert_not_none v).
Proof.
  unfold assert_not_none. destruct (is_none v); [apply fin_raise | apply fin_ret].
Qed.

Ltac finish_with tac :=
  repeat first
    [ assumption
    | match goal with
      | |- forall e m', _ = Some m' -> finishes m' =>
          let e := fresh "e" in
          let E := fresh "E" in
          intros e ? E; destruct e; simpl in E; try discriminate E;
          injection E as <-
      end
    | progress intros
    | progress cbv beta zeta
    | tac
    | lazymatch goal with
      | |- finishes (ret _) => apply fin_ret
      | |- finishes (raise _) => apply fin_raise
      | |- finishes (stop _) => apply fin_stop
      | |- finishes (lift _) => apply fin_lift
      | |- finishes require_login => apply fin_require_login
      | |- finishes (assert_not_none _) => apply fin_assert_not_none
      | |- finishes (record _) => apply fin_record
      | |- finishes (log _ _) => apply fin_record
      | |- finishes (sleep _) => apply fin_record
      | |- finishes count_request => apply fin_count
      | |- finishes get_client => apply fin_get_client
      | |- finishes (bind _ _) => apply fin_bind
      | |- finishes (try_except _ _) => apply fin_try_except
      | |- finishes (attempt _) => apply fin_attempt
      | |- finishes (for_each _ _ _) => apply fin_for_each
      | |- finishes (match ?x with _ => _ end) => destruct x
      end ].

Section Finishes.

Context {H : Helpers} (b : backend).

Lemma fin_download_page rq : finishes (_download_page b rq).
Proof. unfold _download_page. finish_with fail. Qed.

Lemma fin_download_page_soup url : finishes (_download_page_soup b url).
Proof. unfold _download_page_soup. finish_with fail. Qed.

Lemma fin_yield on_yield x : finishes (yield_ on_yield x).
Proof. unfold yield_. finish_with fail. Qed.

Lemma fin_yield_from on_yield v : finishes (yield_from on_yield v).
Proof. unfold yield_from, yield_. finish_with fail. Qed.

(** Five rounds are enough for the inner loop of [get_history_info]. *)
Lemma fin_history_fetch rq :
  forall left tries time last resp,
    5 - tries <= Z.of_nat left ->
    finishes (history_fetch b left rq tries time last resp).
Proof.
  induction left as [ | left IH]; intros tries time last resp Hleft; simpl.
  - destruct (tries <? 5) eqn:Hlt; [ | apply fin_ret].
    apply Z.ltb_lt in Hlt. lia.
  - destruct (tries <? 5); [ | apply fin_ret].
    unfold _download_page.
    finish_with ltac:(idtac;
      lazymatch goal with
      | |- finishes (history_fetch _ _ _ _ _ _ _) => apply IH; lia
      end).
Qed.

Ltac finish_step :=
  idtac;
  lazymatch goal with
  | |- finishes (_download_page _ _) => apply fin_download_page
  | |- finishes (_download_page_soup _ _) => apply fin_download_page_soup
  | |- finishes (yield_ _ _) => apply fin_yield
  | |- finishes (yield_from _ _) => apply fin_yield_from
  | |- finishes (history_fetch _ _ _ _ _ _ _) =>
      apply fin_history_fetch; simpl; lia
  end.

Lemma fin_playlist_round on_yield headers vlr s :
  finishes (playlist_round b on_yield headers vlr s).
Proof. unfold playlist_round. finish_with finish_step. Qed.

Lemma fin_history_round on_yield headers s :
  finishes (history_round b on_yield headers s).
Proof.
  destruct s as [[params xsrf] resp0].
  unfold history_round, history_next_sections. finish_with finish_step.
Qed.

Lemma fin_community_round on_yield ytcfg headers s :
  finishes (community_round b on_yield ytcfg headers s).
Proof.
  unfold community_round, community_fetch, community_entries.
  finish_with finish_step.
Qed.

End Finishes.

(** *** What a run that is out of fuel has done

    [fuelled n Q m]: when [m] runs out of fuel it has made [n] requests at
    least, and left a client that satisfies [Q]. *)
Definition fuelled {A} (n : nat) (Q : client -> Prop) (m : M A) : Prop :=
  forall st,
    fst (m st) = NoFuel ->
    (sent st + n <= sent (snd (m st)))%nat /\ Q (snd (m st)).

Lemma fuelled_finishes {A} n Q (m : M A) : finishes m -> fuelled n Q m.
Proof. intros Hm st N. destruct (Hm st N). Qed.

Lemma fuelled_weaken {A} n (Q Q' : client -> Prop) (m : M A) :
  (forall st, Q st -> Q' st) -> fuelled n Q m -> fuelled n Q' m.
Proof.
  intros HQ Hm st N. destruct (Hm st N) as [Hle Hq].
  split; [exact Hle | exact (HQ _ Hq)].
Qed.

Lemma fuelled_bind {A B} n Q (m : M A) (k : A -> M B) :
  finishes m -> respects sent_grows m ->
  (forall a, fuelled n Q (k a)) ->
  fuelled n Q (bind m k).
Proof.
  intros Hfin Hgrows Hk st. specialize (Hfin st). specialize (Hgrows st).
  unfold run_state, sent_grows in Hgrows. unfold bind.
  destruct (m st) as [[a | e | e | ] st1]; simpl in *; try discriminate.
  - intros N. destruct (Hk a st1 N) as [Hle Hq]. split; [lia | exact Hq].
  - intros _. exfalso. apply Hfin. reflexivity.
Qed.

Lemma fuelled_bind_tail {A B} n Q (m : M A) (k : A -> M B) :
  fuelled n Q m -> (forall a, finishes (k a)) -> fuelled n Q (bind m k).
Proof.
  intros Hm Hk st. specialize (Hm st). unfold bind.
  destruct (m st) as [[a | e | e | ] st1]; simpl in *; try discriminate.
  - intros N. destruct (Hk a st1 N).
  - intros _. apply Hm. reflexivity.
Qed.

(** A [while] loop whose rounds need no fuel themselves and make a request
    at least before they ask for another round: out of fuel, it has made
    as many requests as it had fuel, and the last round has left the
    client as a round that asks for another one does. *)
Lemma fuelled_while_loop {S} (I : S -> Prop) (C : client -> Prop)
  (cond : S -> bool) (body : S -> M (ctl S)) :
  (forall s, finishes (body s)) ->
  (forall s st s' st',
     I s -> cond s = true -> body s st = (Done (Next s'), st') ->
     cond s' = true ->
     I s' /\ (sent st < sent st')%nat /\ C st') ->
  forall fuel s,
    I s ->
    fuelled fuel (fun st' => (0 < fuel)%nat -> C st')
      (while_loop fuel cond s body).
Proof.
  intros Hfin Hstep. induction fuel as [ | fuel IH]; intros s Hs st N.
  - simpl. destruct (cond s); simpl; (split; [lia | intros Hlt; lia]).
  - simpl in N |- *. destruct (cond s) eqn:Hc; [ | discriminate N].
    unfold bind in N |- *.
    destruct (body s st) as [[[s1 | s1] | e | e | ] st1] eqn:E;
      simpl in N |- *; try discriminate N.
    + destruct (cond s1) eqn:Hc1.
      * destruct (Hstep _ _ _ _ Hs Hc E Hc1) as [Hs1 [Hlt HC]].
        destruct (IH s1 Hs1 st1 N) as [Hle HQ].
        split; [lia | ]. intros _.
        destruct fuel as [ | fuel']; [ | apply HQ; lia].
        simpl. rewrite Hc1. exact HC.
      * destruct fuel; simpl in N; rewrite Hc1 in N; discriminate N.
    + exfalso. apply (Hfin s st). rewrite E. reflexivity.
Qed.

Section Fuelled.

Context {H : Helpers} (b : backend).

Lemma fuelled_bind_page {B} n Q url (k : soup -> M B) :
  (forall a, fuelled n Q (k a)) ->
  fuelled (S n) Q (bind (_download_page_soup b url) k).
Proof.
  intros Hk st. rewrite (bind_download_page_soup b url k st). cbv zeta.
  destruct (page_reply b (sent st)) as [content | e]; [ | discriminate].
  intros N. destruct (Hk content _ N) as [Hle Hq]. cbn [sent] in Hle.
  split; [lia | exact Hq].
Qed.

End Fuelled.

Ltac fuel_step :=
  idtac;
  lazymatch goal with
  | |- fuelled _ _ (bind (_download_page_soup _ _) _) =>
      apply fuelled_bind_page; intros
  | |- fuelled _ _ (bind (while_loop _ _ _ _) _) => fail
  | |- fuelled _ _ (bind _ _) =>
      apply fuelled_bind;
      [ unfold playlist_first_items, history_first_sections,
          community_entries;
        finish_with ltac:(first [ apply fin_yield | apply fin_yield_from ])
      | resp_with method_step
      | intros ]
  | |- fuelled _ _ (ret _) => apply fuelled_finishes, fin_ret
  | |- fuelled _ _ (match ?x with _ => _ end) => destruct x
  | |- fuelled _ _ (let _ := _ in _) => cbv zeta
  end.

Section PlaylistEnds.

Context {H : Helpers} (b : backend).

Lemma playlist_round_sent on_yield headers vlr s st o st' :
  playlist_round b on_yield headers vlr s st = (o, st') ->
  sent st' = S (sent st).
Proof.
  intros E.
  destruct (playlist_round_continues b on_yield headers vlr s st)
    as [Hsent _].
  rewrite E in Hsent. exact Hsent.
Qed.

Lemma get_playlist_info_fuelled playlist_id fuel on_yield :
  fuelled (S fuel) (fun _ => True)
    (get_playlist_info b playlist_id fuel on_yield).
Proof.
  unfold get_playlist_info. repeat fuel_step.
  apply fuelled_bind_tail; [ | intros; apply fin_ret].
  apply fuelled_weaken with (Q := fun st' => (0 < fuel)%nat -> True);
    [trivial | ].
  apply fuelled_while_loop with (I := fun _ => True);
    [intros; apply fin_playlist_round | | exact I].
  intros s0 st s' st' _ _ E _.
  apply playlist_round_sent in E. split; [exact I | split; [lia | exact I]].
Qed.

End PlaylistEnds.

(* ---------------------------------------------------------------- *)
(** *** The walk through the history *)

(** Request number [i] failed with an HTTP error. *)
Definition http_failed (b : backend) (i : nat) : Prop :=
  exists c, json_reply b i = Err (HTTPError c).

(** Request number [i] of a walk through the history is one that another
    may follow: it failed with an HTTP error, or it was answered by a page
    that holds a continuation. *)
Definition history_goes_on (b : backend) (i : nat) : Prop :=
  http_failed b i
  \/ exists page,
       json_reply b i = Ok page /\ history_page_continues page = true.

(** A loop that completes has kept [P] of its variables, or has left at an
    item of which [f] holds. *)
Lemma for_each_break_inv {S} (P : S -> Prop) (f : json -> bool)
  (body : json -> S -> M (ctl S)) :
  (forall x s st c st',
     P s -> body x s st = (Done c, st') ->
     match c with
     | Next s' => P s'
     | Break _ => f x = true
     end) ->
  forall l s st s' st',
    P s -> for_each l s body st = (Done s', st') ->
    P s' \/ existsb f l = true.
Proof.
  intros Hbody. induction l as [ | x l IH]; intros s st s' st' Hs E.
  - apply ret_inv in E as [-> _]. left. exact Hs.
  - simpl in E. apply bind_inv in E as (c & st1 & E1 & E2).
    pose proof (Hbody _ _ _ _ _ Hs E1) as Hc.
    destruct c as [s1 | s1].
    + destruct (IH _ _ _ _ Hc E2) as [Hp | Hf]; [left; exact Hp | ].
      right. simpl. rewrite Hf. apply orb_true_r.
    + right. simpl. rewrite Hc. reflexivity.
Qed.

Section HistoryEnds.

Context {H : Helpers} (b : backend).

(** The inner loop: every request but the last one failed with an HTTP
    error. *)
Lemma history_fetch_failures rq :
  forall left tries time last resp st,
    let r := history_fetch b left rq tries time last resp st in
    (sent st <= sent (snd r))%nat
    /\ forall i, (sent st <= i)%nat -> (S i < sent (snd r))%nat ->
                 http_failed b i.
Proof.
  induction left as [ | left IH]; intros tries time last resp st r.
  - subst r. simpl. destruct (tries <? 5); simpl; (split; [lia | intros; lia]).
  - destruct (tries <? 5) eqn:Hlt.
    + subst r.
      rewrite history_fetch_attempt by (apply Z.ltb_lt; exact Hlt).
      destruct (json_reply b (sent st)) as [v | e] eqn:Hreply;
        [simpl; split; [lia | intros; lia] | ].
      destruct e; try (simpl; split; [lia | intros; lia]).
      destruct (IH (tries + 1) (2 ^ (tries + 1)) (Some (HTTPError status))
                  resp (after_attempt b rq time st)) as [Hle Hfail].
      cbn [after_attempt sent] in Hle, Hfail.
      split; [lia | ].
      intros i Hlo Hhi. destruct (Nat.eq_dec i (sent st)) as [-> | Hne].
      * exists status. exact Hreply.
      * apply Hfail; [lia | exact Hhi].
    + subst r. simpl. rewrite Hlt. simpl. split; [lia | intros; lia].
Qed.

(** The inner loop, from its start: it makes a request; when it returns
    without an exception to report, its first request was answered, and
    was the only one. *)
Lemma history_fetch_first rq resp0 st :
  let r := history_fetch b 5 rq 0 0 None resp0 st in
  (sent st < sent (snd r))%nat
  /\ forall v, fst r = Done (None, v) ->
               json_reply b (sent st) = Ok v /\ sent (snd r) = S (sent st).
Proof.
  intros r. subst r.
  rewrite (history_fetch_attempt b 4 rq 0 0 None resp0 st ltac:(lia)).
  destruct (json_reply b (sent st)) as [v | e] eqn:Hreply.
  - simpl. split; [lia | ]. intros v' E. injection E as <-.
    split; reflexivity.
  - destruct e; try (simpl; split; [lia | discriminate]).
    destruct (history_fetch_failures rq 4 (0 + 1) (2 ^ (0 + 1))
                (Some (HTTPError status)) resp0 (after_attempt b rq 0 st))
      as [Hle _].
    destruct (history_fetch_retries b rq 4 (0 + 1) (2 ^ (0 + 1))
                (HTTPError status) resp0 (after_attempt b rq 0 st))
      as [_ Hlast].
    cbn [after_attempt sent] in Hle.
    split; [lia | ]. intros v E. destruct (Hlast v E).
Qed.

(** Every way out of a round: it has made a request, and every request
    but the last one failed with an HTTP error. *)
Lemma history_round_failures on_yield headers s st :
  let r := history_round b on_yield headers s st in
  (sent st < sent (snd r))%nat
  /\ forall i, (sent st <= i)%nat -> (S i < sent (snd r))%nat ->
               http_failed b i.
Proof.
  destruct s as [[params xsrf] resp0]. intros r. subst r.
  unfold history_round.
  set (rq := history_request headers xsrf params).
  destruct (history_fetch_first rq resp0 st) as [Hlt _].
  destruct (history_fetch_failures rq 5 0 0 None resp0 st) as [_ Hfail].
  cbv zeta in Hlt, Hfail.
  destruct (history_fetch b 5 rq 0 0 None resp0 st)
    as [[[last resp] | e | e | ] st1] eqn:E1;
    [ rewrite (bind_done _ _ _ _ _ E1)
    | rewrite (bind_raised _ _ _ _ _ E1)
    | rewrite (bind_stopped _ _ _ _ _ E1)
    | rewrite (bind_no_fuel _ _ _ _ E1) ];
    cbn [fst snd] in Hlt, Hfail |- *;
    try (split; [exact Hlt | exact Hfail]).
  match goal with
  | |- context [snd (?m st1)] =>
      assert (R : respects same_sent m)
        by (unfold history_next_sections; resp_with method_step);
      pose proof (R st1) as E
  end.
  unfold run_state, same_sent in E. rewrite E.
  split; [exact Hlt | exact Hfail].
Qed.

Lemma history_section_breaks on_yield x (s : json) st c st' :
  s = JNull ->
  match walk x [K "itemSectionRenderer"; K "contents"] with
  | Ok entries => yield_from on_yield entries ;; ret (Next s)
  | Err (KeyError arg) =>
      has_cont <- lift (contains "continuationItemRenderer" x) ;;
      if has_cont then
        '(token, click_tracking_params) <- lift (continuation_of_item x) ;;
        ret (Break (JList [JDict [("nextContinuationData", JDict
                [("continuation", token);
                 ("clickTrackingParams", click_tracking_params)])]]))
      else raise (KeyError arg)
  | Err e => raise e
  end st = (Done c, st') ->
  match c with
  | Next s' => s' = JNull
  | Break _ =>
      match contains "continuationItemRenderer" x with
      | Ok true => true
      | _ => false
      end = true
  end.
Proof.
  intros Hs E.
  destruct (walk x [K "itemSectionRenderer"; K "contents"]) as [entries | e].
  - apply bind_inv in E as (u & st1 & _ & E).
    apply ret_inv in E as [-> _]. exact Hs.
  - destruct e; try discriminate E.
    apply bind_inv in E as (has & st1 & E1 & E).
    apply lift_inv in E1 as [Ehas ->]. rewrite Ehas.
    destruct has; [ | discriminate E].
    apply bind_inv in E as ([token ctp] & st1 & _ & E).
    apply ret_inv in E as [-> _]. reflexivity.
Qed.

(** A round asks for another one only when its request was answered at
    once, by a page that holds a continuation. *)
Lemma history_round_next on_yield headers s st s' st' :
  history_round b on_yield headers s st = (Done (Next s'), st') ->
  sent st' = S (sent st)
  /\ exists page,
       json_reply b (sent st) = Ok page
       /\ history_page_continues page = true.
Proof.
  destruct s as [[params xsrf] resp0]. intros E.
  pose proof (history_round_failures on_yield headers (params, xsrf, resp0) st)
    as Hround.
  cbv zeta in Hround. rewrite E in Hround. cbn [fst snd] in Hround.
  unfold history_round in E.
  apply bind_inv in E as ([last resp] & st1 & E1 & E).
  destruct (history_fetch_first (history_request headers xsrf params)
              resp0 st) as [_ Hfirst].
  cbv zeta in Hfirst. rewrite E1 in Hfirst. cbn [fst snd] in Hfirst.
  destruct last as [e | ].
  { apply bind_inv in E as (u & st2 & _ & E).
    apply ret_inv in E as [E _]. discriminate E. }
  destruct (Hfirst resp eq_refl) as [Hreply Hsent1].
  assert (Hsent : sent st' = sent st1).
  { match type of E with
    | ?m st1 = _ =>
        assert (R : respects same_sent m)
          by (unfold history_next_sections; resp_with method_step)
    end.
    exact (same_sent_run _ _ _ _ R E). }
  split; [congruence | ].
  exists resp. split; [exact Hreply | ].
  apply bind_inv in E as (u & st2 & _ & E).
  apply bind_inv in E as (contents & st3 & E2 & E).
  apply lift_inv in E2 as [Econtents ->].
  unfold history_page_continues.
  change [At 1; K "response"; K "onResponseReceivedActions"; At 0;
          K "appendContinuationItemsAction"; K "continuationItems"]
    with ([At 1; K "response"]
          ++ [K "onResponseReceivedActions"; At 0;
              K "appendContinuationItemsAction"; K "continuationItems"])%list.
  rewrite walk_app, Econtents. cbn [rbind].
  destruct (walk contents
              [K "onResponseReceivedActions"; At 0;
               K "appendContinuationItemsAction"; K "continuationItems"])
    as [slr | e].
  2:{ destruct e; discriminate E. }
  apply bind_inv in E as (sections & st3 & E2 & E).
  apply lift_inv in E2 as [Eiter ->]. rewrite Eiter.
  apply bind_inv in E as (continuations & st3 & Esec & E).
  apply bind_inv in E as (found & st4 & Efound & E).
  destruct found as [c | ];
    [ | apply ret_inv in E as [E _]; discriminate E].
  clear E.
  destruct (truthy continuations) eqn:Htruthy; cbn [negb] in Efound.
  - unfold history_next_sections in Esec.
    destruct (for_each_break_inv (fun s => s = JNull)
                (fun x => match contains "continuationItemRenderer" x with
                          | Ok true => true
                          | _ => false
                          end)
                _ (history_section_breaks on_yield) _ _ _ _ _ eq_refl Esec)
      as [-> | Hex]; [discriminate Htruthy | ].
    rewrite Hex. reflexivity.
  - destruct (getitem slr (K "continuations")) as [c' | e];
      [apply orb_true_r | ].
    destruct e; try discriminate Efound;
      apply bind_inv in Efound as (u' & st5 & _ & Efound);
      apply ret_inv in Efound as [Efound _]; discriminate Efound.
Qed.

End HistoryEnds.

Section HistoryWalk.

Context {H : Helpers} (b : backend).

Lemma history_loop_goes_on on_yield headers lo fuel :
  forall s st,
    (forall i, (lo < i < sent st)%nat -> history_goes_on b i) ->
    forall i,
      (lo < i)%nat ->
      (S i < sent (run_state
                     (while_loop fuel (fun _ => true) s
                        (history_round b on_yield headers)) st))%nat ->
      history_goes_on b i.
Proof.
  induction fuel as [ | fuel IH]; intros s st Hbefore i Hlo Hi.
  - apply Hbefore. unfold run_state in Hi. simpl in Hi. lia.
  - unfold run_state in Hi. simpl in Hi.
    destruct (history_round_failures b on_yield headers s st)
      as [Hlt Hfail].
    pose proof (history_round_next b on_yield headers s st) as Hnext.
    unfold bind in Hi.
    destruct (history_round b on_yield headers s st)
      as [[[s1 | s1] | e | e | ] st1] eqn:E;
      cbn [fst snd] in Hlt, Hfail, Hi;
      try (destruct (Nat.lt_ge_cases i (sent st)) as [Hc | Hc];
           [apply Hbefore; lia | left; apply Hfail; [exact Hc | exact Hi] ]).
    destruct (Hnext s1 st1 eq_refl) as [Hsent Hpage].
    apply (IH s1 st1); [ | exact Hlo | exact Hi].
    intros j Hj. destruct (Nat.eq_dec j (sent st)) as [-> | Hne].
    + right. exact Hpage.
    + apply Hbefore. lia.
Qed.

(** Every way out of [get_history_info]: each request but the last one
    failed with an HTTP error or was answered by a page that holds a
    continuation. *)
Definition goes_on_until_last (st : client) (o : outcome unit)
  (st' : client) : Prop :=
  forall i, (sent st < i)%nat -> (S i < sent st')%nat ->
            history_goes_on b i.

Lemma goes_on_until_last_first st o st' :
  sent st' = sent st \/ sent st' = S (sent st) ->
  goes_on_until_last st o st'.
Proof. intros E i Hlo Hi. lia. Qed.

Ltac silent_step Hsent :=
  eapply (holds_bind_respects same_sent);
  [ unfold history_first_sections; resp_with method_step | ];
  let o := fresh "o" in
  let E := fresh "E" in
  intros o ? E; unfold same_sent in E; rewrite Hsent in E; clear Hsent;
  rename E into Hsent;
  destruct o; cbn [on_exit];
  try (apply goes_on_until_last_first; right; exact Hsent).

Lemma get_history_info_goes_on fuel on_yield st :
  holds (get_history_info b fuel on_yield) st (goes_on_until_last st).
Proof.
  unfold get_history_info.
  apply holds_bind_login. destruct (logged_in st);
    [ | apply goes_on_until_last_first; left; reflexivity].
  apply holds_bind_download_page_soup. intros st1 Hsent _.
  destruct (page_reply b (sent st)) as [content | e];
    [ | apply goes_on_until_last_first; right; exact Hsent].
  do 8 silent_step Hsent.
  match goal with
  | |- holds (match ?found with _ => _ end) _ _ =>
      destruct found as [next_continuation | ]
  end; [ | apply goes_on_until_last_first; right; exact Hsent].
  do 5 silent_step Hsent.
  lazymatch goal with
  | |- holds (bind (while_loop _ _ ?s (history_round _ _ ?headers)) _) ?st1 _
    =>
      pose proof (history_loop_goes_on on_yield headers (sent st) fuel s st1)
        as Hloop
  end.
  unfold holds, goes_on_until_last. rewrite run_state_bind_ret.
  apply Hloop. intros i Hi. lia.
Qed.

Lemma get_history_info_fuelled fuel on_yield :
  fuelled (S fuel) (fun _ => True) (get_history_info b fuel on_yield).
Proof.
  unfold get_history_info. repeat fuel_step.
  apply fuelled_bind_tail; [ | intros; apply fin_ret].
  apply fuelled_weaken with (Q := fun st' => (0 < fuel)%nat -> True);
    [trivial | ].
  apply fuelled_while_loop with (I := fun _ => True);
    [intros; apply fin_history_round | | exact I].
  intros s0 st s' st' _ _ E _.
  apply history_round_next in E as [Hsent _].
  split; [exact I | split; [lia | exact I]].
Qed.

End HistoryWalk.

(* ---------------------------------------------------------------- *)
(** *** The walk through the community history *)

(** Request number [i] was answered, by a page whose section lists
    continuations. *)
Definition community_goes_on (b : backend) (i : nat) : Prop :=
  exists page,
    json_reply b i = Ok page /\ community_page_continues page = true.

Lemma first_occurrences_nonempty seen k ks :
  existsb (String.eqb k) seen = false ->
  first_occurrences seen (k :: ks) <> [].
Proof. intros E. simpl. rewrite E. discriminate. Qed.

(** What counts as true and can be gone through has an item. *)
Lemma truthy_iter_nonempty c l :
  truthy c = true -> py_iter c = Ok l -> l <> [].
Proof.
  destruct c as [ | v | n | s | items | d]; simpl; intros Ht Hi;
    try discriminate Hi; injection Hi as <-.
  - destruct s; [discriminate Ht | discriminate].
  - destruct items; [discriminate Ht | discriminate].
  - destruct d as [ | [k v] d]; [discriminate Ht | ].
    unfold dict_keys. simpl. discriminate.
Qed.

Lemma fuelled_bind_inv {A B} n Q (m : M A) (k : A -> M B) :
  finishes m -> respects sent_grows m ->
  (forall st a st1,
     m st = (Done a, st1) -> fst (k a st1) = NoFuel ->
     (sent st1 + n <= sent (snd (k a st1)))%nat /\ Q (snd (k a st1))) ->
  fuelled n Q (bind m k).
Proof.
  intros Hfin Hgrows Hk st. specialize (Hfin st). specialize (Hgrows st).
  specialize (Hk st).
  unfold run_state, sent_grows in Hgrows. unfold bind.
  destruct (m st) as [[a | e | e | ] st1]; simpl in *; try discriminate.
  - intros N. destruct (Hk a st1 eq_refl N) as [Hle Hq].
    split; [lia | exact Hq].
  - intros _. exfalso. apply Hfin. reflexivity.
Qed.

Section CommunityEnds.

Context {H : Helpers} (b : backend).

(** The loop variables after a fetch: [has_continuations] counts as true
    only when it is the 'continuations' entry of the section fetched. *)
Lemma community_fetch_next on_yield ytcfg headers cont s st r st' :
  community_fetch b on_yield ytcfg headers cont s st = (Done r, st') ->
  sent st' = S (sent st)
  /\ (truthy (snd (ctl_state r)) = true ->
      getitem (fst (ctl_state r)) (K "continuations")
      = Ok (snd (ctl_state r))
      /\ community_goes_on b (sent st)).
Proof.
  intros E.
  destruct (community_fetch_run b on_yield ytcfg headers cont s st r st' E)
    as [_ [Hsent _]].
  split; [exact Hsent | ].
  unfold community_fetch in E.
  apply bind_inv in E as (ctoken & st1 & E1 & E).
  apply lift_inv in E1 as [_ ->].
  apply bind_inv in E as (continuation & st1 & E1 & E).
  apply lift_inv in E1 as [_ ->].
  apply bind_inv in E as (itct & st1 & E1 & E).
  apply lift_inv in E1 as [_ ->].
  apply bind_inv in E as (session_token & st1 & E1 & E).
  apply lift_inv in E1 as [_ ->].
  apply bind_inv in E as (data & st1 & E1 & E).
  rewrite download_page_run in E1.
  assert (Hreply : json_reply b (sent st) = Ok data).
  { destruct (json_reply b (sent st)); inversion E1. reflexivity. }
  clear E1.
  apply bind_inv in E as (item_section & st2 & E1 & E).
  apply lift_inv in E1 as [Esection ->].
  apply bind_inv in E as (contents & st2 & E1 & E).
  apply lift_inv in E1 as [_ ->].
  apply bind_inv in E as (u & st2 & _ & E).
  apply bind_inv in E as (has & st3 & E2 & E).
  apply lift_inv in E2 as [Ehas ->].
  apply bind_inv in E as (has_continuations & st3 & E2 & E).
  apply ret_inv in E as [-> _]. cbn [ctl_state fst snd].
  intros Htruthy.
  destruct has.
  - apply lift_inv in E2 as [Eget _].
    split; [exact Eget | ].
    exists data. split; [exact Hreply | ].
    unfold community_page_continues.
    rewrite Esection, Ehas, Eget. exact Htruthy.
  - apply ret_inv in E2 as [-> _]. discriminate Htruthy.
Qed.

Lemma community_fetches_last on_yield ytcfg headers :
  forall conts s st s' st',
    for_each conts s (community_fetch b on_yield ytcfg headers) st
    = (Done s', st') ->
    sent st' = (sent st + length conts)%nat
    /\ (conts <> [] -> truthy (snd s') = true ->
        getitem (fst s') (K "continuations") = Ok (snd s')
        /\ community_goes_on b (pred (sent st'))).
Proof.
  induction conts as [ | x l IH]; intros s st s' st' E.
  - apply ret_inv in E as [_ ->]. split; [simpl; lia | ].
    intros Hne. destruct (Hne eq_refl).
  - simpl in E. apply bind_inv in E as (r & st1 & E1 & E2).
    destruct (community_fetch_next _ _ _ _ _ _ _ _ E1) as [Hsent Hlast].
    destruct (community_fetch_run b _ _ _ _ _ _ _ _ E1) as [[s1 ->] _].
    cbn [ctl_state] in Hlast.
    destruct (IH _ _ _ _ E2) as [Hsent' Hlast'].
    split; [rewrite Hsent', Hsent; simpl; lia | ].
    intros _ Htruthy. destruct l as [ | y l].
    + apply ret_inv in E2 as [-> ->].
      rewrite Hsent. exact (Hlast Htruthy).
    + apply Hlast'; [discriminate | exact Htruthy].
Qed.

(** The section at hand lists continuations. *)
Definition lists_continuations (s : json * json) : Prop :=
  exists c, getitem (fst s) (K "continuations") = Ok c /\ truthy c = true.

(** A round that completes has fetched a page for every continuation
    listed; what it leaves in [has_continuations] counts as true only when
    the last of these pages lists continuations. *)
Lemma community_round_next on_yield ytcfg headers s st r st' :
  community_round b on_yield ytcfg headers s st = (Done r, st') ->
  exists c conts,
    getitem (fst s) (K "continuations") = Ok c
    /\ py_iter c = Ok conts
    /\ sent st' = (sent st + length conts)%nat
    /\ (conts <> [] -> truthy (snd (ctl_state r)) = true ->
        lists_continuations (ctl_state r)
        /\ community_goes_on b (pred (sent st'))).
Proof.
  intros E. unfold community_round in E.
  apply bind_inv in E as (c & st1 & E1 & E).
  apply lift_inv in E1 as [Hget ->].
  apply bind_inv in E as (conts & st1 & E1 & E).
  apply lift_inv in E1 as [Hiter ->].
  apply bind_inv in E as (s' & st1 & E1 & E).
  apply ret_inv in E as [-> ->]. cbn [ctl_state].
  destruct (community_fetches_last _ _ _ _ _ _ _ _ E1) as [Hsent Hlast].
  exists c, conts.
  split; [exact Hget | split; [exact Hiter | split; [exact Hsent | ] ] ].
  intros Hne Htruthy.
  destruct (Hlast Hne Htruthy) as [Hget' Hon].
  split; [ | exact Hon].
  exists (snd s'). split; [exact Hget' | exact Htruthy].
Qed.

Lemma community_history_fuelled only_first_page fuel on_yield :
  fuelled (S fuel)
    (fun st' => (0 < fuel)%nat -> community_goes_on b (pred (sent st')))
    (_community_history b only_first_page fuel on_yield).
Proof.
  unfold _community_history.
  do 8 fuel_step.
  apply fuelled_bind_inv; [finish_with fail | resp_with method_step | ].
  intros st done st1 Edone N.
  destruct done; [discriminate N | ].
  lazymatch type of N with
  | fst (bind (while_loop _ _ ?s0 _) _ _) = NoFuel =>
      assert (Hlists : lists_continuations s0)
  end.
  { destruct only_first_page; [discriminate Edone | ].
    apply bind_inv in Edone as (has & st2 & E1 & E).
    apply lift_inv in E1 as [Ehas ->].
    destruct has; cbn [negb] in E; [ | discriminate E].
    apply bind_inv in E as (c & st2 & E1 & E).
    apply lift_inv in E1 as [Eget ->].
    apply ret_inv in E as [E _].
    exists c. split; [exact Eget | ].
    destruct (truthy c); [reflexivity | discriminate E]. }
  lazymatch type of N with
  | fst (?m st1) = NoFuel =>
      enough (F : fuelled fuel
                    (fun st' =>
                       (0 < fuel)%nat ->
                       community_goes_on b (pred (sent st'))) m)
        by exact (F st1 N)
  end.
  apply fuelled_bind_tail; [ | intros; apply fin_ret].
  apply fuelled_while_loop with (I := lists_continuations);
    [intros; apply fin_community_round | | exact Hlists].
  intros s st0 s' st' [c' [Hget' Htruthy]] _ E Hcond.
  destruct (community_round_next _ _ _ _ _ _ _ E)
    as (c & conts & Hget & Hiter & Hsent & Hnext).
  rewrite Hget in Hget'. injection Hget' as <-.
  pose proof (truthy_iter_nonempty _ _ Htruthy Hiter) as Hne.
  cbn [ctl_state] in Hnext.
  destruct (Hnext Hne Hcond) as [Hs' Hon].
  split; [exact Hs' | split; [ | exact Hon] ].
  destruct conts; [destruct (Hne eq_refl) | simpl in Hsent; lia].
Qed.

End CommunityEnds.

(** C1: the walks end at a page without a continuation.  In a run of
    [get_playlist_info], and in a run of [get_history_info], once a
    continuation request has been answered by a page that holds no
    continuation (for the playlist: the last of its items holds no
    'continuationItemRenderer'; for the history: none of its sections holds
    one and their list has no 'continuations' entry), no further request is
    made, and the run ends: with more fuel than there are requests up to
    that one it does not run out of fuel.  [_community_history] does not
    leave at once: a round of its loop fetches a page for every
    continuation that the section at hand lists, and the loop goes on to
    another round only when the last of these pages lists continuations
    that count as true; its run ends when every page from some request on
    lists none. *)
Theorem walk_ends_at_page_without_token {H : Helpers} :
  (forall (b : backend) (playlist_id : string) (fuel : nat)
          (on_yield : json -> result unit) (st : client) (j : nat),
     (sent st < j)%nat ->
     tokenless playlist_page_continues b j ->
     (sent (run_state (get_playlist_info b playlist_id fuel on_yield) st)
      <= S j)%nat
     /\ ((j - sent st < fuel)%nat ->
         run_outcome (get_playlist_info b playlist_id fuel on_yield) st
         <> NoFuel))
  /\ (forall (b : backend) (fuel : nat) (on_yield : json -> result unit)
             (st : client) (j : nat),
        (sent st < j)%nat ->
        tokenless history_page_continues b j ->
        (sent (run_state (get_history_info b fuel on_yield) st) <= S j)%nat
        /\ ((j - sent st < fuel)%nat ->
            run_outcome (get_history_info b fuel on_yield) st <> NoFuel))
  /\ (forall (b : backend) (on_yield : json -> result unit) (ytcfg : json)
             (headers : pydict) (s : json * json) (continuations : json)
             (conts : list json) (st : client) (r : ctl (json * json))
             (st' : client),
        getitem (fst s) (K "continuations") = Ok continuations ->
        py_iter continuations = Ok conts ->
        community_round b on_yield ytcfg headers s st = (Done r, st') ->
        sent st' = (sent st + length conts)%nat
        /\ (conts <> [] -> truthy (snd (ctl_state r)) = true ->
            exists page,
              json_reply b (pred (sent st')) = Ok page
              /\ community_page_continues page = true))
  /\ (forall (b : backend) (only_first_page : bool) (fuel : nat)
             (on_yield : json -> result unit) (st : client) (j : nat),
        (j - sent st < fuel)%nat ->
        (forall k, (j <= k)%nat -> tokenless community_page_continues b k) ->
        run_outcome (_community_history b only_first_page fuel on_yield) st
        <> NoFuel).
Proof.
  split; [ | split; [ | split] ].
  - intros b playlist_id fuel on_yield st j Hlo [page [Hreply Hpage]].
    pose proof (get_playlist_info_continues b playlist_id fuel on_yield st)
      as Hwalk.
    unfold holds, continued_until_last in Hwalk.
    assert (Hle : (sent (run_state
                           (get_playlist_info b playlist_id fuel on_yield) st)
                   <= S j)%nat).
    { apply Nat.le_ngt. intros Hgt.
      destruct (Hwalk j Hlo Hgt) as [page' [Hreply' Hpage']].
      congruence. }
    split; [exact Hle | ].
    intros Hfuel N.
    destruct (get_playlist_info_fuelled b playlist_id fuel on_yield st N)
      as [Hsent _].
    unfold run_state in Hle. lia.
  - intros b fuel on_yield st j Hlo [page [Hreply Hpage]].
    pose proof (get_history_info_goes_on b fuel on_yield st) as Hwalk.
    unfold holds, goes_on_until_last in Hwalk.
    assert (Hle : (sent (run_state (get_history_info b fuel on_yield) st)
                   <= S j)%nat).
    { apply Nat.le_ngt. intros Hgt.
      destruct (Hwalk j Hlo Hgt) as [[c Hfail] | [page' [Hreply' Hpage']]];
        congruence. }
    split; [exact Hle | ].
    intros Hfuel N.
    destruct (get_history_info_fuelled b fuel on_yield st N) as [Hsent _].
    unfold run_state in Hle. lia.
  - intros b on_yield ytcfg headers s continuations conts st r st'
      Hget Hiter E.
    destruct (community_round_next b _ _ _ _ _ _ _ E)
      as (c & conts' & Hget' & Hiter' & Hsent & Hnext).
    rewrite Hget in Hget'. injection Hget' as <-.
    rewrite Hiter in Hiter'. injection Hiter' as <-.
    split; [exact Hsent | ].
    intros Hne Htruthy. exact (proj2 (Hnext Hne Htruthy)).
  - intros b only_first_page fuel on_yield st j Hfuel Hnone N.
    destruct (community_history_fuelled b only_first_page fuel on_yield st N)
      as [Hsent Hon].
    destruct (Hon ltac:(lia)) as [page [Hreply Hpage]].
    destruct (Hnone (pred (sent (snd (_community_history b only_first_page
                                        fuel on_yield st)))) ltac:(lia))
      as [page' [Hreply' Hpage']].
    congruence.
Qed.

Lemma walk_ends_at_page_without_token_witness :
  let on_yield := fun _ : json => Ok tt in
  let st := Demo.logged_in_client in
  let listing :=
    get_playlist_info (H := Demo.helpers) Demo.playlist_site "PL" 3%nat on_yield in
  let history :=
    get_history_info (H := Demo.helpers) Demo.retried_history_site 3%nat
      on_yield in
  let b :=
    Demo.site "community"
      (fun n => Ok (Demo.community_page [Demo.comment "c1"]
                      (match n with
                       | O => [Demo.next_continuation "C3"]
                       | _ => []
                       end))) in
  let s :=
    (Demo.community_section [Demo.comment "c0"]
       [Demo.next_continuation "C1"], JBool true) in
  let round :=
    community_round (H := Demo.helpers) b on_yield Demo.ytcfg [] s st in
  ((sent (run_state listing st) <= 3)%nat
   /\ run_outcome listing st <> NoFuel)
  /\ ((sent (run_state history st) <= 3)%nat
      /\ run_outcome history st <> NoFuel)
  /\ (sent (snd round) = 1%nat
      /\ exists page,
           json_reply b (pred (sent (snd round))) = Ok page
           /\ community_page_continues page = true)
  /\ run_outcome
       (_community_history (H := Demo.helpers) Demo.community_site false 2%nat
          on_yield) st
     <> NoFuel.
Proof.
  intros on_yield st listing history b s round.
  destruct (walk_ends_at_page_without_token (H := Demo.helpers))
    as [Hplaylist [Hhistory [Hround Hcommunity]]].
  split; [ | split; [ | split] ].
  - destruct (Hplaylist Demo.playlist_site "PL" 3%nat on_yield st 2%nat)
      as [Hle Hfin].
    + vm_compute. lia.
    + eexists. split; reflexivity.
    + split; [exact Hle | apply Hfin; vm_compute; lia].
  - destruct (Hhistory Demo.retried_history_site 3%nat on_yield st 2%nat)
      as [Hle Hfin].
    + vm_compute. lia.
    + eexists. split; reflexivity.
    + split; [exact Hle | apply Hfin; vm_compute; lia].
  - destruct (Hround b on_yield Demo.ytcfg [] s
                (JList [Demo.next_continuation "C1"])
                [Demo.next_continuation "C1"] st
                (match fst round with Done r => r | _ => Break s end)
                (snd round)) as [Hsent Hlast].
    + reflexivity.
    + reflexivity.
    + vm_compute. reflexivity.
    + split; [exact Hsent | ].
      apply Hlast; [discriminate | vm_compute; reflexivity].
  - apply (Hcommunity Demo.community_site false 2%nat on_yield st 1%nat).
    + vm_compute. lia.
    + intros k _. eexists. split; reflexivity.
Defined.

(** C1 as stated fails for [_community_history]: the document lists two
    continuations, and the page that answers the first one lists none; the
    second one is requested all the same, and the run ends after it. *)
Lemma community_walk_passes_page_without_token :
  let b := Demo.community_site in
  let r :=
    _community_history (H := Demo.helpers) b false 3%nat (fun _ => Ok tt)
      Demo.logged_in_client in
  tokenless community_page_continues b 1
  /\ fst r = Done tt
  /\ sent (snd r) = 3%nat
  /\ map rq_params (requests_of (transcript (snd r)))
     = [ [("ctoken", JStr "C1"); ("continuation", JStr "C1");
          ("itct", JStr "click-C1")];
         [("ctoken", JStr "C2"); ("continuation", JStr "C2");
          ("itct", JStr "click-C2")] ].
Proof.
  split; [eexists; split; reflexivity | ].
  vm_compute. repeat split.
Qed.
